(** * naev sound engine: a shallow embedding of [src/sound_openal.c]

    The OpenAL backend of the sound subsystem multiplexes voices onto a
    pool of hardware sources, keeps groups of reserved sources with timed
    fade-outs, and decodes WAV and Ogg assets into device buffers.

    The C code is embedded as functions in a state monad over a [world]
    that holds the file's static variables, the OpenAL device, the SDL
    clock and the chronological list of every device call and every
    [WARN] line.  The global mutex ([soundLock]/[soundUnlock]) guards a
    sequential execution and is not represented. *)

From Stdlib Require Import ZArith List String Ascii Bool Lia.
From Stdlib.Strings Require Import Byte.
From Stdlib Require Import SpecFloat.
From stdpp Require Import base list gmap.

Local Open Scope Z_scope.

(** ** C scalar types *)

Definition ALuint := Z.
Definition ALint := Z.
Definition ALenum := Z.

(** Wrap-around of the fixed-width integers the code computes with. *)
Definition to_uint32 (z : Z) : Z := z mod 2 ^ 32.
Definition to_uint16 (z : Z) : Z := z mod 2 ^ 16.
Definition to_int (z : Z) : Z := (z + 2 ^ 31) mod 2 ^ 32 - 2 ^ 31.

(** [ALfloat] is IEEE binary32 and [double] is binary64; both are values of
    [spec_float], operated on at precision 24/128 and 53/1024. *)
Definition ALfloat := spec_float.
Definition double := spec_float.

Definition float_of_Z (z : Z) : ALfloat := binary_normalize 24 128 z 0 false.
Definition double_of_Z (z : Z) : double := binary_normalize 53 1024 z 0 false.

(** The conversion [(ALfloat) x] of a double: rounding to nearest even. *)
Definition float_of_double (x : double) : ALfloat :=
  match x with
  | S754_finite s m e => binary_round 24 128 s m e
  | _ => x
  end.

(** The implicit promotion of an [ALfloat] to [double]. *)
Definition double_of_float (x : ALfloat) : double :=
  match x with
  | S754_finite s m e => binary_round 53 1024 s m e
  | _ => x
  end.

Definition float_mul : ALfloat -> ALfloat -> ALfloat := SFmul 24 128.
Definition float_div : ALfloat -> ALfloat -> ALfloat := SFdiv 24 128.
Definition double_sub : double -> double -> double := SFsub 53 1024.
Definition float_ltb : ALfloat -> ALfloat -> bool := SFltb.

(** The rational [n / 2^k] as a double, for writing literals. *)
Definition double_lit (n : Z) (k : Z) : double := binary_normalize 53 1024 n (- k) false.

(** ** Constants of the file and of the OpenAL headers *)

Definition SOUND_MAX_SOURCES : Z := 256.
Definition SOUND_FADEOUT : Z := 100.

Definition AL_NONE : Z := 0.
Definition AL_FALSE : Z := 0.
Definition AL_TRUE : Z := 1.
Definition AL_SOURCE_RELATIVE : ALenum := 0x202.
Definition AL_POSITION : ALenum := 0x1004.
Definition AL_VELOCITY : ALenum := 0x1006.
Definition AL_LOOPING : ALenum := 0x1007.
Definition AL_BUFFER : ALenum := 0x1009.
Definition AL_GAIN : ALenum := 0x100A.
Definition AL_SOURCE_STATE : ALenum := 0x1010.
Definition AL_INITIAL : ALint := 0x1011.
Definition AL_PLAYING : ALint := 0x1012.
Definition AL_PAUSED : ALint := 0x1013.
Definition AL_STOPPED : ALint := 0x1014.
Definition AL_FORMAT_MONO8 : ALenum := 0x1100.
Definition AL_FORMAT_MONO16 : ALenum := 0x1101.
Definition AL_FORMAT_STEREO8 : ALenum := 0x1102.
Definition AL_FORMAT_STEREO16 : ALenum := 0x1103.
Definition AL_NO_ERROR : ALenum := 0.
Definition AL_INVALID_NAME : ALenum := 0xA001.
Definition AL_INVALID_ENUM : ALenum := 0xA002.
Definition AL_INVALID_VALUE : ALenum := 0xA003.
Definition AL_INVALID_OPERATION : ALenum := 0xA004.
Definition AL_OUT_OF_MEMORY : ALenum := 0xA005.

(** Channel count and sample width a buffer format stands for. *)
Definition format_channels (format : ALenum) : Z :=
  if (format =? AL_FORMAT_MONO8) || (format =? AL_FORMAT_MONO16) then 1
  else if (format =? AL_FORMAT_STEREO8) || (format =? AL_FORMAT_STEREO16) then 2
  else 0.

Definition format_bits (format : ALenum) : Z :=
  if (format =? AL_FORMAT_MONO8) || (format =? AL_FORMAT_STEREO8) then 8
  else if (format =? AL_FORMAT_MONO16) || (format =? AL_FORMAT_STEREO16) then 16
  else 0.

(** ** Data structures *)

(** [voice_state_t] of sound.h. *)
Inductive voice_state_t :=
| VOICE_STOPPED
| VOICE_PLAYING
| VOICE_FADEOUT
| VOICE_DESTROY.

(** [alSound]: the OpenAL part [u.al] holds the buffer name. *)
Record alSound := AlSound { snd_buf : ALuint }.

(** [alVoice]: the logical state and the OpenAL part [u.al]. *)
Record alVoice := AlVoice {
  v_state : voice_state_t;
  v_source : ALuint;
  v_buffer : ALuint;
  v_pos : list ALfloat;
  v_vel : list ALfloat
}.

(** [alGroup_t]. *)
Record alGroup_t := AlGroup {
  g_id : Z;
  g_sources : list ALuint;
  g_nsources : Z;
  g_state : voice_state_t;
  g_fade_timer : Z
}.

(** What fresh memory holds is not specified by C; the model fills it
    with these values. *)
Definition fresh_group : alGroup_t := AlGroup 0 [] 0 VOICE_STOPPED 0.

(** Array read [a[i]]; outside the array the C program has no defined
    behaviour and the model reads 0. *)
Definition arr_get (a : list Z) (i : Z) : Z :=
  if i <? 0 then 0 else default 0 (a !! Z.to_nat i).

(** Array write [a[i] = x]. *)
Definition arr_set {A} (a : list A) (i : Z) (x : A) : list A :=
  if i <? 0 then a else <[Z.to_nat i := x]> a.

(** [memmove(&a[dst], &a[src], cnt * sizeof(a[0]))]. *)
Definition memmove (a : list Z) (dst src cnt : Z) : list Z :=
  list_inserts (Z.to_nat dst) (take (Z.to_nat cnt) (drop (Z.to_nat src) a)) a.

(** [realloc] of an array to [n] elements. *)
Definition realloc {A} (fresh : A) (a : list A) (n : Z) : list A :=
  take (Z.to_nat n) a ++ replicate (Z.to_nat n - length a)%nat fresh.

(** ** Device calls and log lines *)

Inductive warn_arg :=
| ArgInt (z : Z)
| ArgStr (s : string).

Inductive al_event :=
| AlGetSourcei (s : ALuint) (param : ALenum)
| AlSourcei (s : ALuint) (param : ALenum) (value : ALint)
| AlSourcef (s : ALuint) (param : ALenum) (value : ALfloat)
| AlSourcefv (s : ALuint) (param : ALenum) (values : list ALfloat)
| AlSourcePlay (s : ALuint)
| AlSourceStop (s : ALuint)
| AlSourcePause (s : ALuint)
| AlGenBuffers (b : ALuint)
| AlBufferData (b : ALuint) (format : ALenum) (data : list byte) (size freq : Z)
| AlGetError
| LogWarn (fmt : string) (args : list warn_arg).

(** The OpenAL library is outside the repository: the engine is written
    against this interface, and every result holds for any device. *)
Class OpenAL (D : Type) := {
  dev_GetSourcei : D -> ALuint -> ALenum -> ALint;
  dev_Sourcei : D -> ALuint -> ALenum -> ALint -> D;
  dev_Sourcef : D -> ALuint -> ALenum -> ALfloat -> D;
  dev_Sourcefv : D -> ALuint -> ALenum -> list ALfloat -> D;
  dev_SourcePlay : D -> ALuint -> D;
  dev_SourceStop : D -> ALuint -> D;
  dev_SourcePause : D -> ALuint -> D;
  dev_GenBuffers : D -> ALuint * D;
  dev_BufferData : D -> ALuint -> ALenum -> list byte -> Z -> Z -> D;
  dev_GetError : D -> ALenum * D
}.

(** ** The world and its monad *)

Record world (D : Type) := World {
  source_stack : list ALuint;   (* free source pool *)
  source_total : list ALuint;   (* total source pool *)
  source_nstack : Z;            (* number of free sources in the pool *)
  source_ntotal : Z;            (* number of general use sources *)
  svolume : ALfloat;            (* sound global volume *)
  al_groups : list alGroup_t;   (* created groups *)
  al_ngroups : Z;               (* number of created groups *)
  al_groupidgen : Z;            (* used to create group IDs *)
  device : D;                   (* the OpenAL device and context *)
  ticks : Z;                    (* what SDL_GetTicks() returns *)
  trace : list al_event         (* device calls and warnings, oldest first *)
}.

Arguments World {D}.
Arguments source_stack {D}.
Arguments source_total {D}.
Arguments source_nstack {D}.
Arguments source_ntotal {D}.
Arguments svolume {D}.
Arguments al_groups {D}.
Arguments al_ngroups {D}.
Arguments al_groupidgen {D}.
Arguments device {D}.
Arguments ticks {D}.
Arguments trace {D}.

Definition M (D A : Type) : Type := world D -> A * world D.

Definition ret {D A} (a : A) : M D A := fun w => (a, w).

Definition bind {D A B} (m : M D A) (k : A -> M D B) : M D B :=
  fun w => let '(a, w') := m w in k a w'.

Definition gets {D A} (f : world D -> A) : M D A := fun w => (f w, w).

Definition modify {D} (f : world D -> world D) : M D unit := fun w => (tt, f w).

Declare Scope al_scope.
Delimit Scope al_scope with al.
Notation "x <- m ;; k" := (bind m (fun x => k))
  (at level 100, m at next level, k at level 200, right associativity) : al_scope.
Notation "m ;; k" := (bind m (fun _ => k))
  (at level 100, k at level 200, right associativity) : al_scope.
Local Open Scope al_scope.

Section Setters.
Context {D : Type}.

Definition set_source_stack (x : list ALuint) (w : world D) : world D :=
  match w with
  | World a b c d e f g h i j k => World x b c d e f g h i j k
  end.

Definition set_source_total (x : list ALuint) (w : world D) : world D :=
  match w with
  | World a b c d e f g h i j k => World a x c d e f g h i j k
  end.

Definition set_source_nstack (x : Z) (w : world D) : world D :=
  match w with
  | World a b c d e f g h i j k => World a b x d e f g h i j k
  end.

Definition set_source_ntotal (x : Z) (w : world D) : world D :=
  match w with
  | World a b c d e f g h i j k => World a b c x e f g h i j k
  end.

Definition set_svolume (x : ALfloat) (w : world D) : world D :=
  match w with
  | World a b c d e f g h i j k => World a b c d x f g h i j k
  end.

Definition set_al_groups (x : list alGroup_t) (w : world D) : world D :=
  match w with
  | World a b c d e f g h i j k => World a b c d e x g h i j k
  end.

Definition set_al_ngroups (x : Z) (w : world D) : world D :=
  match w with
  | World a b c d e f g h i j k => World a b c d e f x h i j k
  end.

Definition set_al_groupidgen (x : Z) (w : world D) : world D :=
  match w with
  | World a b c d e f g h i j k => World a b c d e f g x i j k
  end.

Definition set_device (x : D) (w : world D) : world D :=
  match w with
  | World a b c d e f g h i j k => World a b c d e f g h x j k
  end.

Definition set_ticks (x : Z) (w : world D) : world D :=
  match w with
  | World a b c d e f g h i j k => World a b c d e f g h i x k
  end.

Definition set_trace (x : list al_event) (w : world D) : world D :=
  match w with
  | World a b c d e f g h i j k => World a b c d e f g h i j x
  end.

(** One more line in the chronological log. *)
Definition emit (e : al_event) : M D unit :=
  modify (fun w => set_trace (trace w ++ [e]) w).

(** [WARN(fmt, args...)]. *)
Definition WARN (fmt : string) (args : list warn_arg) : M D unit :=
  emit (LogWarn fmt args).

(** [SDL_GetTicks()]. *)
Definition SDL_GetTicks : M D Z := gets (fun w => to_uint32 (ticks w)).

(** Counted loop [for (i = start; i < start + n; i++) body], where a
    body that yields [Some a] leaves the loop ([break] or [return]). *)
Fixpoint for_loop {A} (n : nat) (i : Z) (body : Z -> M D (option A)) : M D (option A) :=
  match n with
  | O => ret None
  | S n' =>
      r <- body i ;;
      match r with
      | Some a => ret (Some a)
      | None => for_loop n' (i + 1) body
      end
  end.

(** The same loop for a body that always runs to its end. *)
Definition for_each (n : nat) (i : Z) (body : Z -> M D unit) : M D unit :=
  _ <- for_loop n i (fun j => body j ;; ret (@None unit)) ;; ret tt.
End Setters.

(** ** Record updates *)

Definition set_v_state (x : voice_state_t) (v : alVoice) : alVoice :=
  AlVoice x (v_source v) (v_buffer v) (v_pos v) (v_vel v).
Definition set_v_source (x : ALuint) (v : alVoice) : alVoice :=
  AlVoice (v_state v) x (v_buffer v) (v_pos v) (v_vel v).
Definition set_v_buffer (x : ALuint) (v : alVoice) : alVoice :=
  AlVoice (v_state v) (v_source v) x (v_pos v) (v_vel v).
Definition set_v_pos (x : list ALfloat) (v : alVoice) : alVoice :=
  AlVoice (v_state v) (v_source v) (v_buffer v) x (v_vel v).
Definition set_v_vel (x : list ALfloat) (v : alVoice) : alVoice :=
  AlVoice (v_state v) (v_source v) (v_buffer v) (v_pos v) x.

Definition set_g_id (x : Z) (g : alGroup_t) : alGroup_t :=
  AlGroup x (g_sources g) (g_nsources g) (g_state g) (g_fade_timer g).
Definition set_g_sources (x : list ALuint) (g : alGroup_t) : alGroup_t :=
  AlGroup (g_id g) x (g_nsources g) (g_state g) (g_fade_timer g).
Definition set_g_nsources (x : Z) (g : alGroup_t) : alGroup_t :=
  AlGroup (g_id g) (g_sources g) x (g_state g) (g_fade_timer g).
Definition set_g_state (x : voice_state_t) (g : alGroup_t) : alGroup_t :=
  AlGroup (g_id g) (g_sources g) (g_nsources g) x (g_fade_timer g).
Definition set_g_fade_timer (x : Z) (g : alGroup_t) : alGroup_t :=
  AlGroup (g_id g) (g_sources g) (g_nsources g) (g_state g) x.

(** [al_groups[i]]. *)
Definition grp_get (a : list alGroup_t) (i : Z) : alGroup_t :=
  if i <? 0 then fresh_group else default fresh_group (a !! Z.to_nat i).

(** ** The engine *)

Section Engine.
Context {D : Type} `{HAL : OpenAL D}.

(** *** Device calls: each one is logged and applied to the device. *)

Definition alGetSourcei (s : ALuint) (param : ALenum) : M D ALint :=
  emit (AlGetSourcei s param) ;;
  gets (fun w => dev_GetSourcei (device w) s param).

Definition alSourcei (s : ALuint) (param : ALenum) (value : ALint) : M D unit :=
  emit (AlSourcei s param value) ;;
  modify (fun w => set_device (dev_Sourcei (device w) s param value) w).

Definition alSourcef (s : ALuint) (param : ALenum) (value : ALfloat) : M D unit :=
  emit (AlSourcef s param value) ;;
  modify (fun w => set_device (dev_Sourcef (device w) s param value) w).

Definition alSourcefv (s : ALuint) (param : ALenum) (values : list ALfloat) : M D unit :=
  emit (AlSourcefv s param values) ;;
  modify (fun w => set_device (dev_Sourcefv (device w) s param values) w).

Definition alSourcePlay (s : ALuint) : M D unit :=
  emit (AlSourcePlay s) ;;
  modify (fun w => set_device (dev_SourcePlay (device w) s) w).

Definition alSourceStop (s : ALuint) : M D unit :=
  emit (AlSourceStop s) ;;
  modify (fun w => set_device (dev_SourceStop (device w) s) w).

Definition alSourcePause (s : ALuint) : M D unit :=
  emit (AlSourcePause s) ;;
  modify (fun w => set_device (dev_SourcePause (device w) s) w).

Definition alGetError : M D ALenum :=
  emit AlGetError ;;
  (fun w => let '(err, d) := dev_GetError (device w) in (err, set_device d w)).

(** [alGenBuffers(1, &b)]. *)
Definition alGenBuffers : M D ALuint :=
  b <- (fun w => let '(b, d) := dev_GenBuffers (device w) in (b, set_device d w)) ;;
  emit (AlGenBuffers b) ;;
  ret b.

Definition alBufferData (b : ALuint) (format : ALenum) (data : list byte)
    (size freq : Z) : M D unit :=
  emit (AlBufferData b format data size freq) ;;
  modify (fun w => set_device (dev_BufferData (device w) b format data size freq) w).

(** *** Error check *)

Definition al_errstr (err : ALenum) : string :=
  if err =? AL_INVALID_NAME then "a bad name (ID) was passed to an OpenAL function"
  else if err =? AL_INVALID_ENUM then "an invalid enum value was passed to an OpenAL function"
  else if err =? AL_INVALID_VALUE then "an invalid value was passed to an OpenAL function"
  else if err =? AL_INVALID_OPERATION then "the requested operation is not valid"
  else if err =? AL_OUT_OF_MEMORY then
    "the requested operation resulted in OpenAL running out of memory"
  else "unknown error".

Definition al_checkErr : M D unit :=
  err <- alGetError ;;
  if err =? AL_NO_ERROR then ret tt
  else WARN "OpenAL error: %s" [ArgStr (al_errstr err)].

(** *** Volume *)

Definition sound_al_volume (vol : double) : M D Z :=
  modify (set_svolume (float_of_double vol)) ;;
  ret 0.

Definition sound_al_getVolume : M D double :=
  gets (fun w => double_of_float (svolume w)).

(** *** Source pool and voices *)

Definition sound_al_getSource : M D ALuint :=
  nstack <- gets source_nstack ;;
  if nstack <=? 0 then ret 0
  else
    modify (fun w => set_source_nstack (source_nstack w - 1) w) ;;
    gets (fun w => arr_get (source_stack w) (source_nstack w)).

(** The voice is passed by pointer in C; here the updated voice is
    returned next to the status. *)
Definition al_playVoice (v : alVoice) (s : alSound)
    (px py vx vy : ALfloat) (relative : ALint) : M D (Z * alVoice) :=
  source <- sound_al_getSource ;;
  let v := set_v_source source v in
  if v_source v =? 0 then ret (-1, v)
  else
    let v := set_v_buffer (snd_buf s) v in
    alSourcei (v_source v) AL_BUFFER (v_buffer v) ;;
    alSourcei (v_source v) AL_SOURCE_RELATIVE relative ;;
    let v := set_v_pos (arr_set (v_pos v) 0 px) v in
    let v := set_v_pos (arr_set (v_pos v) 1 py) v in
    let v := set_v_pos (arr_set (v_pos v) 2 (float_of_double (double_of_Z 0))) v in
    let v := set_v_vel (arr_set (v_vel v) 0 vx) v in
    let v := set_v_vel (arr_set (v_vel v) 1 vy) v in
    let v := set_v_vel (arr_set (v_vel v) 2 (float_of_double (double_of_Z 0))) v in
    svol <- gets svolume ;;
    alSourcef (v_source v) AL_GAIN svol ;;
    alSourcefv (v_source v) AL_POSITION (v_pos v) ;;
    alSourcefv (v_source v) AL_VELOCITY (v_vel v) ;;
    alSourcePlay (v_source v) ;;
    al_checkErr ;;
    ret (0, v).

Definition sound_al_play (v : alVoice) (s : alSound) : M D (Z * alVoice) :=
  let zero := float_of_double (double_of_Z 0) in
  al_playVoice v s zero zero zero zero AL_TRUE.

Definition sound_al_playPos (v : alVoice) (s : alSound)
    (px py vx vy : double) : M D (Z * alVoice) :=
  al_playVoice v s (float_of_double px) (float_of_double py)
    (float_of_double vx) (float_of_double vy) AL_FALSE.

Definition sound_al_updatePos (v : alVoice) (px py vx vy : double) : M D (Z * alVoice) :=
  let v := set_v_pos (arr_set (v_pos v) 0 (float_of_double px)) v in
  let v := set_v_pos (arr_set (v_pos v) 1 (float_of_double py)) v in
  let v := set_v_vel (arr_set (v_vel v) 0 (float_of_double vx)) v in
  let v := set_v_vel (arr_set (v_vel v) 1 (float_of_double vy)) v in
  ret (0, v).

Definition sound_al_updateVoice (v : alVoice) : M D alVoice :=
  if v_source v =? 0 then ret (set_v_state VOICE_DESTROY v)
  else
    state <- alGetSourcei (v_source v) AL_SOURCE_STATE ;;
    if state =? AL_STOPPED then
      alSourcei (v_source v) AL_BUFFER AL_NONE ;;
      al_checkErr ;;
      modify (fun w => set_source_stack
                (arr_set (source_stack w) (source_nstack w) (v_source v)) w) ;;
      modify (fun w => set_source_nstack (source_nstack w + 1) w) ;;
      let v := set_v_source 0 v in
      ret (set_v_state VOICE_STOPPED v)
    else
      svol <- gets svolume ;;
      alSourcef (v_source v) AL_GAIN svol ;;
      alSourcefv (v_source v) AL_POSITION (v_pos v) ;;
      alSourcefv (v_source v) AL_VELOCITY (v_vel v) ;;
      al_checkErr ;;
      ret v.

Definition sound_al_stop (voice : alVoice) : M D unit :=
  (if negb (v_source voice =? 0) then alSourceStop (v_source voice) else ret tt) ;;
  al_checkErr.

(** *** Pausing *)

Definition al_pausev (n : ALint) (s : list ALuint) : M D unit :=
  for_each (Z.to_nat n) 0 (fun i =>
    state <- alGetSourcei (arr_get s i) AL_SOURCE_STATE ;;
    if state =? AL_PLAYING then alSourcePause (arr_get s i) else ret tt).

Definition al_resumev (n : ALint) (s : list ALuint) : M D unit :=
  for_each (Z.to_nat n) 0 (fun i =>
    state <- alGetSourcei (arr_get s i) AL_SOURCE_STATE ;;
    if state =? AL_PAUSED then alSourcePlay (arr_get s i) else ret tt).

Definition sound_al_pause : M D unit :=
  ntotal <- gets source_ntotal ;;
  total <- gets source_total ;;
  al_pausev ntotal total ;;
  al_checkErr.

Definition sound_al_resume : M D unit :=
  ntotal <- gets source_ntotal ;;
  total <- gets source_total ;;
  al_resumev ntotal total ;;
  al_checkErr.
End Engine.

(** ** Groups *)

Section Groups.
Context {D : Type} `{HAL : OpenAL D}.

(** Assignment through the pointer [g = &al_groups[i]]. *)
Definition modify_group (i : Z) (f : alGroup_t -> alGroup_t) : M D unit :=
  modify (fun w => set_al_groups (arr_set (al_groups w) i (f (grp_get (al_groups w) i))) w).

(** The inner loop of [sound_al_createGroup]: "Remove from total too". *)
Definition createGroup_removeTotal (x : ALuint) : M D unit :=
  ntotal <- gets source_ntotal ;;
  _ <- for_loop (Z.to_nat ntotal) 0 (fun j =>
    total <- gets source_total ;;
    if x =? arr_get total j then
      modify (fun w => set_source_ntotal (source_ntotal w - 1) w) ;;
      modify (fun w => set_source_total
                (memmove (source_total w) j (j + 1) (source_ntotal w - j)) w) ;;
      ret (Some tt)                                        (* break *)
    else ret None) ;;
  ret tt.

(** The body of the loop "Add some sources" of [sound_al_createGroup]: the
    slot [i] of the group at index [g]. *)
Definition createGroup_addSource (g : Z) (i : Z) : M D (option unit) :=
  nstack <- gets source_nstack ;;
  if nstack <=? 0 then ret (Some tt)                       (* goto group_err *)
  else
    modify (fun w => set_source_nstack (source_nstack w - 1) w) ;;
    x <- gets (fun w => arr_get (source_stack w) (source_nstack w)) ;;
    modify_group g (fun gr => set_g_sources (arr_set (g_sources gr) i x) gr) ;;
    createGroup_removeTotal x ;;
    ret None.

(** Creates a group.  [free(g->sources)] on the error path leaves the
    slot past [al_ngroups] without its array.  The id counter is an
    [int]: [++al_groupidgen] wraps around at [INT_MAX]. *)
Definition sound_al_createGroup (size : Z) : M D Z :=
  modify (fun w => set_al_groupidgen (to_int (al_groupidgen w + 1)) w) ;;
  id <- gets al_groupidgen ;;
  modify (fun w => set_al_ngroups (al_ngroups w + 1) w) ;;
  modify (fun w => set_al_groups (realloc fresh_group (al_groups w) (al_ngroups w)) w) ;;
  g <- gets (fun w => al_ngroups w - 1) ;;
  modify_group g (set_g_id id) ;;
  modify_group g (set_g_state VOICE_PLAYING) ;;
  modify_group g (set_g_sources (replicate (Z.to_nat size) 0)) ;;
  modify_group g (set_g_nsources size) ;;
  r <- for_loop (Z.to_nat size) 0 (createGroup_addSource g) ;;
  match r with
  | None => ret id
  | Some _ =>
      modify_group g (set_g_sources []) ;;
      modify (fun w => set_al_ngroups (al_ngroups w - 1) w) ;;
      ret 0
  end.

(** The body of the loop of [sound_al_playGroup] over the sources of the
    group [g]: the source at index [j]. *)
Definition playGroup_source (g : alGroup_t) (s : alSound) (once : Z) (j : Z)
    : M D (option Z) :=
  let src := arr_get (g_sources g) j in
  state <- alGetSourcei src AL_SOURCE_STATE ;;
  skip <-
    (if j =? g_nsources g - 1 then
       (* No free ones, just smash the last one. *)
       (if negb (state =? AL_STOPPED) then
          alSourceStop src ;;
          svol <- gets svolume ;;
          alSourcef src AL_GAIN svol
        else ret tt) ;;
       ret false
     else if (state =? AL_PLAYING) || (state =? AL_PAUSED) then ret true
     else ret false) ;;
  if skip : bool then ret None                             (* continue *)
  else
    alSourcei src AL_BUFFER (snd_buf s) ;;
    alSourcei src AL_SOURCE_RELATIVE AL_TRUE ;;
    alSourcei src AL_LOOPING (if once =? 0 then AL_TRUE else AL_FALSE) ;;
    alSourcePlay src ;;
    al_checkErr ;;
    ret (Some 0).                                          (* return 0 *)

(** The body of its loop over the groups: the group at index [i]. *)
Definition playGroup_group (group : Z) (s : alSound) (once : Z) (i : Z)
    : M D (option Z) :=
  g <- gets (fun w => grp_get (al_groups w) i) ;;
  if g_id g =? group then
    modify_group i (set_g_state VOICE_PLAYING) ;;
    r <- for_loop (Z.to_nat (g_nsources g)) 0 (playGroup_source g s once) ;;
    match r with
    | Some z => ret (Some z)
    | None =>
        WARN "Group '%d' has no free sounds." [ArgInt group] ;;
        ret (Some (-1))                                    (* break, then return -1 *)
    end
  else ret None.

(** Plays a sound in a group. *)
Definition sound_al_playGroup (group : Z) (s : alSound) (once : Z) : M D Z :=
  ngroups <- gets al_ngroups ;;
  r <- for_loop (Z.to_nat ngroups) 0 (playGroup_group group s once) ;;
  match r with
  | Some z => ret z
  | None => WARN "Group '%d' not found." [ArgInt group] ;; ret (-1)
  end.

(** Stops a group.  The [break] stands after the [if], not inside it. *)
Definition sound_al_stopGroup (group : Z) : M D unit :=
  ngroups <- gets al_ngroups ;;
  r <- for_loop (Z.to_nat ngroups) 0 (fun i =>
    g <- gets (fun w => grp_get (al_groups w) i) ;;
    (if g_id g =? group then
       modify_group i (set_g_state VOICE_FADEOUT) ;;
       t <- SDL_GetTicks ;;
       modify_group i (set_g_fade_timer (to_int t))
     else ret tt) ;;
    ret (Some tt)) ;;                                      (* break *)
  match r with
  | Some _ => ret tt
  | None => WARN "Group '%d' not found." [ArgInt group]
  end.

Definition sound_al_pauseGroup (group : Z) : M D unit :=
  ngroups <- gets al_ngroups ;;
  r <- for_loop (Z.to_nat ngroups) 0 (fun i =>
    g <- gets (fun w => grp_get (al_groups w) i) ;;
    if g_id g =? group then
      al_pausev (g_nsources g) (g_sources g) ;;
      ret (Some tt)                                        (* break *)
    else ret None) ;;
  match r with
  | Some _ => ret tt
  | None => WARN "Group '%d' not found." [ArgInt group]
  end.

Definition sound_al_resumeGroup (group : Z) : M D unit :=
  ngroups <- gets al_ngroups ;;
  r <- for_loop (Z.to_nat ngroups) 0 (fun i =>
    g <- gets (fun w => grp_get (al_groups w) i) ;;
    if g_id g =? group then
      al_resumev (g_nsources g) (g_sources g) ;;
      ret (Some tt)                                        (* break *)
    else ret None) ;;
  match r with
  | Some _ => ret tt
  | None => WARN "Group '%d' not found." [ArgInt group]
  end.

(** The gain factor of a fade that started [f] milliseconds ago:
    [d = 1. - (ALfloat) f / (ALfloat) SOUND_FADEOUT], the quotient in
    single precision, the difference in double, stored in an [ALfloat]. *)
Definition fade_factor (f : Z) : ALfloat :=
  float_of_double
    (double_sub (double_of_Z 1)
       (double_of_float (float_div (float_of_Z f) (float_of_Z SOUND_FADEOUT)))).

(** The body of the loop of [sound_al_update] over the groups, for the
    group at index [i] when the clock reads [t]. *)
Definition update_group (t : Z) (i : Z) : M D unit :=
  g <- gets (fun w => grp_get (al_groups w) i) ;;
  match g_state g with
  | VOICE_FADEOUT =>
      let f := to_uint32 (t - g_fade_timer g) in
      if f <? SOUND_FADEOUT then
        let d := fade_factor f in
        for_each (Z.to_nat (g_nsources g)) 0 (fun j =>
          svol <- gets svolume ;;
          alSourcef (arr_get (g_sources g) j) AL_GAIN (float_mul d svol)) ;;
        al_checkErr
      else
        for_each (Z.to_nat (g_nsources g)) 0 (fun j =>
          alSourceStop (arr_get (g_sources g) j) ;;
          alSourcei (arr_get (g_sources g) j) AL_BUFFER AL_NONE ;;
          svol <- gets svolume ;;
          alSourcef (arr_get (g_sources g) j) AL_GAIN svol) ;;
        al_checkErr ;;
        modify_group i (set_g_state VOICE_PLAYING)
  | _ => ret tt
  end.

(** Updates the group sounds. *)
Definition sound_al_update : M D unit :=
  t <- SDL_GetTicks ;;
  ngroups <- gets al_ngroups ;;
  for_each (Z.to_nat ngroups) 0 (update_group t).
End Groups.

(** ** Asset streams *)

(** [SDL_RWops] is SDL's; the model is SDL 1.2's memory stream: a byte
    array and a cursor, reads clipped at the end of the data, seeks
    clamped to the array. *)
Record SDL_RWops := RWops { rw_data : list byte; rw_here : Z }.

Definition rw_available (rw : SDL_RWops) : Z :=
  Z.of_nat (length (rw_data rw)) - rw_here rw.

(** [SDL_RWread(rw, ptr, size, maxnum)]: the number of whole objects read,
    the bytes stored through [ptr], and the stream afterwards. *)
Definition SDL_RWread (rw : SDL_RWops) (size maxnum : Z) : Z * list byte * SDL_RWops :=
  if (maxnum <=? 0) || (size <=? 0) then (0, [], rw)
  else
    let total := Z.min (maxnum * size) (rw_available rw) in
    (total / size,
     take (Z.to_nat total) (drop (Z.to_nat (rw_here rw)) (rw_data rw)),
     RWops (rw_data rw) (rw_here rw + total)).

(** [SDL_RWseek(rw, offset, SEEK_CUR)]. *)
Definition SDL_RWseek (rw : SDL_RWops) (offset : Z) : SDL_RWops :=
  RWops (rw_data rw)
    (Z.max 0 (Z.min (rw_here rw + offset) (Z.of_nat (length (rw_data rw))))).

Definition byte_val (b : byte) : Z := Z.of_N (Byte.to_N b).

Definition byte_of_Z (z : Z) : byte :=
  default x00 (Byte.of_N (Z.to_N (z mod 256))).

(** [memcmp(a, b, n)]: the difference of the first pair of bytes that
    differ, 0 when there is none. *)
Fixpoint memcmp_at (a b : list byte) (n : nat) : Z :=
  match n with
  | O => 0
  | S n' =>
      let d := byte_val (hd x00 a) - byte_val (hd x00 b) in
      if d =? 0 then memcmp_at (tl a) (tl b) n' else d
  end.

Definition memcmp (a b : list byte) (n : Z) : Z := memcmp_at a b (Z.to_nat n).

(** The value [SDL_SwapLE32] and [SDL_SwapLE16] leave in the variable the
    bytes were read into: the little-endian reading of the bytes. *)
Fixpoint le_value (bs : list byte) : Z :=
  match bs with
  | [] => 0
  | b :: bs' => Z.lor (byte_val b) (Z.shiftl (le_value bs') 8)
  end.

(** The opposite direction, for building files. *)
Fixpoint le_bytes (n : nat) (z : Z) : list byte :=
  match n with
  | O => []
  | S n' => byte_of_Z z :: le_bytes n' (Z.shiftr z 8)
  end.

(** How a call can end: by returning, by trapping (integer division by
    zero), or by still running when the fuel of the model is used up. *)
Inductive outcome (A : Type) :=
| Returns (a : A)
| Traps
| OutOfFuel.

Arguments Returns {A}.
Arguments Traps {A}.
Arguments OutOfFuel {A}.

(** The payload loop of [sound_al_loadWav]:
    [while (i < chunklen) i += SDL_RWread( rw, &buf[i], 1, chunklen-i );] *)
Definition wav_drain_step (chunklen : Z) (st : Z * list byte * SDL_RWops)
    : Z * list byte * SDL_RWops :=
  let '(i, buf, rw) := st in
  let '(n, bytes, rw') := SDL_RWread rw 1 (to_int (to_uint32 (chunklen - i))) in
  (to_uint32 (i + n), list_inserts (Z.to_nat i) bytes buf, rw').

Definition wav_drain_cond (chunklen : Z) (st : Z * list byte * SDL_RWops) : bool :=
  let '(i, _, _) := st in i <? chunklen.

Fixpoint wav_drain (fuel : nat) (chunklen : Z) (st : Z * list byte * SDL_RWops)
    : option (Z * list byte * SDL_RWops) :=
  if wav_drain_cond chunklen st then
    match fuel with
    | O => None
    | S fuel' => wav_drain fuel' chunklen (wav_drain_step chunklen st)
    end
  else Some st.

Section Wav.
Context {D : Type} `{HAL : OpenAL D}.

(** Compares some bytes in a wav type structure. *)
Definition sound_al_wavReadCmp (rw : SDL_RWops) (cmp : string) (bytes : Z)
    : M D (Z * SDL_RWops) :=
  let '(len, buf, rw) := SDL_RWread rw bytes 1 in
  if negb (len =? 1) then
    WARN "Did not read expected bytes." [] ;;
    ret (-1, rw)
  else ret (memcmp buf (list_byte_of_string cmp) bytes, rw).

(** The variable of [n] bytes that held [out] after [SDL_RWread] has
    stored the bytes [buf] through the pointer to it: the bytes read
    replace its first bytes, which are its low ones. *)
Definition stored_over (n : nat) (buf : list byte) (out : Z) : Z :=
  le_value (take n buf ++ drop (length buf) (le_bytes n out)).

(** Gets a 32 bit length; [out] is what the variable held before.  A
    short read has already stored the bytes that were left. *)
Definition sound_al_wavGetLen32 (rw : SDL_RWops) (out : Z) : M D (Z * Z * SDL_RWops) :=
  let '(len, buf, rw) := SDL_RWread rw 4 1 in
  if negb (len =? 1) then
    WARN "Did not read expected bytes." [] ;;
    ret (-1, stored_over 4 buf out, rw)
  else ret (0, le_value buf, rw).

(** Gets a 16 bit length. *)
Definition sound_al_wavGetLen16 (rw : SDL_RWops) (out : Z) : M D (Z * Z * SDL_RWops) :=
  let '(len, buf, rw) := SDL_RWread rw 2 1 in
  if negb (len =? 1) then
    WARN "Did not read expected bytes." [] ;;
    ret (-1, stored_over 2 buf out, rw)
  else ret (0, le_value buf, rw).

(** The part of [sound_al_loadWav] from "Load the chunk data" on. *)
Definition loadWav_data (fuel : nat) (snd : alSound) (rw : SDL_RWops)
    (channels align rate chunklen : Z) : M D (outcome (Z * alSound)) :=
  let buf := replicate (Z.to_nat chunklen) x00 in
  match wav_drain fuel chunklen (0, buf, rw) with
  | None => ret OutOfFuel
  | Some (_, buf, rw) =>
      let unsupported_align :=
        WARN "Unsupported byte alignment (%d) in WAVE file." [ArgInt align] ;;
        ret (Returns (-1, snd)) in
      let upload (format : ALenum) :=
        b <- alGenBuffers ;;
        let snd := AlSound b in
        alBufferData (snd_buf snd) format buf (to_int chunklen) (to_int rate) ;;
        ret (Returns (0, snd)) in
      if channels =? 2 then
        if align =? 16 then upload AL_FORMAT_STEREO16
        else if align =? 8 then upload AL_FORMAT_STEREO8
        else unsupported_align
      else if channels =? 1 then
        if align =? 16 then upload AL_FORMAT_MONO16
        else if align =? 8 then upload AL_FORMAT_MONO8
        else unsupported_align
      else
        WARN "Unsupported number of channels (%d) in WAVE file." [ArgInt channels] ;;
        ret (Returns (-1, snd))
  end.

(** The part from "Read new header" to the length of the data chunk. *)
Definition loadWav_chunks (fuel : nat) (snd : alSound) (rw : SDL_RWops)
    (channels align rate chunklen : Z) : M D (outcome (Z * alSound)) :=
  let wav_err := ret (Returns (-1, snd)) in
  let '(len, magic, rw) := SDL_RWread rw 4 1 in
  if negb (len =? 1) then WARN "Unable to read chunk header." [] ;; wav_err else
  r <- (if memcmp magic (list_byte_of_string "fact") 4 =? 0 then
          r <- sound_al_wavGetLen32 rw chunklen ;;
          let '(e, chunklen, rw) := r in
          if negb (e =? 0) then
            WARN "Unable to get WAVE chunk data length." [] ;; ret None
          else
            let rw := SDL_RWseek rw (to_int chunklen) in
            let '(len, magic, rw) := SDL_RWread rw 4 1 in
            if negb (len =? 1) then WARN "Unable to read chunk header." [] ;; ret None
            else ret (Some (magic, chunklen, rw))
        else ret (Some (magic, chunklen, rw))) ;;
  match r with
  | None => wav_err
  | Some (magic, chunklen, rw) =>
      if negb (memcmp magic (list_byte_of_string "data") 4 =? 0) then
        WARN "Unable to find WAVE 'data' chunk header." [] ;; wav_err
      else
        r <- sound_al_wavGetLen32 rw chunklen ;;
        let '(e, chunklen, rw) := r in
        if negb (e =? 0) then WARN "Unable to get WAVE chunk data length." [] ;; wav_err
        else loadWav_data fuel snd rw channels align rate chunklen
  end.

(** Loads a wav file from the rw if possible. *)
Definition sound_al_loadWav (fuel : nat) (snd : alSound) (rw : SDL_RWops)
    : M D (outcome (Z * alSound)) :=
  let wav_err := ret (Returns (-1, snd)) in
  r <- sound_al_wavReadCmp rw "RIFF" 4 ;;
  let '(e, rw) := r in
  if negb (e =? 0) then WARN "RIFF header not found." [] ;; wav_err else
  r <- sound_al_wavGetLen32 rw 0 ;;
  let '(e, filelen, rw) := r in
  if negb (e =? 0) then WARN "Unable to get WAVE length." [] ;; wav_err else
  r <- sound_al_wavReadCmp rw "WAVE" 4 ;;
  let '(e, rw) := r in
  if negb (e =? 0) then WARN "WAVE header not found." [] ;; wav_err else
  r <- sound_al_wavReadCmp rw "fmt " 4 ;;
  let '(e, rw) := r in
  if negb (e =? 0) then WARN "Chunk header 'fmt ' header not found." [] ;; wav_err else
  r <- sound_al_wavGetLen32 rw 0 ;;
  let '(e, chunklen, rw) := r in
  if negb (e =? 0) then WARN "Unable to get WAVE chunk length." [] ;; wav_err else
  let i := 0 in
  r <- sound_al_wavGetLen16 rw 0 ;;
  let '(e, compressed, rw) := r in
  if negb (e =? 0) then WARN "Unable to get WAVE chunk compression type." [] ;; wav_err else
  if negb (compressed =? 0x0001) then
    WARN "Unsupported WAVE chunk compression '0x%04x'." [ArgInt compressed] ;; wav_err
  else
  let i := to_uint32 (i + 2) in
  r <- sound_al_wavGetLen16 rw 0 ;;
  let '(e, channels, rw) := r in
  if negb (e =? 0) then WARN "Unable to get WAVE chunk channels." [] ;; wav_err else
  let i := to_uint32 (i + 2) in
  r <- sound_al_wavGetLen32 rw 0 ;;
  let '(e, rate, rw) := r in
  if negb (e =? 0) then WARN "Unable to get WAVE chunk sample rate." [] ;; wav_err else
  let i := to_uint32 (i + 4) in
  r <- sound_al_wavGetLen32 rw 0 ;;
  let '(e, unused32, rw) := r in
  if negb (e =? 0) then WARN "Unable to get WAVE chunk average byte rate." [] ;; wav_err else
  let i := to_uint32 (i + 4) in
  r <- sound_al_wavGetLen16 rw 0 ;;
  let '(e, unused16, rw) := r in
  if negb (e =? 0) then WARN "Unable to get WAVE chunk block align." [] ;; wav_err else
  let i := to_uint32 (i + 2) in
  r <- sound_al_wavGetLen16 rw 0 ;;
  let '(e, align, rw) := r in
  if negb (e =? 0) then WARN "Unable to get WAVE chunk significant bits." [] ;; wav_err else
  if channels =? 0 then ret Traps else
  let align := to_uint16 (align / channels) in
  let i := to_uint32 (i + 2) in
  let rw := SDL_RWseek rw (to_int (to_uint32 (chunklen - i))) in
  loadWav_chunks fuel snd rw channels align rate chunklen.
End Wav.

(** ** Ogg Vorbis *)

(** libvorbisfile is outside the repository.  An opened file is modelled
    by what its calls answer: the result of [ov_test_open], the
    [vorbis_info] fields, [ov_pcm_total], and what successive [ov_read]
    calls produce: decoded bytes, or a negative error code. *)
Inductive ov_packet :=
| OvPcm (bytes : list byte)
| OvErr (code : Z).

Record OggVorbis_File := OggFile {
  ov_open_result : Z;
  ov_channels : Z;
  ov_rate : Z;
  ov_total : Z;
  ov_stream : list ov_packet
}.

(** [ov_read(vf, ptr, length, ...)]: at most [length] bytes of the next
    packet, an error code, or 0 at the end of the stream. *)
Definition ov_read (vf : OggVorbis_File) (length : Z) : Z * list byte * OggVorbis_File :=
  let rest s := OggFile (ov_open_result vf) (ov_channels vf) (ov_rate vf) (ov_total vf) s in
  match ov_stream vf with
  | [] => (0, [], vf)
  | OvErr code :: s => (code, [], rest s)
  | OvPcm bytes :: s =>
      let n := Z.to_nat length in
      (Z.of_nat (List.length (take n bytes)), take n bytes,
       rest (match drop n bytes with [] => s | more => OvPcm more :: s end))
  end.

(** The bytes [bytes] stored through [&buf[i]].  The index is not
    tested by the code: with a negative [i] the pointer stands before the
    buffer, the first [-i] bytes fall into the memory in front of it,
    which the model does not hold, and the others into the buffer. *)
Definition store_at (i : Z) (bytes buf : list byte) : list byte :=
  if i <? 0 then list_inserts 0 (drop (Z.to_nat (- i)) bytes) buf
  else list_inserts (Z.to_nat i) bytes buf.

(** The payload loop of [sound_al_loadOgg]:
    [while (i < len) i += ov_read( vf, &buf[i], len-i, ... );]
    What [ov_read] returns is added to the index untested, also when it
    is an error code. *)
Definition ogg_drain_step (len : Z) (st : Z * list byte * OggVorbis_File)
    : Z * list byte * OggVorbis_File :=
  let '(i, buf, vf) := st in
  let '(n, bytes, vf') := ov_read vf (to_int (to_uint32 (len - i))) in
  (i + n, store_at i bytes buf, vf').

Definition ogg_drain_cond (len : Z) (st : Z * list byte * OggVorbis_File) : bool :=
  let '(i, _, _) := st in i <? len.

Fixpoint ogg_drain (fuel : nat) (len : Z) (st : Z * list byte * OggVorbis_File)
    : outcome (Z * list byte * OggVorbis_File) :=
  if ogg_drain_cond len st then
    match fuel with
    | O => OutOfFuel
    | S fuel' => ogg_drain fuel' len (ogg_drain_step len st)
    end
  else Returns st.

Section Ogg.
Context {D : Type} `{HAL : OpenAL D}.

(** Loads an ogg file from a tested format if possible. *)
Definition sound_al_loadOgg (fuel : nat) (snd : alSound) (vf : OggVorbis_File)
    : M D (outcome (Z * alSound)) :=
  if negb (ov_open_result vf =? 0) then
    WARN "Failed to finish loading OGG file." [] ;;
    ret (Returns (-1, snd))
  else
    let format := if ov_channels vf =? 1 then AL_FORMAT_MONO16 else AL_FORMAT_STEREO16 in
    let len := ov_total vf * ov_channels vf * 2 in
    let buf := replicate (Z.to_nat len) x00 in
    match ogg_drain fuel len (0, buf, vf) with
    | OutOfFuel => ret OutOfFuel
    | Traps => ret Traps
    | Returns (_, buf, _) =>
        b <- alGenBuffers ;;
        let snd := AlSound b in
        alBufferData (snd_buf snd) format buf (to_int len) (to_int (ov_rate vf)) ;;
        ret (Returns (0, snd))
    end.
End Ogg.

(** ** A reference device

    A small OpenAL device for running the engine on concrete inputs: the
    sources with the attributes the engine sets, the buffers, and the
    error flag.  A call on an unknown source raises [AL_INVALID_NAME]. *)

Record ref_source := RefSource {
  rs_state : ALint;
  rs_buffer : ALint;
  rs_gain : ALfloat;
  rs_relative : ALint;
  rs_looping : ALint;
  rs_position : list ALfloat;
  rs_velocity : list ALfloat
}.

Record ref_buffer := RefBuffer {
  rb_format : ALenum;
  rb_data : list byte;
  rb_size : Z;
  rb_freq : Z
}.

Record ref_device := RefDevice {
  rd_sources : gmap Z ref_source;
  rd_buffers : gmap Z ref_buffer;
  rd_next_buffer : Z;
  rd_error : ALenum
}.

Definition rd_raise (err : ALenum) (d : ref_device) : ref_device :=
  RefDevice (rd_sources d) (rd_buffers d) (rd_next_buffer d)
    (if rd_error d =? AL_NO_ERROR then err else rd_error d).

Definition rd_on_source (d : ref_device) (s : ALuint) (f : ref_source -> ref_source)
    : ref_device :=
  match rd_sources d !! s with
  | Some src =>
      RefDevice (<[s := f src]> (rd_sources d)) (rd_buffers d) (rd_next_buffer d) (rd_error d)
  | None => rd_raise AL_INVALID_NAME d
  end.

Definition rs_set_state (x : ALint) (r : ref_source) : ref_source :=
  RefSource x (rs_buffer r) (rs_gain r) (rs_relative r) (rs_looping r)
    (rs_position r) (rs_velocity r).

Definition rs_seti (param : ALenum) (x : ALint) (r : ref_source) : ref_source :=
  if param =? AL_BUFFER then
    RefSource (rs_state r) x (rs_gain r) (rs_relative r) (rs_looping r)
      (rs_position r) (rs_velocity r)
  else if param =? AL_SOURCE_RELATIVE then
    RefSource (rs_state r) (rs_buffer r) (rs_gain r) x (rs_looping r)
      (rs_position r) (rs_velocity r)
  else if param =? AL_LOOPING then
    RefSource (rs_state r) (rs_buffer r) (rs_gain r) (rs_relative r) x
      (rs_position r) (rs_velocity r)
  else r.

Definition rs_setf (param : ALenum) (x : ALfloat) (r : ref_source) : ref_source :=
  if param =? AL_GAIN then
    RefSource (rs_state r) (rs_buffer r) x (rs_relative r) (rs_looping r)
      (rs_position r) (rs_velocity r)
  else r.

Definition rs_setfv (param : ALenum) (x : list ALfloat) (r : ref_source) : ref_source :=
  if param =? AL_POSITION then
    RefSource (rs_state r) (rs_buffer r) (rs_gain r) (rs_relative r) (rs_looping r)
      x (rs_velocity r)
  else if param =? AL_VELOCITY then
    RefSource (rs_state r) (rs_buffer r) (rs_gain r) (rs_relative r) (rs_looping r)
      (rs_position r) x
  else r.

#[export] Instance ref_OpenAL : OpenAL ref_device := {
  dev_GetSourcei d s param :=
    match rd_sources d !! s with
    | Some src =>
        if param =? AL_SOURCE_STATE then rs_state src
        else if param =? AL_BUFFER then rs_buffer src
        else if param =? AL_LOOPING then rs_looping src
        else if param =? AL_SOURCE_RELATIVE then rs_relative src
        else 0
    | None => 0
    end;
  dev_Sourcei d s param x := rd_on_source d s (rs_seti param x);
  dev_Sourcef d s param x := rd_on_source d s (rs_setf param x);
  dev_Sourcefv d s param x := rd_on_source d s (rs_setfv param x);
  dev_SourcePlay d s := rd_on_source d s (rs_set_state AL_PLAYING);
  dev_SourceStop d s :=
    rd_on_source d s (fun r => if rs_state r =? AL_INITIAL then r else rs_set_state AL_STOPPED r);
  dev_SourcePause d s :=
    rd_on_source d s (fun r => if rs_state r =? AL_PLAYING then rs_set_state AL_PAUSED r else r);
  dev_GenBuffers d :=
    (rd_next_buffer d,
     RefDevice (rd_sources d)
       (<[rd_next_buffer d := RefBuffer 0 [] 0 0]> (rd_buffers d))
       (rd_next_buffer d + 1) (rd_error d));
  dev_BufferData d b format data size freq :=
    match rd_buffers d !! b with
    | Some _ =>
        RefDevice (rd_sources d) (<[b := RefBuffer format data size freq]> (rd_buffers d))
          (rd_next_buffer d) (rd_error d)
    | None => rd_raise AL_INVALID_NAME d
    end;
  dev_GetError d :=
    (rd_error d, RefDevice (rd_sources d) (rd_buffers d) (rd_next_buffer d) AL_NO_ERROR)
}.

(** A source in a given playback state, at full gain. *)
Definition ref_source_in (state : ALint) : ref_source :=
  RefSource state 0 (float_of_Z 1) AL_FALSE AL_FALSE
    [float_of_Z 0; float_of_Z 0; float_of_Z 0]
    [float_of_Z 0; float_of_Z 0; float_of_Z 0].

(** A device whose sources [1..n] are in the listed states. *)
Fixpoint ref_sources_from (s : ALuint) (states : list ALint) : gmap Z ref_source :=
  match states with
  | [] => ∅
  | st :: rest => <[s := ref_source_in st]> (ref_sources_from (s + 1) rest)
  end.

Definition ref_device_of (states : list ALint) : ref_device :=
  RefDevice (ref_sources_from 1 states) ∅ 1 AL_NO_ERROR.

(** ** Concrete worlds *)

(** A world on the reference device: the pool arrays, the number of free
    sources, the groups, and the playback state of the sources [1..n];
    the volume is 1 and the clock is at [t]. *)
Definition ref_world (stack total : list ALuint) (nstack : Z)
    (groups : list alGroup_t) (states : list ALint) (t : Z) : world ref_device :=
  World stack total nstack (Z.of_nat (length total)) (float_of_Z 1)
    groups (Z.of_nat (length groups)) (Z.of_nat (length groups))
    (ref_device_of states) t [].

(** ** WAV containers

    The layout [sound_al_loadWav] walks: RIFF header, [fmt ] chunk with
    its six fields and possibly more bytes, an optional [fact] chunk, and
    the [data] chunk with the payload. *)
Record wav_file := WavFile {
  wav_compression : Z;
  wav_channels : Z;
  wav_rate : Z;
  wav_byte_rate : Z;
  wav_block_align : Z;
  wav_bits : Z;
  wav_fmt_extra : list byte;
  wav_fact : option (list byte);
  wav_payload : list byte
}.

Definition len_bytes (n : nat) (l : list byte) : list byte := le_bytes n (Z.of_nat (length l)).

Definition wav_fact_chunk (f : wav_file) : list byte :=
  match wav_fact f with
  | Some p => list_byte_of_string "fact" ++ len_bytes 4 p ++ p
  | None => []
  end.

(** The chunks after the WAVE tag, up to the length of the payload. *)
Definition wav_chunk_heads (f : wav_file) : list byte :=
  list_byte_of_string "fmt " ++ le_bytes 4 (16 + Z.of_nat (length (wav_fmt_extra f))) ++
  le_bytes 2 (wav_compression f) ++ le_bytes 2 (wav_channels f) ++
  le_bytes 4 (wav_rate f) ++ le_bytes 4 (wav_byte_rate f) ++
  le_bytes 2 (wav_block_align f) ++ le_bytes 2 (wav_bits f) ++ wav_fmt_extra f ++
  wav_fact_chunk f ++
  list_byte_of_string "data" ++ len_bytes 4 (wav_payload f).

(** The container up to its payload. *)
Definition wav_head (f : wav_file) : list byte :=
  list_byte_of_string "RIFF" ++
  le_bytes 4 (4 + Z.of_nat (length (wav_chunk_heads f)) + Z.of_nat (length (wav_payload f))) ++
  list_byte_of_string "WAVE" ++ wav_chunk_heads f.

Definition wav_bytes (f : wav_file) : list byte := wav_head f ++ wav_payload f.

(** The containers of the claim: uncompressed, mono or stereo, 8 or 16
    bits, with fields and lengths that fit their types. *)
Definition wav_wellformed (f : wav_file) : Prop :=
  wav_compression f = 1 /\
  (wav_channels f = 1 \/ wav_channels f = 2) /\
  (wav_bits f = 8 \/ wav_bits f = 16) /\
  0 <= wav_rate f < 2 ^ 31 /\
  0 <= wav_byte_rate f < 2 ^ 32 /\
  0 <= wav_block_align f < 2 ^ 16 /\
  16 + Z.of_nat (length (wav_fmt_extra f)) < 2 ^ 31 /\
  match wav_fact f with Some p => Z.of_nat (length p) < 2 ^ 31 | None => True end /\
  Z.of_nat (length (wav_payload f)) < 2 ^ 31.

(** The format that stands for a channel count and a sample width. *)
Definition format_of (channels bits : Z) : ALenum :=
  if channels =? 2 then if bits =? 16 then AL_FORMAT_STEREO16 else AL_FORMAT_STEREO8
  else if bits =? 16 then AL_FORMAT_MONO16 else AL_FORMAT_MONO8.

(** A stream at its start. *)
Definition rw_open (data : list byte) : SDL_RWops := RWops data 0.

(** Four sample bytes. *)
Definition four_bytes : list byte := [x01; x02; x03; x04].

(** Uncompressed PCM at 44100 Hz with the given channel count and sample
    width, carrying [four_bytes]. *)
Definition pcm_wav (channels bits : Z) : wav_file :=
  WavFile 1 channels 44100 (44100 * channels * bits / 8) (channels * bits / 8) bits
    [] None four_bytes.

(** A world with no sources and no groups. *)
Definition empty_world : world ref_device := ref_world [] [] 0 [] [] 0.

(** ** Vocabulary of the statements *)

Section Vocabulary.
Context {D : Type} `{HAL : OpenAL D}.

(** What [al_checkErr] appends to the log on device [d]. *)
Definition checkErr_log (d : D) : list al_event :=
  AlGetError ::
  (if fst (dev_GetError d) =? AL_NO_ERROR then []
   else [LogWarn "OpenAL error: %s" [ArgStr (al_errstr (fst (dev_GetError d)))]]).

(** The state queries a loop over the first [n] sources of [s] logs. *)
Definition state_queries (s : list ALuint) (start n : Z) : list al_event :=
  map (fun i => AlGetSourcei (arr_get s i) AL_SOURCE_STATE) (seqZ start n).

(** What the device reports as the playback state of a source. *)
Definition source_state (w : world D) (s : ALuint) : ALint :=
  dev_GetSourcei (device w) s AL_SOURCE_STATE.

(** The effect of a logged call on the device. *)
Definition apply_event (d : D) (e : al_event) : D :=
  match e with
  | AlGetSourcei _ _ => d
  | AlSourcei s param value => dev_Sourcei d s param value
  | AlSourcef s param value => dev_Sourcef d s param value
  | AlSourcefv s param values => dev_Sourcefv d s param values
  | AlSourcePlay s => dev_SourcePlay d s
  | AlSourceStop s => dev_SourceStop d s
  | AlSourcePause s => dev_SourcePause d s
  | AlGenBuffers _ => snd (dev_GenBuffers d)
  | AlBufferData b format data size freq => dev_BufferData d b format data size freq
  | AlGetError => snd (dev_GetError d)
  | LogWarn _ _ => d
  end.

Definition apply_events (d : D) (evs : list al_event) : D := fold_left apply_event evs d.

(** The calls of a fade step on the sources of a group. *)
Definition fade_gain_events (g : alGroup_t) (gain : ALfloat) : list al_event :=
  map (fun j => AlSourcef (arr_get (g_sources g) j) AL_GAIN gain)
    (seqZ 0 (g_nsources g)).

(** The calls that end a fade. *)
Definition fade_done_events (g : alGroup_t) (svol : ALfloat) : list al_event :=
  flat_map (fun j => [AlSourceStop (arr_get (g_sources g) j);
                      AlSourcei (arr_get (g_sources g) j) AL_BUFFER AL_NONE;
                      AlSourcef (arr_get (g_sources g) j) AL_GAIN svol])
    (seqZ 0 (g_nsources g)).
End Vocabulary.

Section WavVocabulary.
Context {D : Type} `{HAL : OpenAL D}.

(** The result of a load that creates a buffer of the given format. *)
Definition wav_uploaded (format : ALenum) (payload : list byte) (rate : Z) (w : world D)
    : outcome (Z * alSound) * world D :=
  let '(b, dv) := dev_GenBuffers (device w) in
  (Returns (0, AlSound b),
   set_trace (trace w ++
              [AlGenBuffers b;
               AlBufferData b format payload (Z.of_nat (length payload)) rate])
     (set_device (dev_BufferData dv b format payload (Z.of_nat (length payload)) rate) w)).

(** The result of a load that refuses the sample width [align]. *)
Definition wav_refused (align : Z) (snd : alSound) (w : world D)
    : outcome (Z * alSound) * world D :=
  (Returns (-1, snd),
   set_trace (trace w ++
              [LogWarn "Unsupported byte alignment (%d) in WAVE file." [ArgInt align]]) w).
End WavVocabulary.





(** Double-precision literals used in the examples. *)
Definition one_tenth : double := SFdiv 53 1024 (double_of_Z 1) (double_of_Z 10).

(** A voice that plays on source 2 while source 1 is free; the device
    reports source 2 in state [st]. *)
Definition voice_on_2 : alVoice :=
  AlVoice VOICE_PLAYING 2 7 [float_of_Z 3; float_of_Z 4; float_of_Z 0]
    [float_of_Z 0; float_of_Z 0; float_of_Z 0].

Definition world_voice_on_2 (st : ALint) : world ref_device :=
  ref_world [1; 2] [1; 2] 1 [] [AL_INITIAL; st] 0.

(** Two groups of two playing sources each; the clock reads 5000. *)
Definition two_groups_world : world ref_device :=
  ref_world [1; 2; 3; 4] [] 0
    [AlGroup 1 [1; 2] 2 VOICE_PLAYING 0; AlGroup 2 [3; 4] 2 VOICE_PLAYING 0]
    [AL_PLAYING; AL_PLAYING; AL_PLAYING; AL_PLAYING] 5000.

(** Two sources, of which source 1 is free and source 2 plays a voice. *)
Definition one_free_world : world ref_device :=
  ref_world [1; 2] [1; 2] 1 [] [AL_INITIAL; AL_PLAYING] 0.

(** The device after [sound_al_playGroup] has taken over the source [src]
    that was not stopped: stop, gain, buffer, relative, looping, play. *)
Definition playGroup_smashed {D : Type} `{HAL : OpenAL D}
    (d : D) (src : ALuint) (svol : ALfloat) (s : alSound) (once : Z) : D :=
  dev_SourcePlay
    (dev_Sourcei
       (dev_Sourcei
          (dev_Sourcei
             (dev_Sourcef (dev_SourceStop d src) src AL_GAIN svol)
             src AL_BUFFER (snd_buf s))
          src AL_SOURCE_RELATIVE AL_TRUE)
       src AL_LOOPING (if once =? 0 then AL_TRUE else AL_FALSE))
    src.

(** Two free sources, no group. *)
Definition two_free_world : world ref_device :=
  ref_world [1; 2] [1; 2] 2 [] [AL_INITIAL; AL_INITIAL] 0.

(** One group (id 1) of three sources that play, play and are paused. *)
Definition busy_group_world : world ref_device :=
  ref_world [1; 2; 3] [] 0 [AlGroup 1 [3; 2; 1] 3 VOICE_PLAYING 0]
    [AL_PAUSED; AL_PLAYING; AL_PLAYING] 0.



(** A mono 8-bit container that declares four payload bytes and ends
    after two of them. *)
Definition truncated_wav : list byte := wav_head (pcm_wav 1 8) ++ [x01; x02].

(** An Ogg file whose header promises two mono samples (four bytes) and
    whose decoder yields two bytes before the end of the stream. *)
Definition truncated_ogg : OggVorbis_File := OggFile 0 1 44100 2 [OvPcm [x01; x02]].

(** The cursor [p] of a stream over [d] stands before the bytes [r]. *)
Definition at_cursor (d : list byte) (p : Z) (r : list byte) : Prop :=
  0 <= p <= Z.of_nat (length d) /\ drop (Z.to_nat p) d = r.

(** ** Loading a sound file

    [ndata_rwops] (ndata.c) and [ov_test_callbacks] (libvorbisfile) are
    outside the file.  The data files are modelled by the stream that
    [ndata_rwops] opens for a name, which is taken to exist, and by the
    Vorbis file that [ov_test_callbacks] finds in a stream, if it finds
    one. *)
Record ndata := NData {
  ndata_rwops : string -> SDL_RWops;
  ov_test_callbacks : SDL_RWops -> option OggVorbis_File
}.

Section Load.
Context {D : Type} `{HAL : OpenAL D}.

(** Loads the sound. *)
Definition sound_al_load (nd : ndata) (fuel : nat) (snd : alSound) (filename : string)
    : M D (outcome (Z * alSound)) :=
  let rw := ndata_rwops nd filename in
  r <- (match ov_test_callbacks nd rw with
        | Some vf => sound_al_loadOgg fuel snd vf
        | None =>
            let rw := ndata_rwops nd filename in
            sound_al_loadWav fuel snd rw
        end) ;;
  match r with
  | Returns (e, snd) =>
      if negb (e =? 0) then
        WARN "Failed to load sound file '%s'." [ArgStr filename] ;;
        ret (Returns (e, snd))
      else
        al_checkErr ;;
        ret (Returns (0, snd))
  | Traps => ret Traps
  | OutOfFuel => ret OutOfFuel
  end.
End Load.

(** A Vorbis file that opens and decodes to the given packets. *)
Definition ogg_of (channels rate total : Z) (chunks : list (list byte)) : OggVorbis_File :=
  OggFile 0 channels rate total (map OvPcm chunks).


(** Data files with one stream for every name, in which no Vorbis file
    is found. *)
Definition wav_only (d : list byte) : ndata :=
  NData (fun _ => rw_open d) (fun _ => None).

(** ** Vocabulary of the further properties *)

(** The calls that start a voice on a source. *)
Definition play_events (src buf : ALuint) (relative : ALint) (svol : ALfloat)
    (pos vel : list ALfloat) : list al_event :=
  [AlSourcei src AL_BUFFER buf; AlSourcei src AL_SOURCE_RELATIVE relative;
   AlSourcef src AL_GAIN svol; AlSourcefv src AL_POSITION pos;
   AlSourcefv src AL_VELOCITY vel; AlSourcePlay src].

(** The calls that refresh a voice that still holds its source. *)
Definition refresh_events (src : ALuint) (svol : ALfloat) (pos vel : list ALfloat)
    : list al_event :=
  [AlGetSourcei src AL_SOURCE_STATE; AlSourcef src AL_GAIN svol;
   AlSourcefv src AL_POSITION pos; AlSourcefv src AL_VELOCITY vel].

(** The source on top of the free stack. *)
Definition top_source {D : Type} (w : world D) : ALuint :=
  arr_get (source_stack w) (source_nstack w - 1).

(** The third component of a position or velocity. *)
Definition vec_z (l : list ALfloat) : ALfloat := default (float_of_Z 0) (l !! 2%nat).

(** A voice that has never played, with its vectors at the origin. *)
Definition idle_voice : alVoice :=
  AlVoice VOICE_PLAYING 0 0
    [float_of_Z 0; float_of_Z 0; float_of_Z 0]
    [float_of_Z 0; float_of_Z 0; float_of_Z 0].

(** What the engine relies on from the OpenAL specification about the
    playback state of sources: pausing acts on a playing source only and
    on no other source; playing a paused source makes it play and acts on
    no other source; reading the error flag changes no playback state. *)
Definition state_laws (D : Type) `{OpenAL D} : Prop :=
  (forall d x y,
     dev_GetSourcei (dev_SourcePause d x) y AL_SOURCE_STATE =
       if (y =? x) && (dev_GetSourcei d x AL_SOURCE_STATE =? AL_PLAYING) then AL_PAUSED
       else dev_GetSourcei d y AL_SOURCE_STATE) /\
  (forall d x y,
     dev_GetSourcei d x AL_SOURCE_STATE = AL_PAUSED ->
     dev_GetSourcei (dev_SourcePlay d x) y AL_SOURCE_STATE =
       if y =? x then AL_PLAYING else dev_GetSourcei d y AL_SOURCE_STATE) /\
  (forall d y,
     dev_GetSourcei (snd (dev_GetError d)) y AL_SOURCE_STATE =
       dev_GetSourcei d y AL_SOURCE_STATE).

(** [y] is one of [s[start]], ..., [s[start + n - 1]]. *)
Definition in_array (s : list ALuint) (start n : Z) (y : ALuint) : bool :=
  existsb (Z.eqb y) (map (arr_get s) (seqZ start n)).

(** The world differs from [w] in the device and the log at most. *)
Definition same_engine {D : Type} (w w' : world D) : Prop :=
  w' = set_trace (trace w') (set_device (device w') w).

(** A list without the first occurrence of [x]. *)
Fixpoint remove_first (x : Z) (l : list Z) : list Z :=
  match l with
  | [] => []
  | y :: l' => if x =? y then l' else y :: remove_first x l'
  end.

(** The sources a new group of [size] sources takes from the free stack
    of [w], in the order of its slots: the top of the stack first. *)
Definition taken_sources {D : Type} (w : world D) (size : Z) : list ALuint :=
  map (fun m => arr_get (source_stack w) (source_nstack w - 1 - m)) (seqZ 0 size).

(** The general-purpose sources: the first [source_ntotal] entries of
    [source_total]. *)
Definition general_sources {D : Type} (w : world D) : list ALuint :=
  take (Z.to_nat (source_ntotal w)) (source_total w).

(** The state of [sound_al_createGroup], started in [w] for [size]
    sources, before it fills slot [i] of the new group: the slots below
    [i] hold the sources taken from the top of the stack, these are gone
    from the general-purpose sources, and the rest is as in [w]. *)
Definition createGroup_filling {D : Type} (w : world D) (size i : Z) (u : world D) : Prop :=
  let gr := grp_get (al_groups u) (al_ngroups w) in
  source_nstack u = source_nstack w - i /\
  source_stack u = source_stack w /\
  al_ngroups u = al_ngroups w + 1 /\
  al_groupidgen u = to_int (al_groupidgen w + 1) /\
  length (al_groups u) = Z.to_nat (al_ngroups w + 1) /\
  (forall k, 0 <= k < al_ngroups w -> grp_get (al_groups u) k = grp_get (al_groups w) k) /\
  g_id gr = to_int (al_groupidgen w + 1) /\ g_state gr = VOICE_PLAYING /\ g_nsources gr = size /\
  length (g_sources gr) = Z.to_nat size /\
  (forall m, 0 <= m < i ->
     arr_get (g_sources gr) m = arr_get (source_stack w) (source_nstack w - 1 - m)) /\
  general_sources u =
    fold_left (fun p x => remove_first x p) (taken_sources w i) (general_sources w) /\
  0 <= source_ntotal u <= Z.of_nat (length (source_total u)) /\
  trace u = trace w /\ device u = device w /\ svolume u = svolume w /\ ticks u = ticks w.

(** What every step of [sound_al_createGroup], started in [w], keeps:
    the new group sits at the end with the new id, the groups that
    existed are as they were, and neither the device nor the log nor the
    volume has changed. *)
Definition createGroup_frame {D : Type} (w u : world D) : Prop :=
  al_ngroups u = al_ngroups w + 1 /\
  al_groupidgen u = to_int (al_groupidgen w + 1) /\
  length (al_groups u) = Z.to_nat (al_ngroups w + 1) /\
  (forall k, 0 <= k < al_ngroups w -> grp_get (al_groups u) k = grp_get (al_groups w) k) /\
  g_id (grp_get (al_groups u) (al_ngroups w)) = to_int (al_groupidgen w + 1) /\
  trace u = trace w /\ device u = device w /\ svolume u = svolume w.

(** The calls that start a sound on a source of a group. *)
Definition group_play_events (src : ALuint) (s : alSound) (once : Z) : list al_event :=
  [AlSourcei src AL_BUFFER (snd_buf s); AlSourcei src AL_SOURCE_RELATIVE AL_TRUE;
   AlSourcei src AL_LOOPING (if once =? 0 then AL_TRUE else AL_FALSE); AlSourcePlay src].

(** The fields of the container fit the widths they are stored in, and
    the lengths fit a signed 32-bit offset. *)
Definition wav_fields_fit (f : wav_file) : Prop :=
  0 <= wav_compression f < 2 ^ 16 /\
  0 <= wav_channels f < 2 ^ 16 /\
  0 <= wav_bits f < 2 ^ 16 /\
  0 <= wav_rate f < 2 ^ 31 /\
  0 <= wav_byte_rate f < 2 ^ 32 /\
  0 <= wav_block_align f < 2 ^ 16 /\
  16 + Z.of_nat (length (wav_fmt_extra f)) < 2 ^ 31 /\
  match wav_fact f with Some p => Z.of_nat (length p) < 2 ^ 31 | None => True end /\
  Z.of_nat (length (wav_payload f)) < 2 ^ 31.

(** A log line, as opposed to a device call. *)
Definition is_warning (e : al_event) : Prop :=
  match e with LogWarn _ _ => True | _ => False end.

(** [w'] is [w] with more log lines and nothing else. *)
Definition only_logs {D : Type} (w w' : world D) : Prop :=
  exists evs, Forall is_warning evs /\ w' = set_trace (trace w ++ evs) w.

(** The same with at least one line. *)
Definition logs_failure {D : Type} (w w' : world D) : Prop :=
  exists evs, evs <> [] /\ Forall is_warning evs /\ w' = set_trace (trace w ++ evs) w.

(** What a load that starts in [w] may end with: success, or the
    failure code -1 with the sound untouched and nothing but new log
    lines in the world, at least one. *)
Definition fails_without_buffer {D : Type} (sound : alSound) (w : world D)
    (res : outcome (Z * alSound) * world D) : Prop :=
  match fst res with
  | Returns (r, sound') =>
      r = 0 \/ (r = -1 /\ sound' = sound /\ logs_failure w (snd res))
  | _ => True
  end.

Section FadeVocabulary.
Context {D : Type} `{HAL : OpenAL D}.

(** The world after [sound_al_update], with the clock at [t], has dealt
    with the group at index [i] of [w]: a group that does not fade leaves
    the world as it is; a fading group has its gains scaled inside the
    window, and is stopped and marked as playing after it; each time the
    error check follows. *)
Definition group_updated (t : Z) (w : world D) (i : Z) : world D :=
  let g := grp_get (al_groups w) i in
  let f := to_uint32 (t - g_fade_timer g) in
  match g_state g with
  | VOICE_FADEOUT =>
      if f <? SOUND_FADEOUT then
        let evs := fade_gain_events g (float_mul (fade_factor f) (svolume w)) in
        let d := apply_events (device w) evs in
        set_trace (trace w ++ evs ++ checkErr_log d) (set_device (snd (dev_GetError d)) w)
      else
        let evs := fade_done_events g (svolume w) in
        let d := apply_events (device w) evs in
        set_al_groups (arr_set (al_groups w) i (set_g_state VOICE_PLAYING g))
          (set_trace (trace w ++ evs ++ checkErr_log d)
             (set_device (snd (dev_GetError d)) w))
  | _ => w
  end.

(** The world after it has dealt with the groups before index [n]. *)
Definition groups_updated (t : Z) (w : world D) (n : Z) : world D :=
  fold_left (group_updated t) (seqZ 0 n) w.
End FadeVocabulary.

(** ** Proof tools *)

Arguments arr_get : simpl never.
Arguments arr_set : simpl never.
Arguments grp_get : simpl never.
Arguments memmove : simpl never.
Arguments realloc : simpl never.
Arguments to_uint32 : simpl never.
Arguments to_uint16 : simpl never.
Arguments to_int : simpl never.
Arguments float_of_double : simpl never.
Arguments double_of_float : simpl never.
Arguments float_of_Z : simpl never.
Arguments double_of_Z : simpl never.
Arguments float_mul : simpl never.
Arguments fade_factor : simpl never.

(** The setters compute on a world that shows its fields. *)
Ltac open_world w :=
  destruct w as [w_stack w_total w_nstack w_ntotal w_svolume w_groups w_ngroups
                   w_idgen w_device w_ticks w_trace].

Ltac unfold_world :=
  unfold set_source_stack, set_source_total, set_source_nstack, set_source_ntotal,
    set_svolume, set_al_groups, set_al_ngroups, set_al_groupidgen, set_device,
    set_ticks, set_trace; cbn.

Ltac unfold_monad := unfold WARN, SDL_GetTicks, emit, modify, gets, bind, ret; cbn.

Ltac unfold_al :=
  unfold alGetSourcei, alSourcei, alSourcef, alSourcefv, alSourcePlay, alSourceStop,
    alSourcePause, alBufferData, alGenBuffers, alGetError.

Ltac world_eq := unfold_world; rewrite <- ?app_assoc; reflexivity.

Section MonadFacts.
Context {D : Type} `{HAL : OpenAL D}.

Lemma al_checkErr_spec (w : world D) :
  al_checkErr w =
    (tt, set_trace (trace w ++ checkErr_log (device w))
           (set_device (snd (dev_GetError (device w))) w)).
Proof.
  open_world w. unfold al_checkErr, checkErr_log. unfold_al. unfold_monad.
  destruct (dev_GetError w_device) as [err d] eqn:E. cbn.
  destruct (err =? AL_NO_ERROR); cbn; world_eq.
Qed.

(** With no error pending, the check only logs its query. *)
Lemma al_checkErr_quiet (w : world D) :
  dev_GetError (device w) = (AL_NO_ERROR, device w) ->
  al_checkErr w = (tt, set_trace (trace w ++ [AlGetError]) w).
Proof.
  intros E. rewrite al_checkErr_spec. unfold checkErr_log. rewrite E. cbn.
  open_world w. reflexivity.
Qed.

Lemma checkErr_log_no_command (d : D) (e : al_event) :
  e ∈ checkErr_log d -> e = AlGetError \/ exists fmt args, e = LogWarn fmt args.
Proof.
  unfold checkErr_log. intros He. apply elem_of_cons in He as [-> | He]; [now left |].
  destruct (fst (dev_GetError d) =? AL_NO_ERROR).
  - apply elem_of_nil in He. contradiction.
  - apply list_elem_of_singleton in He. right. eauto.
Qed.

(** A loop whose body leaves at once runs it a single time. *)
Lemma for_loop_first {A} (n : nat) (i : Z) (body : Z -> M D (option A)) (w w' : world D) a :
  body i w = (Some a, w') -> for_loop (S n) i body w = (Some a, w').
Proof. intros E. cbn. unfold bind. rewrite E. reflexivity. Qed.

(** An iteration that goes on hands the loop its world. *)
Lemma for_loop_next {A} (n : nat) (i : Z) (body : Z -> M D (option A)) (w w' : world D) :
  body i w = (None, w') -> for_loop (S n) i body w = for_loop n (i + 1) body w'.
Proof. intros E. cbn. unfold bind. rewrite E. reflexivity. Qed.

(** Invariant rule: [P] holds before each iteration, [Q] when the body
    leaves the loop. *)
Lemma for_loop_inv {A} (P : Z -> world D -> Prop) (Q : A -> world D -> Prop)
    (body : Z -> M D (option A)) (n : nat) (i : Z) (w : world D) :
  P i w ->
  (forall j u, i <= j < i + Z.of_nat n -> P j u ->
     match body j u with
     | (None, u') => P (j + 1) u'
     | (Some a, u') => Q a u'
     end) ->
  match for_loop n i body w with
  | (None, w') => P (i + Z.of_nat n) w'
  | (Some a, w') => Q a w'
  end.
Proof.
  revert i w. induction n as [|n IH]; intros i w HP Hbody.
  - cbn. unfold ret. now replace (i + Z.of_nat 0) with i by lia.
  - cbn [for_loop]. unfold bind.
    pose proof (Hbody i w ltac:(lia) HP) as Hi.
    destruct (body i w) as [[a|] u]; [exact Hi |].
    specialize (IH (i + 1) u Hi).
    replace (i + Z.of_nat (S n)) with (i + 1 + Z.of_nat n) by lia.
    apply IH. intros j u' Hj. apply Hbody. lia.
Qed.

(** Iterations that neither leave nor change the world can be skipped. *)
Lemma for_loop_skip {A} (body : Z -> M D (option A)) (m n : nat) (i : Z) (w : world D) :
  (forall j, i <= j < i + Z.of_nat m -> body j w = (None, w)) ->
  for_loop (m + n) i body w = for_loop n (i + Z.of_nat m) body w.
Proof.
  revert i. induction m as [|m IH]; intros i Hskip.
  - cbn. now replace (i + Z.of_nat 0) with i by lia.
  - cbn [Nat.add]. rewrite (for_loop_next _ _ _ w w) by (apply Hskip; lia).
    rewrite IH by (intros; apply Hskip; lia).
    f_equal. lia.
Qed.

Lemma for_each_O (i : Z) (body : Z -> M D unit) (w : world D) :
  for_each 0 i body w = (tt, w).
Proof. reflexivity. Qed.

Lemma for_each_S (n : nat) (i : Z) (body : Z -> M D unit) (w : world D) :
  for_each (S n) i body w = for_each n (i + 1) body (snd (body i w)).
Proof.
  unfold for_each. cbn [for_loop]. unfold bind, ret.
  destruct (body i w) as [[] u]. reflexivity.
Qed.

(** A counted loop can be cut in two. *)
Lemma for_each_app (a b : nat) (i : Z) (body : Z -> M D unit) (w : world D) :
  for_each (a + b) i body w = for_each b (i + Z.of_nat a) body (snd (for_each a i body w)).
Proof.
  revert i w. induction a as [|a IH]; intros i w.
  - cbn [Nat.add]. rewrite for_each_O. cbn. f_equal. lia.
  - cbn [Nat.add]. rewrite !for_each_S, IH. f_equal. lia.
Qed.

(** A property that every iteration keeps holds after the loop. *)
Lemma for_each_inv (P : world D -> Prop) (body : Z -> M D unit) (n : nat) (i : Z) (w : world D) :
  P w ->
  (forall j u, i <= j < i + Z.of_nat n -> P u -> P (snd (body j u))) ->
  P (snd (for_each n i body w)).
Proof.
  revert i w. induction n as [|n IH]; intros i w HP Hbody.
  - exact HP.
  - rewrite for_each_S. apply IH.
    + apply Hbody; [lia | exact HP].
    + intros j u Hj. apply Hbody. lia.
Qed.
End MonadFacts.

Arguments for_loop : simpl never.
Arguments for_each : simpl never.
Arguments al_checkErr : simpl never.
Arguments createGroup_removeTotal : simpl never.
Arguments createGroup_addSource : simpl never.
Arguments playGroup_source : simpl never.
Arguments playGroup_group : simpl never.
Arguments update_group : simpl never.

(** ** Single and double precision

    A stored [ALfloat] is always a value of the binary32 format, and
    widening such a value to [double] and narrowing it again gives the
    same value back. *)

Lemma iter_pos_iter {A} (f : A -> A) (n : positive) (x : A) :
  SpecFloat.iter_pos f n x = Pos.iter f x n.
Proof.
  revert x. induction n as [n IH | n IH |]; intros x; cbn.
  - rewrite !IH. rewrite !Pos.iter_swap. reflexivity.
  - rewrite !IH. reflexivity.
  - reflexivity.
Qed.

Lemma digits2_shift (m : positive) (k : positive) :
  digits2_pos (Pos.iter xO m k) = (digits2_pos m + k)%positive.
Proof.
  induction k as [|k IH] using Pos.peano_ind.
  - cbn. lia.
  - rewrite Pos.iter_succ. cbn. rewrite IH. lia.
Qed.

Lemma shr_shift (m : positive) (k : positive) :
  SpecFloat.iter_pos shr_1 k (Build_shr_record (Zpos (Pos.iter xO m k)) false false)
  = Build_shr_record (Zpos m) false false.
Proof.
  rewrite iter_pos_iter. 
  induction k as [|k IH] using Pos.peano_ind.
  - reflexivity.
  - rewrite Pos.iter_succ_r. rewrite Pos.iter_succ. cbn [shr_1 orb]. exact IH.
Qed.

Lemma widen_narrow (x : ALfloat) :
  valid_binary 24 128 x = true -> float_of_double (double_of_float x) = x.
Proof.
  destruct x as [s | s | | s m e]; try reflexivity.
  cbn [valid_binary]. unfold bounded, canonical_mantissa, fexp, emin.
  intros H. apply andb_true_iff in H as [Hcan Hmax].
  apply Z.eqb_eq in Hcan. apply Z.leb_le in Hmax.
  set (dg := Zpos (digits2_pos m)) in *.
  assert (Hdg : 1 <= dg <= 24) by (unfold dg; lia).
  assert (He : -149 <= e <= 104) by lia.
  set (k := Z.to_pos (53 - dg)).
  assert (Hk : Zpos k = 53 - dg) by (unfold k; rewrite Z2Pos.id; lia).
  assert (Hw : double_of_float (S754_finite s m e)
               = S754_finite s (Pos.iter xO m k) (dg + e - 53)).
  { unfold double_of_float, binary_round, shl_align, fexp, emin. fold dg.
    replace (Z.max (dg + e - 53) (3 - 1024 - 53) - e) with (Zneg k) by lia.
    unfold binary_round_aux, shr_fexp, fexp, emin. cbn [Zdigits2 shr_record_of_loc].
    rewrite digits2_shift.
    replace (Z.max (Zpos (digits2_pos m + k) + Z.max (dg + e - 53) (3 - 1024 - 53) - 53)
               (3 - 1024 - 53) - Z.max (dg + e - 53) (3 - 1024 - 53)) with 0 by (fold dg; lia).
    cbn [shr shr_m loc_of_shr_record round_nearest_even Zdigits2 shr_record_of_loc].
    rewrite digits2_shift.
    replace (Z.max (Zpos (digits2_pos m + k) + Z.max (dg + e - 53) (3 - 1024 - 53) - 53)
               (3 - 1024 - 53) - Z.max (dg + e - 53) (3 - 1024 - 53)) with 0 by (fold dg; lia).
    cbn [shr shr_m].
    replace (Z.max (dg + e - 53) (3 - 1024 - 53)) with (dg + e - 53) by lia.
    destruct (Z.leb_spec (dg + e - 53) (1024 - 53)); [reflexivity | lia]. }
  rewrite Hw.
  unfold float_of_double, binary_round, shl_align, fexp, emin.
  rewrite digits2_shift.
  assert (Hf : Z.max (Zpos (digits2_pos m + k) + (dg + e - 53) - 24) (3 - 128 - 24) = e)
    by (fold dg in Hcan; lia).
  rewrite Hf.
  replace (e - (dg + e - 53)) with (Zpos k) by lia.
  unfold binary_round_aux, shr_fexp, fexp, emin. cbn [Zdigits2 shr_record_of_loc].
  rewrite digits2_shift, Hf.
  replace (e - (dg + e - 53)) with (Zpos k) by lia.
  cbn [shr]. rewrite shr_shift.
  cbn [shr_m loc_of_shr_record round_nearest_even Zdigits2 shr_record_of_loc].
  replace (Z.max (Zpos (digits2_pos m) + (dg + e - 53 + Zpos k) - 24) (3 - 128 - 24)
           - (dg + e - 53 + Zpos k)) with 0 by (fold dg; fold dg in Hcan; lia).
  cbn [shr shr_m].
  replace (dg + e - 53 + Zpos k) with e by lia.
  destruct (Z.leb_spec e (128 - 24)); [reflexivity | lia].
Qed.

Lemma digits2_size (m : positive) : digits2_pos m = Pos.size m.
Proof. induction m; cbn; congruence. Qed.

Lemma Zdigits2_log2 (x : Z) : 0 < x -> Zdigits2 x = Z.log2 x + 1.
Proof.
  destruct x as [|p|p]; try lia. intros _. cbn [Zdigits2]. rewrite digits2_size.
  destruct p; cbn; lia.
Qed.

Lemma shr_m_shr_1 (mrs : shr_record) : 0 <= shr_m mrs -> shr_m (shr_1 mrs) = Z.div2 (shr_m mrs).
Proof.
  destruct mrs as [m r s]. cbn [shr_m]. intros Hm.
  destruct m as [|p|p]; try lia; [reflexivity |]. destruct p; reflexivity.
Qed.

Lemma shr_m_iter (k : positive) (mrs : shr_record) :
  0 <= shr_m mrs -> shr_m (SpecFloat.iter_pos shr_1 k mrs) = Z.shiftr (shr_m mrs) (Zpos k).
Proof.
  rewrite iter_pos_iter. intros Hm.
  change (Z.shiftr (shr_m mrs) (Z.pos k)) with (Pos.iter Z.div2 (shr_m mrs) k).
  induction k as [|k IH] using Pos.peano_ind.
  - cbn. now apply shr_m_shr_1.
  - rewrite !Pos.iter_succ. rewrite shr_m_shr_1; [now rewrite IH |].
    rewrite IH. change (Pos.iter Z.div2 (shr_m mrs) k) with (Z.shiftr (shr_m mrs) (Zpos k)).
    apply Z.shiftr_nonneg. exact Hm.
Qed.

Lemma Zdigits2_nonneg (x : Z) : 0 <= Zdigits2 x.
Proof. destruct x; cbn; lia. Qed.

Lemma Zdigits2_shiftr (x : Z) (k : positive) :
  0 <= x -> Zdigits2 (Z.shiftr x (Zpos k)) = Z.max (Zdigits2 x - Zpos k) 0.
Proof.
  intros Hx. destruct (Z.eq_dec x 0) as [-> | Hne].
  - rewrite Z.shiftr_0_l. cbn. lia.
  - assert (Hpos : 0 < x) by lia.
    pose proof (Z.log2_shiftr x (Zpos k) Hpos) as Hl.
    rewrite (Zdigits2_log2 x Hpos).
    destruct (Z.eq_dec (Z.shiftr x (Zpos k)) 0) as [E | E].
    + rewrite E. cbn [Zdigits2].
      apply Z.shiftr_eq_0_iff in E as [E | [_ E]]; [lia |]. lia.
    + assert (0 <= Z.shiftr x (Zpos k)) by (apply Z.shiftr_nonneg; lia).
      rewrite Zdigits2_log2 by lia. rewrite Hl.
      assert (Zpos k <= Z.log2 x); [| lia].
      destruct (Z.le_gt_cases (Zpos k) (Z.log2 x)); [assumption |].
      exfalso. apply E. apply Z.shiftr_eq_0; lia.
Qed.

Lemma round_nearest_even_range (m : Z) (l : location) :
  m <= round_nearest_even m l <= m + 1.
Proof.
  unfold round_nearest_even. destruct l as [|[]]; try lia. destruct (Z.even m); lia.
Qed.

Lemma Zdigits2_succ (m1 m2 : Z) :
  0 <= m1 -> m1 <= m2 <= m1 + 1 -> Zdigits2 m1 <= Zdigits2 m2 <= Zdigits2 m1 + 1.
Proof.
  intros H1 H2. assert (m2 = m1 \/ m2 = m1 + 1) as [-> | ->] by lia.
  - lia.
  - destruct (Z.eq_dec m1 0) as [-> | Hne];
      [change (Zdigits2 0) with 0; change (Zdigits2 (0 + 1)) with 1; lia |].
    rewrite !Zdigits2_log2 by lia.
    pose proof (Z.log2_succ_le m1). pose proof (Z.log2_le_mono m1 (m1 + 1) ltac:(lia)).
    unfold Z.succ in *. lia.
Qed.

Lemma Zdigits2_zero_iff (x : Z) : 0 <= x -> (Zdigits2 x = 0 <-> x = 0).
Proof. destruct x; cbn; intros; split; intros; try lia; try discriminate. Qed.

Lemma shr_spec (mrs : shr_record) (e n : Z) :
  0 <= shr_m mrs ->
  let '(mrs', e') := shr mrs e n in
  0 <= shr_m mrs' /\ e' = e + Z.max n 0 /\
  Zdigits2 (shr_m mrs') = (if n <=? 0 then Zdigits2 (shr_m mrs)
                           else Z.max (Zdigits2 (shr_m mrs) - n) 0).
Proof.
  intros Hm. unfold shr. destruct n as [|k|k]; cbn [Z.leb Z.compare].
  - split; [| split]; [assumption | lia | reflexivity].
  - rewrite shr_m_iter by assumption. split; [| split].
    + apply Z.shiftr_nonneg. assumption.
    + lia.
    + now apply Zdigits2_shiftr.
  - split; [| split]; [assumption | lia | reflexivity].
Qed.

Lemma shr_m_of_loc (m : Z) (l : location) : shr_m (shr_record_of_loc m l) = m.
Proof. destruct l as [|[]]; reflexivity. Qed.

(** Rounding a mantissa that is at least as long as the format asks for
    gives a value of the format. *)
Lemma binary_round_aux_valid (s : bool) (mx ex : Z) (lx : location) :
  0 <= mx -> ex <= fexp 24 128 (Zdigits2 mx + ex) ->
  valid_binary 24 128 (binary_round_aux 24 128 s mx ex lx) = true.
Proof.
  intros Hmx Hex. unfold binary_round_aux, shr_fexp.
  pose proof (shr_spec (shr_record_of_loc mx lx) ex
                (fexp 24 128 (Zdigits2 mx + ex) - ex)) as H1.
  rewrite shr_m_of_loc in H1. specialize (H1 Hmx).
  destruct (shr (shr_record_of_loc mx lx) ex (fexp 24 128 (Zdigits2 mx + ex) - ex))
    as [mrs1 e1].
  destruct H1 as (Hm1 & He1 & Hd1).
  pose proof (round_nearest_even_range (shr_m mrs1) (loc_of_shr_record mrs1)) as Hr.
  set (m2 := round_nearest_even (shr_m mrs1) (loc_of_shr_record mrs1)) in *.
  pose proof (Zdigits2_succ (shr_m mrs1) m2 Hm1 Hr) as Hd2.
  pose proof (shr_spec (shr_record_of_loc m2 loc_Exact) e1
                (fexp 24 128 (Zdigits2 m2 + e1) - e1)) as H2.
  rewrite shr_m_of_loc in H2. specialize (H2 ltac:(lia)).
  destruct (shr (shr_record_of_loc m2 loc_Exact) e1 (fexp 24 128 (Zdigits2 m2 + e1) - e1))
    as [mrs2 e2].
  destruct H2 as (Hm2 & He2 & Hd3).
  pose proof (Zdigits2_nonneg mx) as Hdx.
  destruct (shr_m mrs2) as [|m3|m3] eqn:Em3; [reflexivity | | lia].
  destruct (Z.leb_spec e2 (128 - 24)); [| reflexivity].
  cbn [valid_binary]. unfold bounded, canonical_mantissa.
  apply andb_true_iff. split; [| now apply Z.leb_le].
  apply Z.eqb_eq. change (Zpos (digits2_pos m3)) with (Zdigits2 (Zpos m3)).
  unfold fexp, emin in *. change IntDef.Z.max with Z.max in *;
    change IntDef.Z.sub with Z.sub in *; change IntDef.Z.add with Z.add in *.
  destruct (Z.leb_spec (Z.max (Zdigits2 mx + ex - 24) (3 - 128 - 24) - ex) 0);
    destruct (Z.leb_spec (Z.max (Zdigits2 m2 + e1 - 24) (3 - 128 - 24) - e1) 0); lia.
Qed.

Lemma binary_round_valid (s : bool) (m : positive) (e : Z) :
  valid_binary 24 128 (binary_round 24 128 s m e) = true.
Proof.
  unfold binary_round, shl_align.
  destruct (fexp 24 128 (Zpos (digits2_pos m) + e) - e) as [|k|k] eqn:Ek.
  - apply binary_round_aux_valid; [lia |]. cbn [Zdigits2]. lia.
  - apply binary_round_aux_valid; [lia |]. cbn [Zdigits2]. lia.
  - apply binary_round_aux_valid; [lia |]. cbn [Zdigits2]. rewrite digits2_shift.
    unfold fexp, emin in *. change IntDef.Z.max with Z.max in *;
    change IntDef.Z.sub with Z.sub in *; change IntDef.Z.add with Z.add in *. lia.
Qed.

Lemma float_of_double_valid (x : double) :
  valid_binary 24 128 (float_of_double x) = true.
Proof. destruct x; try reflexivity. apply binary_round_valid. Qed.

Lemma narrow_widen_narrow (x : double) :
  float_of_double (double_of_float (float_of_double x)) = float_of_double x.
Proof. apply widen_narrow, float_of_double_valid. Qed.

(** ** Rounding a product

    What rounding to nearest does to a mantissa that is longer than the
    format: the error is at most half a unit of the last place kept. *)







(** ** Volume *)

Section VolumeProofs.
Context {D : Type} `{HAL : OpenAL D}.

(** C10.  [sound_al_volume] stores its argument rounded to single
    precision, whatever its range, and touches neither the device nor
    the log; [sound_al_getVolume] then returns the stored single widened
    to double, which narrows back to exactly the stored single.  The
    value 2 is stored as 2 and -1 as -1 (no clamping),
    and the double nearest to 0.1 does not come back as itself. *)
Theorem volume_stored_unclamped_as_float :
  (forall (vol : double) (w : world D),
      let w' := snd (sound_al_volume vol w) in
      sound_al_volume vol w = (0, set_svolume (float_of_double vol) w) /\
      svolume w' = float_of_double vol /\
      device w' = device w /\
      trace w' = trace w /\
      sound_al_getVolume w' = (double_of_float (float_of_double vol), w') /\
      float_of_double (fst (sound_al_getVolume w')) = svolume w') /\
  float_of_double (double_of_Z 2) = float_of_Z 2 /\
  float_of_double (double_of_Z (-1)) = float_of_Z (-1) /\
  float_ltb (float_of_Z 1) (float_of_double (double_of_Z 2)) = true /\
  double_of_float (float_of_double one_tenth) <> one_tenth.
Proof.
  split; [| repeat split; try (vm_compute; congruence) ].
  intros vol w. open_world w. cbn. repeat split.
  apply narrow_widen_narrow.
Qed.
End VolumeProofs.

(** ** Source pool and voices *)

Section VoiceProofs.
Context {D : Type} `{HAL : OpenAL D}.

Lemma getSource_empty (w : world D) :
  source_nstack w <= 0 -> sound_al_getSource w = (0, w).
Proof.
  intros Hn. open_world w. cbn in Hn. unfold sound_al_getSource. unfold_monad.
  destruct (Z.leb_spec w_nstack 0); [reflexivity | lia].
Qed.

(** C8.  With no free source, [sound_al_getSource] returns 0 and leaves
    the world as it is, and a play request returns -1 with the world
    unchanged: no device call and no log line; only the voice's source
    reference is set to 0. *)
Theorem play_dropped_when_pool_empty (w : world D) (v : alVoice) (s : alSound) :
  source_nstack w <= 0 ->
  sound_al_getSource w = (0, w) /\
  (forall px py vx vy relative,
      al_playVoice v s px py vx vy relative w = ((-1, set_v_source 0 v), w)) /\
  sound_al_play v s w = ((-1, set_v_source 0 v), w) /\
  (forall px py vx vy,
      sound_al_playPos v s px py vx vy w = ((-1, set_v_source 0 v), w)).
Proof.
  intros Hn.
  assert (Hplay : forall px py vx vy relative,
             al_playVoice v s px py vx vy relative w = ((-1, set_v_source 0 v), w)).
  { intros. unfold al_playVoice, bind. now rewrite getSource_empty. }
  repeat split; auto using getSource_empty.
  - apply Hplay.
  - intros. apply Hplay.
Qed.

(** C6.  A voice with a source the device reports stopped: the buffer is
    detached, the source is written on top of the free stack, the count
    grows by one, the voice loses its source and is marked stopped.  A
    voice whose source plays: the global volume and the cached position
    and velocity are sent to the device, and the pool stays as it is. *)
Theorem updateVoice_reclaims_or_refreshes (w : world D) (v : alVoice) :
  v_source v <> 0 ->
  0 <= source_nstack w < Z.of_nat (length (source_stack w)) ->
  (source_state w (v_source v) = AL_STOPPED ->
     let d1 := dev_Sourcei (device w) (v_source v) AL_BUFFER AL_NONE in
     let '(v', w') := sound_al_updateVoice v w in
     v' = set_v_state VOICE_STOPPED (set_v_source 0 v) /\
     source_nstack w' = source_nstack w + 1 /\
     source_stack w' = <[Z.to_nat (source_nstack w) := v_source v]> (source_stack w) /\
     arr_get (source_stack w') (source_nstack w) = v_source v /\
     trace w' = trace w ++ [AlGetSourcei (v_source v) AL_SOURCE_STATE;
                            AlSourcei (v_source v) AL_BUFFER AL_NONE] ++ checkErr_log d1 /\
     device w' = snd (dev_GetError d1) /\
     v_source v' = 0 /\ v_state v' = VOICE_STOPPED /\ v_buffer v' = v_buffer v) /\
  (source_state w (v_source v) = AL_PLAYING ->
     let d1 := dev_Sourcefv
                 (dev_Sourcefv
                    (dev_Sourcef (device w) (v_source v) AL_GAIN (svolume w))
                    (v_source v) AL_POSITION (v_pos v))
                 (v_source v) AL_VELOCITY (v_vel v) in
     let '(v', w') := sound_al_updateVoice v w in
     v' = v /\
     source_nstack w' = source_nstack w /\
     source_stack w' = source_stack w /\
     trace w' = trace w ++ [AlGetSourcei (v_source v) AL_SOURCE_STATE;
                            AlSourcef (v_source v) AL_GAIN (svolume w);
                            AlSourcefv (v_source v) AL_POSITION (v_pos v);
                            AlSourcefv (v_source v) AL_VELOCITY (v_vel v)]
                         ++ checkErr_log d1 /\
     device w' = snd (dev_GetError d1)).
Proof.
  intros Hsrc Hn. unfold source_state. open_world w. cbn in Hn |- *.
  split; intros Hst; unfold sound_al_updateVoice;
    destruct (Z.eqb_spec (v_source v) 0) as [|_]; try contradiction;
    unfold_al; unfold_monad; rewrite Hst; cbn; rewrite al_checkErr_spec; cbn.
  - unfold arr_set, arr_get.
    destruct (Z.ltb_spec w_nstack 0); [lia |].
    assert (Hlt : (Z.to_nat w_nstack < length w_stack)%nat) by lia.
    rewrite list_lookup_insert_eq by exact Hlt. cbn.
    rewrite <- !app_assoc. repeat split.
  - rewrite <- !app_assoc. repeat split.
Qed.

(** A pause loop over sources none of which plays only logs its queries. *)
Lemma pausev_loop_quiet (s : list ALuint) (k : nat) (i : Z) (w : world D) :
  (forall j, i <= j < i + Z.of_nat k ->
     source_state w (arr_get s j) = AL_PAUSED \/ source_state w (arr_get s j) = AL_STOPPED) ->
  for_each k i (fun i =>
    state <- alGetSourcei (arr_get s i) AL_SOURCE_STATE ;;
    if state =? AL_PLAYING then alSourcePause (arr_get s i) else ret tt) w
  = (tt, set_trace (trace w ++ state_queries s i (Z.of_nat k)) w).
Proof.
  revert i w. induction k as [|k IH]; intros i w Hst.
  - rewrite for_each_O. unfold state_queries. cbn. rewrite app_nil_r.
    open_world w. reflexivity.
  - rewrite for_each_S.
    assert (Hq : (dev_GetSourcei (device w) (arr_get s i) AL_SOURCE_STATE =? AL_PLAYING) = false).
    { fold (source_state w (arr_get s i)).
      destruct (Hst i ltac:(lia)) as [-> | ->]; reflexivity. }
    open_world w. cbn in Hq. unfold_al. unfold_monad. rewrite Hq. cbn.
    rewrite IH.
    + unfold state_queries.
      replace (Z.of_nat (S k)) with (Z.succ (Z.of_nat k)) by lia.
      rewrite (seqZ_cons i) by lia. cbn.
      replace (Z.pred (Z.succ (Z.of_nat k))) with (Z.of_nat k) by lia.
      replace (Z.succ i) with (i + 1) by lia.
      f_equal. world_eq.
    + intros j Hj. unfold source_state. cbn. apply (Hst j). lia.
Qed.

(** C9 (amended).  Stopping a voice that holds no source sends no stop;
    it runs the error check and nothing else.  The engine is left as it
    was exactly when no error is pending: a pending error is logged and
    cleared from the device.  After the call a second one changes nothing
    on a device whose error flag is clear once it has been read.  Pausing
    sources that are all paused or stopped sends no pause and runs no
    error check: the world is unchanged but for the logged state queries,
    also when the call is repeated. *)
Theorem stop_and_pause_send_no_command (w : world D) (v : alVoice) (n : Z)
    (s : list ALuint) :
  v_source v = 0 ->
  (forall i, 0 <= i < n ->
     source_state w (arr_get s i) = AL_PAUSED \/ source_state w (arr_get s i) = AL_STOPPED) ->
  let err := fst (dev_GetError (device w)) in
  let cleared := snd (dev_GetError (device w)) in
  let stopped := snd (sound_al_stop v w) in
  stopped = set_trace (trace w ++ checkErr_log (device w)) (set_device cleared w) /\
  (forall x, AlSourceStop x ∉ checkErr_log (device w)) /\
  (err = AL_NO_ERROR -> checkErr_log (device w) = [AlGetError]) /\
  (err <> AL_NO_ERROR ->
     checkErr_log (device w) =
       [AlGetError; LogWarn "OpenAL error: %s" [ArgStr (al_errstr err)]]) /\
  (dev_GetError (device w) = (AL_NO_ERROR, device w) ->
     sound_al_stop v w = (tt, set_trace (trace w ++ [AlGetError]) w)) /\
  (dev_GetError cleared = (AL_NO_ERROR, cleared) ->
     sound_al_stop v stopped = (tt, set_trace (trace stopped ++ [AlGetError]) stopped)) /\
  al_pausev n s w = (tt, set_trace (trace w ++ state_queries s 0 n) w) /\
  al_pausev n s (snd (al_pausev n s w)) =
    (tt, set_trace (trace w ++ state_queries s 0 n ++ state_queries s 0 n) w) /\
  (forall x, AlSourcePause x ∉ state_queries s 0 n).
Proof.
  intros Hsrc Hst. cbv zeta.
  assert (Hstop : forall u, sound_al_stop v u = al_checkErr u).
  { intros u. unfold sound_al_stop. rewrite Hsrc. reflexivity. }
  assert (Hpause : forall u, (forall i, 0 <= i < n ->
              source_state u (arr_get s i) = AL_PAUSED \/
              source_state u (arr_get s i) = AL_STOPPED) ->
            al_pausev n s u = (tt, set_trace (trace u ++ state_queries s 0 n) u)).
  { intros u Hu. unfold al_pausev. rewrite pausev_loop_quiet.
    - unfold state_queries. destruct (Z.le_gt_cases 0 n).
      + now rewrite Z2Nat.id.
      + unfold seqZ. rewrite Nat2Z.id. now replace (Z.to_nat n) with 0%nat by lia.
    - intros i Hi. apply Hu. lia. }
  split; [rewrite Hstop, al_checkErr_spec; reflexivity |].
  split.
  { intros x Hx. apply checkErr_log_no_command in Hx as [Hx | (? & ? & Hx)]; discriminate. }
  split.
  { intros E. unfold checkErr_log. rewrite E. reflexivity. }
  split.
  { intros E. unfold checkErr_log.
    destruct (Z.eqb_spec (fst (dev_GetError (device w))) AL_NO_ERROR); [contradiction |].
    reflexivity. }
  split.
  { intros E. rewrite Hstop. now apply al_checkErr_quiet. }
  split.
  { intros E. rewrite Hstop. apply al_checkErr_quiet.
    rewrite (Hstop w), al_checkErr_spec. cbn [snd]. open_world w. exact E. }
  split; [now apply Hpause |]. split.
  - rewrite (Hpause w Hst). cbn [snd]. rewrite Hpause.
    + open_world w. cbn. now rewrite <- app_assoc.
    + intros i Hi. unfold source_state in *. open_world w. cbn in *. now apply Hst.
  - intros x Hx. unfold state_queries in Hx.
    apply list_elem_of_fmap in Hx as (? & Hx & _). discriminate.
Qed.
End VoiceProofs.

Lemma play_dropped_when_pool_empty_witness :
  let w := ref_world [1] [1] 0 [] [AL_PLAYING] 0 in
  let v := AlVoice VOICE_PLAYING 0 0
             [float_of_Z 0; float_of_Z 0; float_of_Z 0]
             [float_of_Z 0; float_of_Z 0; float_of_Z 0] in
  source_nstack w <= 0 /\
  sound_al_getSource w = (0, w) /\
  sound_al_play v (AlSound 7) w = ((-1, set_v_source 0 v), w).
Proof.
  intros w v.
  assert (H : source_nstack w <= 0) by (vm_compute; discriminate).
  split; [exact H |].
  destruct (play_dropped_when_pool_empty w v (AlSound 7) H) as (Hget & _ & Hplay & _).
  split; [exact Hget | exact Hplay].
Defined.

Lemma updateVoice_reclaims_or_refreshes_witness :
  (let w := world_voice_on_2 AL_STOPPED in
   v_source voice_on_2 <> 0 /\
   0 <= source_nstack w < Z.of_nat (length (source_stack w)) /\
   source_state w (v_source voice_on_2) = AL_STOPPED /\
   source_nstack (snd (sound_al_updateVoice voice_on_2 w)) = 2 /\
   v_state (fst (sound_al_updateVoice voice_on_2 w)) = VOICE_STOPPED) /\
  (let w := world_voice_on_2 AL_PLAYING in
   source_state w (v_source voice_on_2) = AL_PLAYING /\
   source_nstack (snd (sound_al_updateVoice voice_on_2 w)) = 1 /\
   fst (sound_al_updateVoice voice_on_2 w) = voice_on_2).
Proof.
  assert (Hsrc : v_source voice_on_2 <> 0) by (vm_compute; discriminate).
  split.
  - intros w.
    assert (Hn : 0 <= source_nstack w < Z.of_nat (length (source_stack w)))
      by (vm_compute; split; discriminate || reflexivity).
    assert (Hst : source_state w (v_source voice_on_2) = AL_STOPPED) by reflexivity.
    repeat (split; [assumption |]).
    pose proof (proj1 (updateVoice_reclaims_or_refreshes w voice_on_2 Hsrc Hn) Hst) as H.
    cbv zeta in H. destruct (sound_al_updateVoice voice_on_2 w) as [v' w'].
    cbn [fst snd]. destruct H as (-> & -> & _). split; reflexivity.
  - intros w.
    assert (Hn : 0 <= source_nstack w < Z.of_nat (length (source_stack w)))
      by (vm_compute; split; discriminate || reflexivity).
    assert (Hst : source_state w (v_source voice_on_2) = AL_PLAYING) by reflexivity.
    split; [assumption |].
    pose proof (proj2 (updateVoice_reclaims_or_refreshes w voice_on_2 Hsrc Hn) Hst) as H.
    cbv zeta in H. destruct (sound_al_updateVoice voice_on_2 w) as [v' w'].
    cbn [fst snd]. destruct H as (-> & -> & _). split; reflexivity.
Defined.

(** C9 (counterexample).  With an error pending on the device, stopping
    a voice that holds no source does not leave all state unchanged and
    is not free of errors: the error flag of the device is cleared and a
    warning is logged. *)
Lemma stop_logs_pending_error :
  let w := set_device (rd_raise AL_INVALID_NAME (ref_device_of [AL_STOPPED]))
             (ref_world [1] [1] 1 [] [AL_STOPPED] 0) in
  let w' := snd (sound_al_stop idle_voice w) in
  v_source idle_voice = 0 /\
  rd_error (device w) = AL_INVALID_NAME /\ rd_error (device w') = AL_NO_ERROR /\
  device w' <> device w /\
  trace w' =
    [AlGetError;
     LogWarn "OpenAL error: %s"
       [ArgStr "a bad name (ID) was passed to an OpenAL function"]].
Proof.
  cbv zeta. repeat split. vm_compute. intros E. inversion E.
Qed.

(** Two sources, one paused and one stopped, and a voice without source;
    then the same with an error pending. *)
Lemma stop_and_pause_send_no_command_witness :
  let w := ref_world [1; 2] [1; 2] 0 [] [AL_PAUSED; AL_STOPPED] 0 in
  let w2 := set_device (rd_raise AL_INVALID_VALUE (device w)) w in
  v_source idle_voice = 0 /\
  (forall i, 0 <= i < 2 ->
     source_state w (arr_get [1; 2] i) = AL_PAUSED \/
     source_state w (arr_get [1; 2] i) = AL_STOPPED) /\
  sound_al_stop idle_voice w = (tt, set_trace [AlGetError] w) /\
  al_pausev 2 [1; 2] w =
    (tt, set_trace [AlGetSourcei 1 AL_SOURCE_STATE; AlGetSourcei 2 AL_SOURCE_STATE] w) /\
  snd (sound_al_stop idle_voice w2) =
    set_trace [AlGetError;
               LogWarn "OpenAL error: %s"
                 [ArgStr "an invalid value was passed to an OpenAL function"]] w.
Proof.
  intros w w2.
  assert (Hsrc : v_source idle_voice = 0) by reflexivity.
  assert (Hst : forall i, 0 <= i < 2 ->
             source_state w (arr_get [1; 2] i) = AL_PAUSED \/
             source_state w (arr_get [1; 2] i) = AL_STOPPED).
  { intros i Hi. assert (i = 0 \/ i = 1) as [-> | ->] by lia; [left | right]; reflexivity. }
  split; [exact Hsrc |]. split; [exact Hst |].
  destruct (stop_and_pause_send_no_command w idle_voice 2 [1; 2] Hsrc Hst)
    as (_ & _ & _ & _ & Hstop & _ & Hpause & _).
  split; [apply Hstop; reflexivity |]. split; [exact Hpause |].
  assert (Hst2 : forall i, 0 <= i < 2 ->
             source_state w2 (arr_get [1; 2] i) = AL_PAUSED \/
             source_state w2 (arr_get [1; 2] i) = AL_STOPPED).
  { intros i Hi. assert (i = 0 \/ i = 1) as [-> | ->] by lia; [left | right]; reflexivity. }
  rewrite (proj1 (stop_and_pause_send_no_command w2 idle_voice 2 [1; 2] Hsrc Hst2)).
  reflexivity.
Defined.

(** ** Groups: stopping *)

Section StopGroupProofs.
Context {D : Type} `{HAL : OpenAL D}.

(** Stopping the group at index 0 starts its fade. *)
Lemma stopGroup_first_group (group : Z) (w : world D) :
  0 < al_ngroups w ->
  g_id (grp_get (al_groups w) 0) = group ->
  sound_al_stopGroup group w =
    (tt, set_al_groups
           (arr_set (al_groups w) 0
              (set_g_fade_timer (to_int (to_uint32 (ticks w)))
                 (set_g_state VOICE_FADEOUT (grp_get (al_groups w) 0)))) w).
Proof.
  intros Hn Hid. open_world w. cbn in Hn, Hid |- *.
  unfold sound_al_stopGroup. unfold bind at 1. unfold gets at 1. cbn.
  destruct (Z.to_nat w_ngroups) as [|n] eqn:En; [lia |].
  unfold bind at 1. erewrite for_loop_first.
  2:{ unfold modify_group. unfold_monad. rewrite Hid, Z.eqb_refl. cbn. reflexivity. }
  unfold ret. f_equal. f_equal.
  unfold arr_set, grp_get. cbn. rewrite list_insert_insert_eq.
  destruct w_groups; reflexivity.
Qed.

(** A group that is not at index 0 is never reached: the loop leaves after
    its first iteration, and nothing is changed or logged. *)
Lemma stopGroup_later_group_ignored (group : Z) (w : world D) :
  0 < al_ngroups w ->
  g_id (grp_get (al_groups w) 0) <> group ->
  sound_al_stopGroup group w = (tt, w).
Proof.
  intros Hn Hid. open_world w. cbn in Hn, Hid |- *.
  unfold sound_al_stopGroup. unfold bind at 1. unfold gets at 1. cbn.
  destruct (Z.to_nat w_ngroups) as [|n] eqn:En; [lia |].
  unfold bind at 1. erewrite for_loop_first.
  2:{ unfold_monad. destruct (Z.eqb_spec (g_id (grp_get w_groups 0)) group);
      [contradiction | reflexivity]. }
  reflexivity.
Qed.
End StopGroupProofs.

(** C4 (defect of the code).  Groups 1 and 2 exist and both play; a call
    of [sound_al_stopGroup] for group 2, which sits at index 1, leaves the
    world as it was: group 2 is still [VOICE_PLAYING], its fade timer is
    not set, and nothing is logged.  The same call for group 1 starts the
    fade of group 1. *)
Theorem stopGroup_second_group_not_stopped :
  g_id (grp_get (al_groups two_groups_world) 1) = 2 /\
  sound_al_stopGroup 2 two_groups_world = (tt, two_groups_world) /\
  g_state (grp_get (al_groups (snd (sound_al_stopGroup 2 two_groups_world))) 1)
    = VOICE_PLAYING /\
  grp_get (al_groups (snd (sound_al_stopGroup 1 two_groups_world))) 0
    = AlGroup 1 [1; 2] 2 VOICE_FADEOUT 5000.
Proof. repeat split. Qed.

(** ** Groups: creation *)

Section CreateGroupProofs.
Context {D : Type} `{HAL : OpenAL D}.

(** Taking a source out of the total pool leaves the free stack, its
    count and the groups alone. *)
Lemma removeTotal_keeps (x : ALuint) (w : world D) :
  let w' := snd (createGroup_removeTotal x w) in
  source_nstack w' = source_nstack w /\
  source_stack w' = source_stack w /\
  al_groups w' = al_groups w /\
  al_ngroups w' = al_ngroups w /\
  al_groupidgen w' = al_groupidgen w.
Proof.
  cbv zeta. unfold createGroup_removeTotal, bind, gets.
  match goal with
  | |- context [for_loop ?n0 ?i0 ?b0 ?u0] =>
      pose proof (for_loop_inv
        (fun _ u => source_nstack u = source_nstack w /\ source_stack u = source_stack w /\
                    al_groups u = al_groups w /\ al_ngroups u = al_ngroups w /\
                    al_groupidgen u = al_groupidgen w)
        (fun _ u => source_nstack u = source_nstack w /\ source_stack u = source_stack w /\
                    al_groups u = al_groups w /\ al_ngroups u = al_ngroups w /\
                    al_groupidgen u = al_groupidgen w)
        b0 n0 i0 u0) as Hinv;
      destruct (for_loop n0 i0 b0 u0) as [[r|] u']
  end.
  - cbn. apply Hinv; [repeat split |].
    intros j u _ Hu. open_world u. cbn in Hu. unfold_monad.
    destruct (x =? arr_get w_total j); cbn; exact Hu.
  - cbn. apply Hinv; [repeat split |].
    intros j u _ Hu. open_world u. cbn in Hu. unfold_monad.
    destruct (x =? arr_get w_total j); cbn; exact Hu.
Qed.

(** When the pool holds fewer sources than asked for, the creation fails
    with 0 after it has taken every free source: the free count ends at 0
    and the group count is back where it was. *)
(** One slot of a new group: with a free source the count goes down by
    one, without one the loop is left. *)
Lemma addSource_spec (g i : Z) (w : world D) :
  match createGroup_addSource g i w with
  | (None, w') =>
      0 < source_nstack w /\ source_nstack w' = source_nstack w - 1 /\
      al_ngroups w' = al_ngroups w /\ al_groupidgen w' = al_groupidgen w
  | (Some _, w') => source_nstack w <= 0 /\ w' = w
  end.
Proof.
  open_world w. unfold createGroup_addSource. unfold bind at 1. unfold gets at 1. cbn.
  destruct (Z.leb_spec w_nstack 0) as [Hle | Hgt]; [now cbn |].
  unfold modify_group. unfold_monad.
  match goal with
  | |- context [createGroup_removeTotal ?x ?v] =>
      pose proof (removeTotal_keeps x v) as Hk;
      destruct (createGroup_removeTotal x v) as [[] v']
  end.
  cbn in Hk. destruct Hk as (-> & _ & _ & -> & ->). repeat split. lia.
Qed.

(** When the pool holds fewer sources than asked for, the creation fails
    with 0 after it has taken every free source: the free count ends at 0
    and the group count is back where it was. *)
Lemma createGroup_short_pool (size : Z) (w : world D) :
  0 <= source_nstack w < size ->
  let '(r, w') := sound_al_createGroup size w in
  r = 0 /\ source_nstack w' = 0 /\ al_ngroups w' = al_ngroups w.
Proof.
  intros Hn. open_world w. cbn in Hn |- *.
  unfold sound_al_createGroup, modify_group. unfold_monad.
  match goal with
  | |- context [for_loop ?n0 ?i0 ?b0 ?u0] =>
      pose proof (for_loop_inv
        (fun i u => source_nstack u = w_nstack - i /\ i <= w_nstack /\
                    al_ngroups u = w_ngroups + 1)
        (fun _ u => source_nstack u = 0 /\ al_ngroups u = w_ngroups + 1)
        b0 n0 i0 u0) as Hinv;
      destruct (for_loop n0 i0 b0 u0) as [[r|] u']
  end.
  - destruct Hinv as [H0 H1]; [cbn; lia | | destruct u'; cbn in *; lia].
    intros j u Hj (Hu1 & Hu2 & Hu3).
    match goal with |- context [createGroup_addSource ?a ?b ?c] =>
      pose proof (addSource_spec a b c) as Hs;
      destruct (createGroup_addSource a b c) as [[[]|] v] end.
    + destruct Hs as [Hs ->]. lia.
    + lia.
  - exfalso.
    destruct Hinv as (_ & H1 & _); [cbn; lia | | lia].
    intros j u Hj (Hu1 & Hu2 & Hu3).
    match goal with |- context [createGroup_addSource ?a ?b ?c] =>
      pose proof (addSource_spec a b c) as Hs;
      destruct (createGroup_addSource a b c) as [[[]|] v] end.
    + destruct Hs as [Hs ->]. lia.
    + lia.
Qed.
End CreateGroupProofs.

(** C1 (defect of the code).  One source is free and two are asked for:
    [sound_al_createGroup] returns 0, yet the free count has gone from 1 to
    0 and the general-purpose list from two sources to one; source 1 is in
    no group and is no longer in a pool. *)
Theorem createGroup_failure_keeps_sources :
  let w := one_free_world in
  let '(r, w') := sound_al_createGroup 2 w in
  r = 0 /\
  (source_nstack w, source_nstack w') = (1, 0) /\
  (source_ntotal w, source_ntotal w') = (2, 1) /\
  take (Z.to_nat (source_ntotal w)) (source_total w) = [1; 2] /\
  take (Z.to_nat (source_ntotal w')) (source_total w') = [2] /\
  (al_ngroups w, al_ngroups w') = (0, 0) /\
  g_sources (grp_get (al_groups w') 0) = [].
Proof. vm_compute. repeat split. Qed.

(** ** Groups: playing *)

Section PlayGroupProofs.
Context {D : Type} `{HAL : OpenAL D}.

(** A source that is not the last one and is busy is passed over. *)
Lemma playGroup_source_busy (g : alGroup_t) (s : alSound) (once j : Z) (w : world D) :
  j <> g_nsources g - 1 ->
  source_state w (arr_get (g_sources g) j) = AL_PLAYING \/
  source_state w (arr_get (g_sources g) j) = AL_PAUSED ->
  playGroup_source g s once j w =
    (None, set_trace (trace w ++ [AlGetSourcei (arr_get (g_sources g) j) AL_SOURCE_STATE]) w).
Proof.
  intros Hj Hst. open_world w.
  unfold playGroup_source, source_state in *. cbn in Hst. unfold_al. unfold_monad.
  destruct (Z.eqb_spec j (g_nsources g - 1)) as [|_]; [contradiction |].
  destruct Hst as [-> | ->]; reflexivity.
Qed.

(** The last source, when it is not stopped, is stopped and started anew. *)
Lemma playGroup_source_last (g : alGroup_t) (s : alSound) (once j : Z) (w : world D) :
  j = g_nsources g - 1 ->
  source_state w (arr_get (g_sources g) j) <> AL_STOPPED ->
  let src := arr_get (g_sources g) j in
  let d := playGroup_smashed (device w) src (svolume w) s once in
  playGroup_source g s once j w =
    (Some 0,
     set_trace (trace w ++
                [AlGetSourcei src AL_SOURCE_STATE; AlSourceStop src;
                 AlSourcef src AL_GAIN (svolume w); AlSourcei src AL_BUFFER (snd_buf s);
                 AlSourcei src AL_SOURCE_RELATIVE AL_TRUE;
                 AlSourcei src AL_LOOPING (if once =? 0 then AL_TRUE else AL_FALSE);
                 AlSourcePlay src] ++ checkErr_log d)
       (set_device (snd (dev_GetError d)) w)).
Proof.
  intros Hj Hst. open_world w.
  unfold playGroup_source, source_state in *. cbn in Hst |- *. unfold_al. unfold_monad.
  destruct (Z.eqb_spec j (g_nsources g - 1)) as [_ | Hne]; [| contradiction].
  destruct (Z.eqb_spec (dev_GetSourcei w_device (arr_get (g_sources g) j) AL_SOURCE_STATE)
              AL_STOPPED) as [|_]; [contradiction |].
  cbn. rewrite al_checkErr_spec. cbn. unfold playGroup_smashed. f_equal. world_eq.
Qed.

(** The body never yields anything but 0, and it always yields at the
    last source. *)
Lemma playGroup_source_result (g : alGroup_t) (s : alSound) (once j : Z) (w : world D) :
  match fst (playGroup_source g s once j w) with
  | Some z => z = 0
  | None => j <> g_nsources g - 1
  end.
Proof.
  unfold playGroup_source. unfold_al. unfold_monad.
  destruct (Z.eqb_spec j (g_nsources g - 1)) as [Hj | Hj].
  - destruct (negb _); cbn; now destruct (al_checkErr _).
  - destruct (_ || _); cbn; [assumption |]. now destruct (al_checkErr _).
Qed.

(** A group with at least one source always finds one to play on. *)
Lemma playGroup_sources_return (g : alGroup_t) (s : alSound) (once : Z) (w : world D) :
  1 <= g_nsources g ->
  fst (for_loop (Z.to_nat (g_nsources g)) 0 (playGroup_source g s once) w) = Some 0.
Proof.
  intros HN.
  pose proof (for_loop_inv (fun j _ => j <= g_nsources g - 1) (fun z _ => z = 0)
                (playGroup_source g s once) (Z.to_nat (g_nsources g)) 0 w) as Hinv.
  destruct (for_loop _ _ _ w) as [[z|] w'].
  - cbn. f_equal. apply Hinv; [lia |].
    intros j u Hj Hle. pose proof (playGroup_source_result g s once j u) as Hr.
    destruct (playGroup_source g s once j u) as [[z'|] u']; cbn in Hr; lia.
  - exfalso. assert (0 + Z.of_nat (Z.to_nat (g_nsources g)) <= g_nsources g - 1); [| lia].
    apply Hinv; [lia |].
    intros j u Hj Hle. pose proof (playGroup_source_result g s once j u) as Hr.
    destruct (playGroup_source g s once j u) as [[z'|] u']; cbn in Hr; lia.
Qed.

(** Busy sources before the last one only leave their state queries. *)
Lemma playGroup_busy_prefix (g : alGroup_t) (s : alSound) (once : Z)
    (k n : nat) (j : Z) (w : world D) :
  (forall i, j <= i < j + Z.of_nat k ->
     i <> g_nsources g - 1 /\
     (source_state w (arr_get (g_sources g) i) = AL_PLAYING \/
      source_state w (arr_get (g_sources g) i) = AL_PAUSED)) ->
  for_loop (k + n) j (playGroup_source g s once) w =
  for_loop n (j + Z.of_nat k) (playGroup_source g s once)
    (set_trace (trace w ++ state_queries (g_sources g) j (Z.of_nat k)) w).
Proof.
  revert j w. induction k as [|k IH]; intros j w Hbusy.
  - cbn [Nat.add]. unfold state_queries. cbn. rewrite app_nil_r.
    replace (j + Z.of_nat 0) with j by lia. destruct w; reflexivity.
  - cbn [Nat.add]. open_world w.
    destruct (Hbusy j ltac:(lia)) as [Hj Hst].
    rewrite (for_loop_next _ _ _ _ _ (playGroup_source_busy g s once j _ Hj Hst)).
    rewrite IH.
    + unfold state_queries.
      replace (Z.of_nat (S k)) with (Z.succ (Z.of_nat k)) by lia.
      rewrite (seqZ_cons j) by lia. cbn [map fmap list_fmap].
      replace (Z.pred (Z.succ (Z.of_nat k))) with (Z.of_nat k) by lia.
      replace (Z.succ j) with (j + 1) by lia.
      replace (j + 1 + Z.of_nat k) with (j + Z.succ (Z.of_nat k)) by lia.
      f_equal. world_eq.
    + intros i Hi. unfold source_state. cbn. apply (Hbusy i). lia.
Qed.

(** The whole loop over the sources of a group whose sources are all busy. *)
Lemma playGroup_sources_all_busy (g : alGroup_t) (s : alSound) (once : Z) (w : world D) :
  1 <= g_nsources g ->
  (forall j, 0 <= j < g_nsources g ->
     source_state w (arr_get (g_sources g) j) = AL_PLAYING \/
     source_state w (arr_get (g_sources g) j) = AL_PAUSED) ->
  let last := arr_get (g_sources g) (g_nsources g - 1) in
  let d := playGroup_smashed (device w) last (svolume w) s once in
  for_loop (Z.to_nat (g_nsources g)) 0 (playGroup_source g s once) w =
    (Some 0,
     set_trace (trace w ++ state_queries (g_sources g) 0 (g_nsources g - 1) ++
                [AlGetSourcei last AL_SOURCE_STATE; AlSourceStop last;
                 AlSourcef last AL_GAIN (svolume w); AlSourcei last AL_BUFFER (snd_buf s);
                 AlSourcei last AL_SOURCE_RELATIVE AL_TRUE;
                 AlSourcei last AL_LOOPING (if once =? 0 then AL_TRUE else AL_FALSE);
                 AlSourcePlay last] ++ checkErr_log d)
       (set_device (snd (dev_GetError d)) w)).
Proof.
  intros HN Hbusy last d.
  replace (Z.to_nat (g_nsources g)) with (Z.to_nat (g_nsources g - 1) + 1)%nat by lia.
  rewrite playGroup_busy_prefix by (intros i Hi; split; [lia | apply Hbusy; lia]).
  rewrite Z2Nat.id by lia. rewrite Z.add_0_l.
  subst last d. open_world w. unfold source_state in Hbusy. cbn in Hbusy |- *.
  erewrite for_loop_first.
  2:{ apply playGroup_source_last; [reflexivity |].
      unfold source_state. cbn.
      destruct (Hbusy (g_nsources g - 1) ltac:(lia)) as [E | E]; rewrite E; discriminate. }
  f_equal. cbn. world_eq.
Qed.

(** A group with another id is passed over. *)
Lemma playGroup_group_other (group : Z) (s : alSound) (once i : Z) (w : world D) :
  g_id (grp_get (al_groups w) i) <> group ->
  playGroup_group group s once i w = (None, w).
Proof.
  intros Hid. open_world w. cbn in Hid. unfold playGroup_group. unfold_monad.
  destruct (Z.eqb_spec (g_id (grp_get w_groups i)) group); [contradiction | reflexivity].
Qed.

(** The search stops at the first group with the id asked for. *)
Lemma playGroup_at_first_match (group : Z) (s : alSound) (once i : Z) (w : world D) :
  0 <= i < al_ngroups w ->
  g_id (grp_get (al_groups w) i) = group ->
  (forall k, 0 <= k < i -> g_id (grp_get (al_groups w) k) <> group) ->
  let g := grp_get (al_groups w) i in
  let w1 := set_al_groups (arr_set (al_groups w) i (set_g_state VOICE_PLAYING g)) w in
  sound_al_playGroup group s once w =
    match for_loop (Z.to_nat (g_nsources g)) 0 (playGroup_source g s once) w1 with
    | (Some z, w') => (z, w')
    | (None, w') =>
        (-1, set_trace (trace w' ++ [LogWarn "Group '%d' has no free sounds." [ArgInt group]]) w')
    end.
Proof.
  intros Hi Hid Hfirst g w1. unfold sound_al_playGroup.
  unfold bind at 1. unfold gets at 1. unfold bind at 1.
  replace (Z.to_nat (al_ngroups w))
    with (Z.to_nat i + S (Z.to_nat (al_ngroups w - i - 1)))%nat by lia.
  rewrite for_loop_skip
    by (intros k Hk; apply playGroup_group_other, Hfirst; lia).
  rewrite Z2Nat.id by lia. cbn [Z.add].
  assert (Hbody : playGroup_group group s once i w =
                  match for_loop (Z.to_nat (g_nsources g)) 0 (playGroup_source g s once) w1 with
                  | (Some z, w') => (Some z, w')
                  | (None, w') =>
                      (Some (-1),
                       set_trace (trace w' ++
                                  [LogWarn "Group '%d' has no free sounds." [ArgInt group]]) w')
                  end).
  { subst g w1. clear Hfirst Hi. open_world w. cbn in Hid |- *.
    unfold playGroup_group, modify_group. unfold_monad. rewrite Hid, Z.eqb_refl.
    destruct (for_loop _ _ _ _) as [[z|] w']; [reflexivity |].
    destruct w'; reflexivity. }
  destruct (for_loop _ _ _ w1) as [[z|] w'];
    erewrite for_loop_first by exact Hbody; [reflexivity |].
  unfold_monad. destruct w'; reflexivity.
Qed.

(** Either no group in a range has the id, or there is a first one. *)
Lemma group_first_match (groups : list alGroup_t) (group : Z) (n : nat) :
  (forall k, 0 <= k < Z.of_nat n -> g_id (grp_get groups k) <> group) \/
  (exists i, 0 <= i < Z.of_nat n /\ g_id (grp_get groups i) = group /\
             forall k, 0 <= k < i -> g_id (grp_get groups k) <> group).
Proof.
  induction n as [|n [IH | IH]].
  - left. lia.
  - destruct (Z.eq_dec (g_id (grp_get groups (Z.of_nat n))) group) as [E | E].
    + right. exists (Z.of_nat n). repeat split; [lia | lia | exact E |].
      intros k Hk. apply IH. lia.
    + left. intros k Hk. destruct (Z.eq_dec k (Z.of_nat n)) as [-> | Hne]; [exact E |].
      apply IH. lia.
  - right. destruct IH as (i & Hi & Hid & Hfirst). exists i. repeat split; try lia; assumption.
Qed.

(** C5 (amended).  When the first group with the id asked for has at least
    one source, [sound_al_playGroup] returns 0.  If all its sources play or
    are paused, the sources before the last one are only asked for their
    state, and the last one is stopped, set to the global volume, given the
    buffer, made relative, given the looping flag and played.  A result
    other than 0 means that no group has the id, or that the first group
    with the id has no source. *)
Theorem playGroup_smashes_last_source (w : world D) (group : Z) (s : alSound) (once : Z) :
  (forall i, 0 <= i < al_ngroups w ->
     g_id (grp_get (al_groups w) i) = group ->
     (forall k, 0 <= k < i -> g_id (grp_get (al_groups w) k) <> group) ->
     let g := grp_get (al_groups w) i in
     1 <= g_nsources g ->
     fst (sound_al_playGroup group s once w) = 0 /\
     ((forall j, 0 <= j < g_nsources g ->
         source_state w (arr_get (g_sources g) j) = AL_PLAYING \/
         source_state w (arr_get (g_sources g) j) = AL_PAUSED) ->
      let last := arr_get (g_sources g) (g_nsources g - 1) in
      let d := playGroup_smashed (device w) last (svolume w) s once in
      let w' := snd (sound_al_playGroup group s once w) in
      trace w' =
        trace w ++ state_queries (g_sources g) 0 (g_nsources g - 1) ++
        [AlGetSourcei last AL_SOURCE_STATE; AlSourceStop last;
         AlSourcef last AL_GAIN (svolume w); AlSourcei last AL_BUFFER (snd_buf s);
         AlSourcei last AL_SOURCE_RELATIVE AL_TRUE;
         AlSourcei last AL_LOOPING (if once =? 0 then AL_TRUE else AL_FALSE);
         AlSourcePlay last] ++ checkErr_log d /\
      device w' = snd (dev_GetError d))) /\
  (fst (sound_al_playGroup group s once w) <> 0 ->
     (forall k, 0 <= k < al_ngroups w -> g_id (grp_get (al_groups w) k) <> group) \/
     (exists i, 0 <= i < al_ngroups w /\ g_id (grp_get (al_groups w) i) = group /\
                g_nsources (grp_get (al_groups w) i) <= 0)).
Proof.
  assert (Hfound : forall i, 0 <= i < al_ngroups w ->
            g_id (grp_get (al_groups w) i) = group ->
            (forall k, 0 <= k < i -> g_id (grp_get (al_groups w) k) <> group) ->
            1 <= g_nsources (grp_get (al_groups w) i) ->
            fst (sound_al_playGroup group s once w) = 0).
  { intros i Hi Hid Hfirst HN.
    rewrite (playGroup_at_first_match group s once i w Hi Hid Hfirst).
    match goal with |- context [for_loop ?n ?j ?b ?u] =>
      pose proof (playGroup_sources_return (grp_get (al_groups w) i) s once u HN) as Hr;
      destruct (for_loop n j b u) as [[z|] u'] end;
      cbn in Hr; [now inversion Hr | discriminate]. }
  split.
  - intros i Hi Hid Hfirst g HN. split; [now apply (Hfound i) |].
    intros Hbusy last d w'. subst w'.
    rewrite (playGroup_at_first_match group s once i w Hi Hid Hfirst).
    subst last d g. clear Hfound Hfirst Hi Hid. open_world w.
    unfold source_state in Hbusy. cbn in Hbusy, HN |- *.
    rewrite playGroup_sources_all_busy by assumption. cbn.
    split; reflexivity.
  - intros Hfail.
    destruct (group_first_match (al_groups w) group (Z.to_nat (al_ngroups w)))
      as [Hnone | (i & Hi & Hid & Hfirst)].
    + left. intros k Hk. apply Hnone. lia.
    + right. exists i. repeat split; try lia; try assumption.
      destruct (Z.le_gt_cases (g_nsources (grp_get (al_groups w) i)) 0) as [|HN]; [assumption |].
      exfalso. apply Hfail. apply (Hfound i); try assumption; lia.
Qed.
End PlayGroupProofs.

(** C5 (counterexample).  A group of size 0 can be created; it exists, and
    playing into it returns -1. *)
Lemma playGroup_fails_on_empty_group :
  let '(id, w) := sound_al_createGroup 0 two_free_world in
  id = 1 /\ al_ngroups w = 1 /\
  g_id (grp_get (al_groups w) 0) = id /\ g_nsources (grp_get (al_groups w) 0) = 0 /\
  fst (sound_al_playGroup id (AlSound 7) 0 w) = -1.
Proof. vm_compute. repeat split. Qed.

Lemma playGroup_smashes_last_source_witness :
  let w := busy_group_world in
  let g := grp_get (al_groups w) 0 in
  (0 <= 0 < al_ngroups w) /\
  g_id g = 1 /\
  1 <= g_nsources g /\
  (forall j, 0 <= j < g_nsources g ->
     source_state w (arr_get (g_sources g) j) = AL_PLAYING \/
     source_state w (arr_get (g_sources g) j) = AL_PAUSED) /\
  fst (sound_al_playGroup 1 (AlSound 7) 0 w) = 0 /\
  trace (snd (sound_al_playGroup 1 (AlSound 7) 0 w)) =
    [AlGetSourcei 3 AL_SOURCE_STATE; AlGetSourcei 2 AL_SOURCE_STATE;
     AlGetSourcei 1 AL_SOURCE_STATE; AlSourceStop 1;
     AlSourcef 1 AL_GAIN (float_of_Z 1); AlSourcei 1 AL_BUFFER 7;
     AlSourcei 1 AL_SOURCE_RELATIVE AL_TRUE; AlSourcei 1 AL_LOOPING AL_TRUE;
     AlSourcePlay 1; AlGetError].
Proof.
  intros w g.
  assert (Hi : 0 <= 0 < al_ngroups w) by (vm_compute; split; discriminate || reflexivity).
  assert (Hid : g_id (grp_get (al_groups w) 0) = 1) by reflexivity.
  assert (Hfirst : forall k, 0 <= k < 0 -> g_id (grp_get (al_groups w) k) <> 1) by lia.
  assert (HN : 1 <= g_nsources g) by (vm_compute; discriminate).
  assert (Hbusy : forall j, 0 <= j < g_nsources g ->
             source_state w (arr_get (g_sources g) j) = AL_PLAYING \/
             source_state w (arr_get (g_sources g) j) = AL_PAUSED).
  { intros j Hj. change (g_nsources g) with 3 in Hj.
    assert (j = 0 \/ j = 1 \/ j = 2) as [-> | [-> | ->]] by lia;
      [left | left | right]; reflexivity. }
  repeat (split; [assumption |]).
  destruct (proj1 (playGroup_smashes_last_source w 1 (AlSound 7) 0) 0 Hi Hid Hfirst HN)
    as [Hret Htrace].
  split; [exact Hret |].
  destruct (Htrace Hbusy) as [-> _]. reflexivity.
Defined.

(** ** Groups: fading *)












Section UpdateProofs.
Context {D : Type} `{HAL : OpenAL D}.

Lemma grp_get_arr_set_ne (a : list alGroup_t) (k m : Z) (x : alGroup_t) :
  0 <= m -> k <> m -> grp_get (arr_set a k x) m = grp_get a m.
Proof.
  intros Hm Hne. unfold grp_get, arr_set.
  destruct (Z.ltb_spec m 0); [lia |]. destruct (Z.ltb_spec k 0); [reflexivity |].
  rewrite list_lookup_insert_ne by lia. reflexivity.
Qed.

Lemma grp_get_arr_set_eq (a : list alGroup_t) (k : Z) (x : alGroup_t) :
  0 <= k -> (Z.to_nat k < length a)%nat -> grp_get (arr_set a k x) k = x.
Proof.
  intros Hk Hlen. unfold grp_get, arr_set.
  destruct (Z.ltb_spec k 0); [lia |].
  rewrite list_lookup_insert_eq by exact Hlen. reflexivity.
Qed.

(** The loop that scales the gain of the sources of a group. *)
Lemma gain_loop_spec (g : alGroup_t) (d : ALfloat) (k : nat) (j : Z) (w : world D) :
  let evs := map (fun j => AlSourcef (arr_get (g_sources g) j) AL_GAIN (float_mul d (svolume w)))
               (seqZ j (Z.of_nat k)) in
  for_each k j (fun j =>
    svol <- gets svolume ;;
    alSourcef (arr_get (g_sources g) j) AL_GAIN (float_mul d svol)) w
  = (tt, set_trace (trace w ++ evs) (set_device (apply_events (device w) evs) w)).
Proof.
  revert j w. induction k as [|k IH]; intros j w; cbv zeta.
  - rewrite for_each_O. cbn. rewrite app_nil_r. open_world w. reflexivity.
  - rewrite for_each_S. open_world w. unfold_al. unfold_monad. rewrite IH. cbn.
    replace (Z.of_nat (S k)) with (Z.succ (Z.of_nat k)) by lia.
    rewrite (seqZ_cons j) by lia. cbn.
    replace (Z.pred (Z.succ (Z.of_nat k))) with (Z.of_nat k) by lia.
    replace (Z.succ j) with (j + 1) by lia.
    rewrite <- app_assoc. reflexivity.
Qed.

(** The loop that ends the fade of the sources of a group. *)
Lemma done_loop_spec (g : alGroup_t) (k : nat) (j : Z) (w : world D) :
  let evs := flat_map (fun j => [AlSourceStop (arr_get (g_sources g) j);
                                 AlSourcei (arr_get (g_sources g) j) AL_BUFFER AL_NONE;
                                 AlSourcef (arr_get (g_sources g) j) AL_GAIN (svolume w)])
               (seqZ j (Z.of_nat k)) in
  for_each k j (fun j =>
    alSourceStop (arr_get (g_sources g) j) ;;
    alSourcei (arr_get (g_sources g) j) AL_BUFFER AL_NONE ;;
    svol <- gets svolume ;;
    alSourcef (arr_get (g_sources g) j) AL_GAIN svol) w
  = (tt, set_trace (trace w ++ evs) (set_device (apply_events (device w) evs) w)).
Proof.
  revert j w. induction k as [|k IH]; intros j w; cbv zeta.
  - rewrite for_each_O. cbn. rewrite app_nil_r. open_world w. reflexivity.
  - rewrite for_each_S. open_world w. unfold_al. unfold_monad. rewrite IH. cbn.
    replace (Z.of_nat (S k)) with (Z.succ (Z.of_nat k)) by lia.
    rewrite (seqZ_cons j) by lia. cbn.
    replace (Z.pred (Z.succ (Z.of_nat k))) with (Z.of_nat k) by lia.
    replace (Z.succ j) with (j + 1) by lia.
    rewrite <- !app_assoc. reflexivity.
Qed.

(** One group of the update: a group that does not fade is left alone; a
    fading group gets its gains scaled inside the window, and is stopped
    and marked as playing after it. *)
Lemma update_group_spec (t i : Z) (w : world D) :
  let g := grp_get (al_groups w) i in
  let f := to_uint32 (t - g_fade_timer g) in
  update_group t i w =
    match g_state g with
    | VOICE_FADEOUT =>
        if f <? SOUND_FADEOUT then
          let evs := fade_gain_events g (float_mul (fade_factor f) (svolume w)) in
          let d := apply_events (device w) evs in
          (tt, set_trace (trace w ++ evs ++ checkErr_log d)
                 (set_device (snd (dev_GetError d)) w))
        else
          let evs := fade_done_events g (svolume w) in
          let d := apply_events (device w) evs in
          (tt, set_al_groups (arr_set (al_groups w) i (set_g_state VOICE_PLAYING g))
                 (set_trace (trace w ++ evs ++ checkErr_log d)
                    (set_device (snd (dev_GetError d)) w)))
    | _ => (tt, w)
    end.
Proof.
  cbv zeta. unfold update_group. unfold bind at 1. unfold gets at 1.
  destruct (g_state (grp_get (al_groups w) i)) eqn:Est; try reflexivity.
  destruct (_ <? SOUND_FADEOUT).
  - unfold bind at 1. rewrite gain_loop_spec. rewrite al_checkErr_spec.
    unfold fade_gain_events.
    destruct (Z.le_gt_cases 0 (g_nsources (grp_get (al_groups w) i))) as [HN | HN].
    + rewrite Z2Nat.id by lia. open_world w. cbn. f_equal. world_eq.
    + replace (Z.to_nat (g_nsources (grp_get (al_groups w) i))) with 0%nat by lia.
      assert (E : seqZ 0 (g_nsources (grp_get (al_groups w) i)) = [])
        by (unfold seqZ; now replace (Z.to_nat _) with 0%nat by lia).
      rewrite E. open_world w. cbn. f_equal. world_eq.
  - unfold bind at 1. rewrite done_loop_spec. unfold bind at 1. rewrite al_checkErr_spec.
    unfold fade_done_events, modify_group.
    destruct (Z.le_gt_cases 0 (g_nsources (grp_get (al_groups w) i))) as [HN | HN].
    + rewrite Z2Nat.id by lia. open_world w. cbn. unfold_monad. f_equal. world_eq.
    + replace (Z.to_nat (g_nsources (grp_get (al_groups w) i))) with 0%nat by lia.
      assert (E : seqZ 0 (g_nsources (grp_get (al_groups w) i)) = [])
        by (unfold seqZ; now replace (Z.to_nat _) with 0%nat by lia).
      rewrite E. open_world w. cbn. unfold_monad. f_equal. world_eq.
Qed.

Lemma update_group_updated (t i : Z) (w : world D) :
  update_group t i w = (tt, group_updated t w i).
Proof.
  rewrite update_group_spec. unfold group_updated. cbv zeta.
  destruct (g_state (grp_get (al_groups w) i)); try reflexivity.
  destruct (_ <? SOUND_FADEOUT); reflexivity.
Qed.

Lemma for_each_updated (t : Z) (k : nat) (j : Z) (w : world D) :
  for_each k j (update_group t) w =
    (tt, fold_left (group_updated t) (seqZ j (Z.of_nat k)) w).
Proof.
  revert j w. induction k as [|k IH]; intros j w; [reflexivity |].
  rewrite for_each_S, update_group_updated. cbn [snd]. rewrite IH.
  replace (Z.of_nat (S k)) with (Z.succ (Z.of_nat k)) by lia.
  rewrite (seqZ_cons j) by lia. cbn [fold_left].
  replace (Z.pred (Z.succ (Z.of_nat k))) with (Z.of_nat k) by lia.
  replace (Z.succ j) with (j + 1) by lia. reflexivity.
Qed.

Lemma seqZ_neg (j n : Z) : n <= 0 -> seqZ j n = [].
Proof. intros Hn. unfold seqZ. now replace (Z.to_nat n) with 0%nat by lia. Qed.

Lemma update_groups_updated (w : world D) :
  sound_al_update w = (tt, groups_updated (to_uint32 (ticks w)) w (al_ngroups w)).
Proof.
  unfold sound_al_update. unfold bind at 1. unfold SDL_GetTicks, gets at 1.
  unfold bind at 1. unfold gets at 1. rewrite for_each_updated. unfold groups_updated.
  destruct (Z.le_gt_cases 0 (al_ngroups w)).
  - now rewrite Z2Nat.id.
  - replace (Z.to_nat (al_ngroups w)) with 0%nat by lia.
    now rewrite (seqZ_neg 0 (al_ngroups w)) by lia.
Qed.

(** What the step for another group keeps. *)
Lemma group_updated_frame (t k i : Z) (u : world D) :
  0 <= i -> k <> i ->
  let u' := group_updated t u k in
  svolume u' = svolume u /\ grp_get (al_groups u') i = grp_get (al_groups u) i /\
  length (al_groups u') = length (al_groups u) /\ al_ngroups u' = al_ngroups u.
Proof.
  intros Hi Hne. cbv zeta. unfold group_updated. cbv zeta.
  destruct (g_state (grp_get (al_groups u) k)); try (repeat split; fail).
  destruct (_ <? SOUND_FADEOUT); open_world u; cbn.
  - repeat split.
  - rewrite grp_get_arr_set_ne by assumption.
    assert (El : length (arr_set w_groups k
                          (set_g_state VOICE_PLAYING (grp_get w_groups k))) = length w_groups).
    { unfold arr_set. destruct (k <? 0); [reflexivity | apply length_insert]. }
    rewrite El. repeat split.
Qed.

Lemma groups_updated_frame (t i : Z) (l : list Z) (u : world D) :
  0 <= i -> i ∉ l ->
  let u' := fold_left (group_updated t) l u in
  svolume u' = svolume u /\ grp_get (al_groups u') i = grp_get (al_groups u) i /\
  length (al_groups u') = length (al_groups u) /\ al_ngroups u' = al_ngroups u.
Proof.
  intros Hi. revert u. induction l as [|k l IH]; intros u Hnot; cbv zeta.
  - repeat split.
  - cbn [fold_left]. apply not_elem_of_cons in Hnot as [Hk Hl].
    destruct (group_updated_frame t k i u Hi ltac:(congruence)) as (E1 & E2 & E3 & E4).
    destruct (IH (group_updated t u k) Hl) as (F1 & F2 & F3 & F4).
    rewrite F1, F2, F3, F4. repeat split; assumption.
Qed.

(** Groups that do not fade are passed over. *)
Lemma groups_updated_idle (t : Z) (l : list Z) (u : world D) :
  (forall k, k ∈ l -> g_state (grp_get (al_groups u) k) <> VOICE_FADEOUT) ->
  fold_left (group_updated t) l u = u.
Proof.
  induction l as [|k l IH]; intros Hidle; [reflexivity |]. cbn [fold_left].
  assert (E : group_updated t u k = u).
  { unfold group_updated. specialize (Hidle k ltac:(apply elem_of_cons; now left)).
    destruct (g_state (grp_get (al_groups u) k)); try reflexivity. contradiction. }
  rewrite E. apply IH. intros j Hj. apply Hidle. apply elem_of_cons. now right.
Qed.

Lemma groups_updated_next (t i : Z) (w : world D) :
  0 <= i -> groups_updated t w (i + 1) = group_updated t (groups_updated t w i) i.
Proof.
  intros Hi. unfold groups_updated.
  assert (E : seqZ 0 (i + 1) = seqZ 0 i ++ [i]).
  { rewrite (seqZ_app 0 i 1) by lia. f_equal. }
  rewrite E, fold_left_app. reflexivity.
Qed.

Lemma groups_updated_rest (t i n : Z) (w : world D) :
  0 <= i < n ->
  groups_updated t w n =
    fold_left (group_updated t) (seqZ (i + 1) (n - i - 1)) (groups_updated t w (i + 1)).
Proof.
  intros Hi. unfold groups_updated.
  assert (E : seqZ 0 n = seqZ 0 (i + 1) ++ seqZ (i + 1) (n - i - 1)).
  { replace n with ((i + 1) + (n - i - 1)) at 1 by lia. rewrite seqZ_app by lia. f_equal. }
  rewrite E, fold_left_app. reflexivity.
Qed.

(** The step for a fading group, with everything it uses written out. *)
Lemma group_updated_fading (t i : Z) (u : world D) (g : alGroup_t) (svol : ALfloat) :
  grp_get (al_groups u) i = g -> svolume u = svol -> g_state g = VOICE_FADEOUT ->
  let f := to_uint32 (t - g_fade_timer g) in
  let evs := if f <? SOUND_FADEOUT
             then fade_gain_events g (float_mul (fade_factor f) svol)
             else fade_done_events g svol in
  let d := apply_events (device u) evs in
  let u' := set_trace (trace u ++ evs ++ checkErr_log d)
              (set_device (snd (dev_GetError d)) u) in
  group_updated t u i =
    (if f <? SOUND_FADEOUT then u'
     else set_al_groups (arr_set (al_groups u) i (set_g_state VOICE_PLAYING g)) u').
Proof.
  intros Hg Hsv Hst. cbv zeta. unfold group_updated. cbv zeta. rewrite Hg, Hsv, Hst.
  destruct (_ <? SOUND_FADEOUT); reflexivity.
Qed.

End UpdateProofs.




(** ** Decoders: the payload loops *)

(** [lia] with the powers of two written out. *)
Ltac plia :=
  change (2 ^ 32) with 4294967296 in *;
  change (2 ^ 31) with 2147483648 in *;
  change (2 ^ 16) with 65536 in *;
  lia.

Lemma to_uint32_small (z : Z) : 0 <= z < 2 ^ 32 -> to_uint32 z = z.
Proof. intros Hz. unfold to_uint32. now apply Z.mod_small. Qed.

Lemma to_int_small (z : Z) : 0 <= z < 2 ^ 31 -> to_int z = z.
Proof. intros Hz. unfold to_int. rewrite Z.mod_small; plia. Qed.

(** A stream that holds fewer bytes than the payload still lacks: the
    loop of [sound_al_loadWav] does not end, whatever the fuel. *)
Lemma wav_drain_short_stream (fuel : nat) (chunklen i : Z) (buf : list byte) (rw : SDL_RWops) :
  0 <= i -> 0 <= rw_available rw -> i + rw_available rw < chunklen -> chunklen < 2 ^ 31 ->
  wav_drain fuel chunklen (i, buf, rw) = None.
Proof.
  revert i buf rw. induction fuel as [|fuel IH]; intros i buf rw Hi Hav Hshort Hlen;
    cbn [wav_drain wav_drain_cond]; destruct (Z.ltb_spec i chunklen);
    try (exfalso; plia); [reflexivity |].
  unfold wav_drain_step, SDL_RWread.
  rewrite (to_uint32_small (chunklen - i)), (to_int_small (chunklen - i)) by plia.
  destruct (Z.leb_spec (chunklen - i) 0); [exfalso; plia |]. cbn [orb Z.leb].
  replace (1 <=? 0) with false by reflexivity. cbn [orb].
  rewrite Z.mul_1_r, (Z.min_r (chunklen - i)), Z.div_1_r by plia.
  rewrite (to_uint32_small (i + rw_available rw)) by plia.
  apply IH; unfold rw_available in *; cbn [rw_data rw_here]; plia.
Qed.

(** At the end of the stream an iteration changes nothing, so the loop
    condition holds after any number of iterations. *)
Lemma wav_drain_step_at_end (chunklen i : Z) (buf : list byte) (rw : SDL_RWops) :
  rw_available rw = 0 -> 0 <= i < chunklen -> chunklen < 2 ^ 32 ->
  forall n : nat,
    Nat.iter n (wav_drain_step chunklen) (i, buf, rw) = (i, buf, rw) /\
    wav_drain_cond chunklen (Nat.iter n (wav_drain_step chunklen) (i, buf, rw)) = true.
Proof.
  intros Hav Hi Hlen.
  assert (Hstep : wav_drain_step chunklen (i, buf, rw) = (i, buf, rw)).
  { unfold wav_drain_step, SDL_RWread. rewrite Hav.
    destruct (Z.leb_spec (to_int (to_uint32 (chunklen - i))) 0) as [Hle | Hgt]; cbn [orb].
    - rewrite Z.add_0_r, (to_uint32_small i) by plia. reflexivity.
    - replace (1 <=? 0) with false by reflexivity.
      rewrite (Z.min_r (to_int (to_uint32 (chunklen - i)) * 1) 0) by lia.
      cbn. rewrite Z.add_0_r, (to_uint32_small i) by plia.
      destruct rw as [data here]. cbn. rewrite Z.add_0_r. reflexivity. }
  intros n. induction n as [|n [IHn _]].
  - split; [reflexivity |]. cbn. now apply Z.ltb_lt.
  - rewrite !Nat.iter_succ, IHn, Hstep. split; [reflexivity |]. cbn. now apply Z.ltb_lt.
Qed.

(** The same for the loop of [sound_al_loadOgg] once the decoder is at the
    end of its stream. *)
Lemma ogg_drain_at_end (fuel : nat) (len i : Z) (buf : list byte) (vf : OggVorbis_File) :
  ov_stream vf = [] -> i < len ->
  ogg_drain fuel len (i, buf, vf) = OutOfFuel.
Proof.
  intros Hend Hi. revert buf. induction fuel as [|fuel IH]; intros buf;
    cbn [ogg_drain ogg_drain_cond]; destruct (Z.ltb_spec i len);
    try (exfalso; plia); [reflexivity |].
  unfold ogg_drain_step, ov_read. rewrite Hend. cbn.
  rewrite Z.add_0_r. apply IH.
Qed.

(** C3 (defect of the code).  The container declares four payload bytes
    and the stream ends after two: [sound_al_loadWav] is still in its
    payload loop whatever fuel it is given, and returns neither an error
    nor a buffer.  [sound_al_loadOgg] does the same when the decoder
    reaches the end of the stream before the promised length. *)
Theorem truncated_payload_never_returns (fuel : nat) :
  fst (sound_al_loadWav fuel (AlSound 0) (rw_open truncated_wav) empty_world) = OutOfFuel /\
  fst (sound_al_loadOgg fuel (AlSound 0) truncated_ogg empty_world) = OutOfFuel.
Proof.
  split.
  - unfold sound_al_loadWav, loadWav_chunks, loadWav_data.
    cbv -[wav_drain].
    rewrite wav_drain_short_stream; [reflexivity | | | |]; vm_compute; congruence.
  - unfold sound_al_loadOgg. cbv -[ogg_drain].
    destruct fuel as [|fuel]; [reflexivity |].
    cbn [ogg_drain ogg_drain_cond]. cbv -[ogg_drain].
    rewrite ogg_drain_at_end; [reflexivity | reflexivity |]. vm_compute. reflexivity.
Qed.

(** ** Decoders: the format of a WAV buffer *)

(** C2 (defect of the code).  A well-formed stereo container with 16 bits
    per sample is loaded into a buffer with the 8-bit stereo format, and a
    well-formed stereo container with 8 bits per sample is refused: the
    bits-per-sample field is divided by the channel count.  The mono
    containers get the declared format. *)
Theorem stereo_wav_gets_wrong_bit_depth :
  let load f := sound_al_loadWav 1 (AlSound 0) (rw_open (wav_bytes f)) empty_world in
  (fst (load (pcm_wav 2 16)) = Returns (0, AlSound 1) /\
   trace (snd (load (pcm_wav 2 16))) =
     [AlGenBuffers 1; AlBufferData 1 AL_FORMAT_STEREO8 four_bytes 4 44100] /\
   format_bits AL_FORMAT_STEREO8 = 8 /\ wav_bits (pcm_wav 2 16) = 16) /\
  (fst (load (pcm_wav 2 8)) = Returns (-1, AlSound 0) /\
   trace (snd (load (pcm_wav 2 8))) =
     [LogWarn "Unsupported byte alignment (%d) in WAVE file." [ArgInt 4]]) /\
  trace (snd (load (pcm_wav 1 16))) =
    [AlGenBuffers 1; AlBufferData 1 AL_FORMAT_MONO16 four_bytes 4 44100] /\
  trace (snd (load (pcm_wav 1 8))) =
    [AlGenBuffers 1; AlBufferData 1 AL_FORMAT_MONO8 four_bytes 4 44100].
Proof. vm_compute. repeat split. Qed.

(** ** Decoders: walking a well-formed container *)

Lemma byte_val_range (b : byte) : 0 <= byte_val b < 256.
Proof.
  unfold byte_val. pose proof (Byte.to_N_bounded b). lia.
Qed.

Lemma byte_val_of_Z (z : Z) : byte_val (byte_of_Z z) = z mod 256.
Proof.
  unfold byte_val, byte_of_Z.
  assert (Hr : 0 <= z mod 256 < 256) by (apply Z.mod_pos_bound; lia).
  destruct (Byte.of_N (Z.to_N (z mod 256))) as [b|] eqn:E.
  - apply Byte.to_of_N in E. cbn. rewrite E. lia.
  - apply Byte.of_N_None_iff in E. lia.
Qed.

(** A byte below a value shifted by eight bits: [lor] is a sum. *)
Lemma lor_low_byte (a b : Z) : 0 <= a < 256 -> 0 <= b -> Z.lor a (Z.shiftl b 8) = a + 256 * b.
Proof.
  intros Ha Hb. rewrite Z.shiftl_mul_pow2 by lia. change (2 ^ 8) with 256.
  rewrite <- Z.lxor_lor, <- Z.add_nocarry_lxor; [lia | |].
  - apply Z.bits_inj'. intros n Hn. rewrite Z.land_spec, Z.bits_0.
    destruct (Z.lt_ge_cases n 8) as [Hlt | Hge].
    + replace (b * 256) with (b * 2 ^ 8) by reflexivity.
      rewrite (Z.mul_pow2_bits_low b 8 n) by lia. apply andb_false_r.
    + rewrite (Z.bits_above_log2 a n); [reflexivity | lia |].
      destruct (Z.eq_dec a 0) as [-> | Hne]; [cbn; lia |].
      apply Z.lt_le_trans with 8; [| lia]. apply Z.log2_lt_pow2; lia.
  - apply Z.bits_inj'. intros n Hn. rewrite Z.land_spec, Z.bits_0.
    destruct (Z.lt_ge_cases n 8) as [Hlt | Hge].
    + replace (b * 256) with (b * 2 ^ 8) by reflexivity.
      rewrite (Z.mul_pow2_bits_low b 8 n) by lia. apply andb_false_r.
    + rewrite (Z.bits_above_log2 a n); [reflexivity | lia |].
      destruct (Z.eq_dec a 0) as [-> | Hne]; [cbn; lia |].
      apply Z.lt_le_trans with 8; [| lia]. apply Z.log2_lt_pow2; lia.
Qed.

Lemma le_value_nonneg (bs : list byte) : 0 <= le_value bs.
Proof.
  induction bs as [|b bs IH]; cbn [le_value]; [lia |].
  pose proof (byte_val_range b). rewrite lor_low_byte by lia. lia.
Qed.

(** Reading back what was written: the value, cut to [n] bytes. *)
Lemma le_value_bytes_mod (n : nat) (z : Z) :
  le_value (le_bytes n z) = z mod 256 ^ Z.of_nat n.
Proof.
  revert z. induction n as [|n IH]; intros z.
  - cbn. now rewrite Z.mod_1_r.
  - cbn [le_bytes le_value].
    rewrite byte_val_of_Z, Z.shiftr_div_pow2 by lia. change (2 ^ 8) with 256.
    rewrite IH.
    assert (Hpow : 0 < 256 ^ Z.of_nat n) by (apply Z.pow_pos_nonneg; lia).
    rewrite lor_low_byte.
    + replace (256 ^ Z.of_nat (S n)) with (256 * 256 ^ Z.of_nat n)
        by (rewrite Nat2Z.inj_succ, Z.pow_succ_r; lia).
      rewrite Z.rem_mul_r by lia. reflexivity.
    + apply Z.mod_pos_bound. lia.
    + apply Z.mod_pos_bound. lia.
Qed.

Lemma le_value_bytes (n : nat) (z : Z) :
  0 <= z < 256 ^ Z.of_nat n -> le_value (le_bytes n z) = z.
Proof. intros Hz. rewrite le_value_bytes_mod. now apply Z.mod_small. Qed.

Lemma le_bytes_length (n : nat) (z : Z) : length (le_bytes n z) = n.
Proof. revert z. induction n as [|n IH]; intros z; cbn; [reflexivity | now rewrite IH]. Qed.

Lemma memcmp_at_refl (a : list byte) (n : nat) : memcmp_at a a n = 0.
Proof.
  revert a. induction n as [|n IH]; intros a; cbn [memcmp_at]; [reflexivity |].
  rewrite Z.sub_diag. cbn. apply IH.
Qed.

Lemma at_cursor_advance (d : list byte) (p : Z) (chunk r : list byte) :
  at_cursor d p (chunk ++ r) -> at_cursor d (p + Z.of_nat (length chunk)) r.
Proof.
  intros [Hp Hd].
  assert (Hlen : (length (drop (Z.to_nat p) d) = length chunk + length r)%nat)
    by (rewrite Hd; apply length_app).
  rewrite length_drop in Hlen.
  split; [lia |].
  replace (Z.to_nat (p + Z.of_nat (length chunk))) with (Z.to_nat p + length chunk)%nat by lia.
  rewrite <- drop_drop, Hd, drop_app_length. reflexivity.
Qed.

(** A read of one object that the stream holds at the cursor. *)
Lemma SDL_RWread_chunk (d : list byte) (p : Z) (chunk r : list byte) :
  at_cursor d p (chunk ++ r) -> chunk <> [] ->
  SDL_RWread (RWops d p) (Z.of_nat (length chunk)) 1 =
    (1, chunk, RWops d (p + Z.of_nat (length chunk))).
Proof.
  intros [Hp Hd] Hne.
  assert (Hlen : (length (drop (Z.to_nat p) d) = length chunk + length r)%nat)
    by (rewrite Hd; apply length_app).
  rewrite length_drop in Hlen.
  assert (Hpos : (0 < length chunk)%nat) by (destruct chunk; [congruence | cbn; lia]).
  unfold SDL_RWread, rw_available. cbn [rw_data rw_here].
  destruct (Z.leb_spec 1 0); [lia |].
  destruct (Z.leb_spec (Z.of_nat (length chunk)) 0); [lia |]. cbn [orb].
  rewrite Z.mul_1_l, Z.min_l by lia.
  rewrite Z.div_same by lia. rewrite Nat2Z.id, Hd, take_app_length. reflexivity.
Qed.

(** A read of single bytes that the stream holds at the cursor. *)
Lemma SDL_RWread_bytes (d : list byte) (p : Z) (chunk r : list byte) :
  at_cursor d p (chunk ++ r) -> chunk <> [] ->
  SDL_RWread (RWops d p) 1 (Z.of_nat (length chunk)) =
    (Z.of_nat (length chunk), chunk, RWops d (p + Z.of_nat (length chunk))).
Proof.
  intros [Hp Hd] Hne.
  assert (Hlen : (length (drop (Z.to_nat p) d) = length chunk + length r)%nat)
    by (rewrite Hd; apply length_app).
  rewrite length_drop in Hlen.
  assert (Hpos : (0 < length chunk)%nat) by (destruct chunk; [congruence | cbn; lia]).
  unfold SDL_RWread, rw_available. cbn [rw_data rw_here].
  destruct (Z.leb_spec 1 0); [lia |].
  destruct (Z.leb_spec (Z.of_nat (length chunk)) 0); [lia |]. cbn [orb].
  rewrite Z.mul_1_r, Z.min_l by lia.
  rewrite Z.div_1_r. rewrite Nat2Z.id, Hd, take_app_length. reflexivity.
Qed.

(** With the whole payload in the stream the loop ends after one read,
    with the payload in the buffer. *)
Lemma wav_drain_full (fuel : nat) (d : list byte) (p : Z) (payload r : list byte) :
  at_cursor d p (payload ++ r) -> Z.of_nat (length payload) < 2 ^ 31 ->
  exists rw',
    wav_drain (S fuel) (Z.of_nat (length payload))
      (0, replicate (Z.to_nat (Z.of_nat (length payload))) x00, RWops d p)
    = Some (Z.of_nat (length payload), payload, rw').
Proof.
  intros Hc Hlen. rewrite Nat2Z.id.
  destruct payload as [|b payload].
  - eexists. cbn. reflexivity.
  - set (pl := b :: payload) in *.
    assert (Hpos : 0 < Z.of_nat (length pl)) by (cbn; lia).
    cbn [wav_drain wav_drain_cond]. destruct (Z.ltb_spec 0 (Z.of_nat (length pl))); [| lia].
    unfold wav_drain_step. rewrite Z.sub_0_r.
    rewrite (to_uint32_small (Z.of_nat (length pl))), (to_int_small (Z.of_nat (length pl)))
      by plia.
    rewrite (SDL_RWread_bytes d p pl r Hc) by discriminate.
    rewrite Z.add_0_l, (to_uint32_small (Z.of_nat (length pl))) by plia.
    change (Z.to_nat 0) with 0%nat.
    assert (Hins : list_inserts 0 pl (replicate (length pl) x00) = pl).
    { rewrite <- (app_nil_r pl) at 1. apply list_inserts_0_l. now rewrite length_replicate. }
    rewrite Hins.
    eexists. destruct fuel; cbn [wav_drain wav_drain_cond]; rewrite Z.ltb_irrefl; reflexivity.
Qed.
 
(** A forward seek over bytes the stream holds. *)
Lemma SDL_RWseek_skip (d : list byte) (p : Z) (skip r : list byte) :
  at_cursor d p (skip ++ r) ->
  SDL_RWseek (RWops d p) (Z.of_nat (length skip)) = RWops d (p + Z.of_nat (length skip)).
Proof.
  intros Hc. destruct (at_cursor_advance _ _ _ _ Hc) as [Hp' _]. destruct Hc as [Hp _].
  unfold SDL_RWseek. cbn [rw_data rw_here]. f_equal. lia.
Qed.

Section WavProofs.
Context {D : Type} `{HAL : OpenAL D}.

Lemma wavReadCmp_match (d : list byte) (p : Z) (cmp : string) (r : list byte) (w : world D) :
  length (list_byte_of_string cmp) = 4%nat ->
  at_cursor d p (list_byte_of_string cmp ++ r) ->
  sound_al_wavReadCmp (RWops d p) cmp 4 w = ((0, RWops d (p + 4)), w) /\
  at_cursor d (p + 4) r.
Proof.
  intros Hlen Hc.
  pose proof (at_cursor_advance _ _ _ _ Hc) as Hc'.
  pose proof (SDL_RWread_chunk d p _ r Hc) as Hread.
  rewrite Hlen in Hread, Hc'. change (Z.of_nat 4) with 4 in Hread, Hc'.
  split; [| exact Hc'].
  unfold sound_al_wavReadCmp. rewrite Hread.
  2:{ intros E. rewrite E in Hlen. discriminate. }
  cbn [Z.eqb negb Pos.eqb]. unfold ret, memcmp. now rewrite memcmp_at_refl.
Qed.

Lemma wavGetLen32_mod (d : list byte) (p z out : Z) (r : list byte) (w : world D) :
  at_cursor d p (le_bytes 4 z ++ r) ->
  sound_al_wavGetLen32 (RWops d p) out w = ((0, z mod 2 ^ 32, RWops d (p + 4)), w) /\
  at_cursor d (p + 4) r.
Proof.
  intros Hc.
  pose proof (at_cursor_advance _ _ _ _ Hc) as Hc'.
  pose proof (SDL_RWread_chunk d p _ r Hc) as Hread.
  rewrite le_bytes_length in Hread, Hc'. change (Z.of_nat 4) with 4 in Hread, Hc'.
  split; [| exact Hc'].
  unfold sound_al_wavGetLen32. rewrite Hread by discriminate.
  cbn [Z.eqb negb Pos.eqb]. unfold ret. now rewrite le_value_bytes_mod.
Qed.

Lemma wavGetLen32_value (d : list byte) (p z out : Z) (r : list byte) (w : world D) :
  0 <= z < 2 ^ 32 ->
  at_cursor d p (le_bytes 4 z ++ r) ->
  sound_al_wavGetLen32 (RWops d p) out w = ((0, z, RWops d (p + 4)), w) /\
  at_cursor d (p + 4) r.
Proof.
  intros Hz Hc. destruct (wavGetLen32_mod d p z out r w Hc) as [E Hc'].
  split; [| exact Hc']. rewrite E. now rewrite Z.mod_small.
Qed.

(** The end of the load, with the whole payload in the stream. *)
Lemma loadWav_data_full (fuel : nat) (snd : alSound) (d : list byte) (p : Z)
    (payload r : list byte) (channels align rate : Z) (w : world D) :
  at_cursor d p (payload ++ r) ->
  Z.of_nat (length payload) < 2 ^ 31 -> 0 <= rate < 2 ^ 31 ->
  (channels = 1 \/ channels = 2) ->
  loadWav_data (S fuel) snd (RWops d p) channels align rate (Z.of_nat (length payload)) w =
    if (align =? 16) || (align =? 8) then wav_uploaded (format_of channels align) payload rate w
    else wav_refused align snd w.
Proof.
  intros Hc Hlen Hrate Hch. unfold loadWav_data.
  destruct (wav_drain_full fuel d p payload r Hc Hlen) as [rw' ->].
  rewrite (to_int_small (Z.of_nat (length payload))), (to_int_small rate) by plia.
  unfold wav_uploaded, wav_refused, format_of. open_world w. cbn [device trace].
  destruct (dev_GenBuffers w_device) as [b dv] eqn:Egen.
  destruct Hch as [-> | ->]; cbn [Z.eqb Pos.eqb];
    destruct (align =? 16); cbn [orb]; [| destruct (align =? 8) | | destruct (align =? 8)];
    unfold_al; unfold_monad; rewrite ?Egen; cbn; try reflexivity; f_equal; world_eq.
Qed.

Lemma wavGetLen16_value (d : list byte) (p z out : Z) (r : list byte) (w : world D) :
  0 <= z < 2 ^ 16 ->
  at_cursor d p (le_bytes 2 z ++ r) ->
  sound_al_wavGetLen16 (RWops d p) out w = ((0, z, RWops d (p + 2)), w) /\
  at_cursor d (p + 2) r.
Proof.
  intros Hz Hc.
  pose proof (at_cursor_advance _ _ _ _ Hc) as Hc'.
  pose proof (SDL_RWread_chunk d p _ r Hc) as Hread.
  rewrite le_bytes_length in Hread, Hc'. change (Z.of_nat 2) with 2 in Hread, Hc'.
  split; [| exact Hc'].
  unfold sound_al_wavGetLen16. rewrite Hread by discriminate.
  cbn [Z.eqb negb Pos.eqb]. unfold ret. now rewrite le_value_bytes.
Qed.

(** From the chunk after [fmt ] to the payload: an optional [fact] chunk
    is stepped over and the length of the [data] chunk is read. *)
Lemma loadWav_chunks_walk (fuel : nat) (snd : alSound) (d : list byte) (p : Z)
    (f : wav_file) (rest : list byte) (channels align rate chunklen : Z) (w : world D) :
  at_cursor d p (wav_fact_chunk f ++ list_byte_of_string "data" ++
                 len_bytes 4 (wav_payload f) ++ rest) ->
  match wav_fact f with Some pl => Z.of_nat (length pl) < 2 ^ 31 | None => True end ->
  Z.of_nat (length (wav_payload f)) < 2 ^ 32 ->
  exists p',
    loadWav_chunks fuel snd (RWops d p) channels align rate chunklen w =
    loadWav_data fuel snd (RWops d p') channels align rate
      (Z.of_nat (length (wav_payload f))) w /\
    at_cursor d p' rest.
Proof.
  intros Hc Hfact Hlen. unfold wav_fact_chunk in Hc. unfold loadWav_chunks.
  assert (Hdata : forall q r,
             at_cursor d q (list_byte_of_string "data" ++ r) ->
             SDL_RWread (RWops d q) 4 1 = (1, list_byte_of_string "data", RWops d (q + 4)) /\
             at_cursor d (q + 4) r).
  { intros q r Hq. split.
    - apply (SDL_RWread_chunk d q (list_byte_of_string "data") r Hq). discriminate.
    - apply (at_cursor_advance d q (list_byte_of_string "data") r Hq). }
  destruct (wav_fact f) as [pl|].
  - rewrite <- !app_assoc in Hc.
    pose proof (SDL_RWread_chunk d p (list_byte_of_string "fact") _ Hc ltac:(discriminate))
      as Hread.
    apply at_cursor_advance in Hc. change (Z.of_nat (length (list_byte_of_string "fact")))
      with 4 in Hread, Hc.
    rewrite Hread. cbn [Z.eqb Pos.eqb negb].
    replace (memcmp (list_byte_of_string "fact") (list_byte_of_string "fact") 4 =? 0)
      with true by reflexivity.
    unfold bind at 1. unfold bind at 1.
    destruct (wavGetLen32_value d (p + 4) (Z.of_nat (length pl)) chunklen _ w
                ltac:(plia) Hc) as [E Hc1].
    rewrite E. cbn [Z.eqb negb].
    rewrite (to_int_small (Z.of_nat (length pl))) by plia.
    rewrite (SDL_RWseek_skip d (p + 4 + 4) pl _ Hc1).
    apply at_cursor_advance in Hc1.
    destruct (Hdata _ _ Hc1) as [Hread2 Hc2]. rewrite Hread2. cbn [Z.eqb Pos.eqb negb].
    unfold ret at 1.
    replace (memcmp (list_byte_of_string "data") (list_byte_of_string "data") 4 =? 0)
      with true by reflexivity.
    cbn [negb]. unfold bind at 1.
    destruct (wavGetLen32_value d _ (Z.of_nat (length (wav_payload f))) (Z.of_nat (length pl))
                _ w ltac:(plia) Hc2) as [E2 Hc3].
    rewrite E2. cbn [Z.eqb negb]. eexists. split; [reflexivity | exact Hc3].
  - cbn [app] in Hc.
    destruct (Hdata _ _ Hc) as [Hread Hc1]. rewrite Hread. cbn [Z.eqb Pos.eqb negb].
    replace (memcmp (list_byte_of_string "data") (list_byte_of_string "fact") 4 =? 0)
      with false by reflexivity.
    unfold bind at 1. unfold ret at 1.
    replace (memcmp (list_byte_of_string "data") (list_byte_of_string "data") 4 =? 0)
      with true by reflexivity.
    cbn [negb]. unfold bind at 1.
    destruct (wavGetLen32_value d _ (Z.of_nat (length (wav_payload f))) chunklen
                _ w ltac:(plia) Hc1) as [E2 Hc3].
    rewrite E2. cbn [Z.eqb negb]. eexists. split; [reflexivity | exact Hc3].
Qed.

(** The walk over the head of a well-formed container ends before the
    payload, with the fields of the format chunk read as declared and the
    sample width divided by the channel count. *)
Lemma loadWav_walk (fuel : nat) (snd : alSound) (f : wav_file) (rest : list byte)
    (w : world D) :
  wav_wellformed f ->
  exists p,
    sound_al_loadWav fuel snd (rw_open (wav_head f ++ rest)) w =
    loadWav_data fuel snd (RWops (wav_head f ++ rest) p) (wav_channels f)
      (wav_bits f / wav_channels f) (wav_rate f) (Z.of_nat (length (wav_payload f))) w /\
    at_cursor (wav_head f ++ rest) p rest.
Proof.
  intros (Hcomp & Hch & Hbits & Hrate & Hbr & Hba & Hextra & Hfact & Hlen).
  set (d := wav_head f ++ rest).
  assert (Hc : at_cursor d 0 d) by (split; [lia | reflexivity]).
  unfold d at 2 in Hc. unfold wav_head, wav_chunk_heads in Hc.
  rewrite <- !app_assoc in Hc.
  unfold sound_al_loadWav, rw_open.
  unfold bind at 1.
  destruct (wavReadCmp_match d _ "RIFF" _ w eq_refl Hc) as [E Hc1]. rewrite E. clear E Hc.
  cbn [Z.eqb negb]. unfold bind at 1.
  destruct (wavGetLen32_mod d _ _ 0 _ w Hc1) as [E Hc2]. rewrite E. clear E Hc1.
  cbn [Z.eqb negb]. unfold bind at 1.
  destruct (wavReadCmp_match d _ "WAVE" _ w eq_refl Hc2) as [E Hc3]. rewrite E. clear E Hc2.
  cbn [Z.eqb negb]. unfold bind at 1.
  destruct (wavReadCmp_match d _ "fmt " _ w eq_refl Hc3) as [E Hc4]. rewrite E. clear E Hc3.
  cbn [Z.eqb negb]. unfold bind at 1.
  destruct (wavGetLen32_value d _ (16 + Z.of_nat (length (wav_fmt_extra f))) 0 _ w ltac:(plia) Hc4) as [E Hc5]. rewrite E. clear E Hc4.
  cbn [Z.eqb negb]. unfold bind at 1.
  destruct (wavGetLen16_value d _ (wav_compression f) 0 _ w ltac:(plia) Hc5) as [E Hc6]. rewrite E. clear E Hc5.
  cbn [Z.eqb negb]. rewrite Hcomp. cbn [Z.eqb Pos.eqb negb]. unfold bind at 1.
  destruct (wavGetLen16_value d _ (wav_channels f) 0 _ w ltac:(plia) Hc6) as [E Hc7]. rewrite E. clear E Hc6.
  cbn [Z.eqb negb]. unfold bind at 1.
  destruct (wavGetLen32_value d _ (wav_rate f) 0 _ w ltac:(plia) Hc7) as [E Hc8]. rewrite E. clear E Hc7.
  cbn [Z.eqb negb]. unfold bind at 1.
  destruct (wavGetLen32_value d _ (wav_byte_rate f) 0 _ w ltac:(plia) Hc8) as [E Hc9]. rewrite E. clear E Hc8.
  cbn [Z.eqb negb]. unfold bind at 1.
  destruct (wavGetLen16_value d _ (wav_block_align f) 0 _ w ltac:(plia) Hc9) as [E Hc10]. rewrite E. clear E Hc9.
  cbn [Z.eqb negb]. unfold bind at 1.
  destruct (wavGetLen16_value d _ (wav_bits f) 0 _ w ltac:(plia) Hc10) as [E Hc11]. rewrite E. clear E Hc10.
  cbn [Z.eqb negb].
  destruct (Z.eqb_spec (wav_channels f) 0) as [E0 | _]; [exfalso; lia |].
  assert (Halign : to_uint16 (wav_bits f / wav_channels f) = wav_bits f / wav_channels f).
  { unfold to_uint16. apply Z.mod_small.
    destruct Hch as [-> | ->], Hbits as [-> | ->]; vm_compute; split; congruence. }
  rewrite Halign.
  assert (Hseek : to_int (to_uint32 (16 + Z.of_nat (length (wav_fmt_extra f))
                                     - to_uint32 (to_uint32 (to_uint32 (to_uint32
                                         (to_uint32 (to_uint32 (0 + 2) + 2) + 4) + 4) + 2) + 2)))
                  = Z.of_nat (length (wav_fmt_extra f))).
  { change (to_uint32 (to_uint32 (to_uint32 (to_uint32
              (to_uint32 (to_uint32 (0 + 2) + 2) + 4) + 4) + 2) + 2)) with 16.
    replace (16 + Z.of_nat (length (wav_fmt_extra f)) - 16)
      with (Z.of_nat (length (wav_fmt_extra f))) by lia.
    rewrite (to_uint32_small (Z.of_nat (length (wav_fmt_extra f)))) by plia.
    apply to_int_small. plia. }
  rewrite Hseek, (SDL_RWseek_skip d _ (wav_fmt_extra f) _ Hc11).
  apply at_cursor_advance in Hc11.
  apply (loadWav_chunks_walk fuel snd d _ f rest); [exact Hc11 | exact Hfact | plia].
Qed.

(** Every well-formed container is decoded as follows: a mono container
    gets a buffer with the declared sample width and rate and with the
    payload; a stereo container with 16 bits gets the 8-bit stereo format,
    and one with 8 bits is refused. *)
Lemma loadWav_wellformed (fuel : nat) (snd : alSound) (f : wav_file) (more : list byte)
    (w : world D) :
  wav_wellformed f ->
  sound_al_loadWav (S fuel) snd (rw_open (wav_bytes f ++ more)) w =
    if wav_channels f =? 1 then
      wav_uploaded (format_of 1 (wav_bits f)) (wav_payload f) (wav_rate f) w
    else if wav_bits f =? 16 then
      wav_uploaded AL_FORMAT_STEREO8 (wav_payload f) (wav_rate f) w
    else wav_refused 4 snd w.
Proof.
  intros Hwf. unfold wav_bytes. rewrite <- app_assoc.
  destruct (loadWav_walk (S fuel) snd f (wav_payload f ++ more) w Hwf) as (p & -> & Hc).
  destruct Hwf as (_ & Hch & Hbits & Hrate & _ & _ & _ & _ & Hlen).
  rewrite (loadWav_data_full fuel snd _ p _ _ _ _ _ w Hc Hlen Hrate Hch).
  destruct Hch as [-> | ->], Hbits as [-> | ->]; reflexivity.
Qed.

(** For a mono container the format of the buffer says what the header
    declares. *)
Lemma format_of_mono (bits : Z) :
  bits = 8 \/ bits = 16 ->
  format_channels (format_of 1 bits) = 1 /\ format_bits (format_of 1 bits) = bits.
Proof. intros [-> | ->]; split; reflexivity. Qed.

(** A well-formed head followed by less payload than it declares: the
    load never returns. *)
Lemma loadWav_truncated (fuel : nat) (snd : alSound) (f : wav_file) (k : nat) (w : world D) :
  wav_wellformed f -> (k < length (wav_payload f))%nat ->
  fst (sound_al_loadWav fuel snd (rw_open (wav_head f ++ take k (wav_payload f))) w)
    = OutOfFuel.
Proof.
  intros Hwf Hk.
  destruct (loadWav_walk fuel snd f (take k (wav_payload f)) w Hwf) as (p & -> & Hp & Hd).
  destruct Hwf as (_ & _ & _ & _ & _ & _ & _ & _ & Hlen).
  unfold loadWav_data.
  assert (Hav : rw_available (RWops (wav_head f ++ take k (wav_payload f)) p) = Z.of_nat k).
  { unfold rw_available. cbn [rw_data rw_here].
    assert (Hl : length (drop (Z.to_nat p) (wav_head f ++ take k (wav_payload f)))
                 = length (take k (wav_payload f))) by now rewrite Hd.
    rewrite length_drop, length_take in Hl. lia. }
  rewrite wav_drain_short_stream; [reflexivity | lia | rewrite Hav; lia | rewrite Hav; lia | lia].
Qed.
End WavProofs.

(** * Further properties of the engine *)

Section PlayProofs.
Context {D : Type} `{HAL : OpenAL D}.

(** With a free source, [sound_al_getSource] hands out the top of the
    stack and only lowers the count. *)
Lemma getSource_top (w : world D) :
  0 < source_nstack w ->
  sound_al_getSource w = (top_source w, set_source_nstack (source_nstack w - 1) w).
Proof.
  intros Hn. unfold top_source. open_world w. cbn in Hn |- *.
  unfold sound_al_getSource. unfold_monad.
  destruct (Z.leb_spec w_nstack 0); [lia | reflexivity].
Qed.

(** What [al_playVoice] does when the pool hands out a source. *)
Lemma playVoice_effect (w : world D) (v : alVoice) (s : alSound)
    (px py vx vy : ALfloat) (relative : ALint) :
  0 < source_nstack w -> top_source w <> 0 ->
  let zero := float_of_double (double_of_Z 0) in
  let pos := arr_set (arr_set (arr_set (v_pos v) 0 px) 1 py) 2 zero in
  let vel := arr_set (arr_set (arr_set (v_vel v) 0 vx) 1 vy) 2 zero in
  let evs := play_events (top_source w) (snd_buf s) relative (svolume w) pos vel in
  let d := apply_events (device w) evs in
  al_playVoice v s px py vx vy relative w =
    ((0, AlVoice (v_state v) (top_source w) (snd_buf s) pos vel),
     set_trace (trace w ++ evs ++ checkErr_log d)
       (set_device (snd (dev_GetError d)) (set_source_nstack (source_nstack w - 1) w))).
Proof.
  intros Hn Htop. cbv zeta. unfold al_playVoice. unfold bind at 1.
  rewrite (getSource_top w Hn). cbn [v_source set_v_source].
  destruct (Z.eqb_spec (top_source w) 0) as [|_]; [contradiction |].
  unfold top_source in *. open_world w. cbn in Hn, Htop |- *.
  unfold_al. unfold_monad. rewrite al_checkErr_spec. cbn.
  f_equal. unfold play_events. cbn. rewrite <- !app_assoc. reflexivity.
Qed.
End PlayProofs.

Lemma arr_set_xyz (l : list ALfloat) (a b c : ALfloat) :
  length l = 3%nat -> arr_set (arr_set (arr_set l 0 a) 1 b) 2 c = [a; b; c].
Proof. destruct l as [|x [|y [|z [|]]]]; try discriminate. reflexivity. Qed.

Lemma arr_set_xy (l : list ALfloat) (a b : ALfloat) :
  length l = 3%nat -> arr_set (arr_set l 0 a) 1 b = [a; b; vec_z l].
Proof. destruct l as [|x [|y [|z [|]]]]; try discriminate. reflexivity. Qed.

Section VoicePathProofs.
Context {D : Type} `{HAL : OpenAL D}.

(** X1.  With a free source on top of the pool, [sound_al_play] and
    [sound_al_playPos] return 0, take that source (the count goes down by
    one), give the voice the source, the buffer of the sound and its new
    position and velocity, and send the device: buffer, relative flag,
    the global volume as gain, position, velocity, play, followed by the
    error check.  [sound_al_play] plays relative to the listener at the
    origin; [sound_al_playPos] plays at the coordinates rounded to single
    precision, not relative.  The state of the voice is left as it was. *)
Theorem play_starts_top_source (w : world D) (v : alVoice) (s : alSound) :
  0 < source_nstack w -> top_source w <> 0 ->
  length (v_pos v) = 3%nat -> length (v_vel v) = 3%nat ->
  let zero := float_of_double (double_of_Z 0) in
  let started relative pos vel :=
    let evs := play_events (top_source w) (snd_buf s) relative (svolume w) pos vel in
    let d := apply_events (device w) evs in
    ((0, AlVoice (v_state v) (top_source w) (snd_buf s) pos vel),
     set_trace (trace w ++ evs ++ checkErr_log d)
       (set_device (snd (dev_GetError d)) (set_source_nstack (source_nstack w - 1) w))) in
  sound_al_play v s w = started AL_TRUE [zero; zero; zero] [zero; zero; zero] /\
  (forall px py vx vy : double,
     sound_al_playPos v s px py vx vy w =
       started AL_FALSE [float_of_double px; float_of_double py; zero]
                        [float_of_double vx; float_of_double vy; zero]).
Proof.
  intros Hn Htop Hpos Hvel. cbv zeta. split; [| intros px py vx vy];
    unfold sound_al_play, sound_al_playPos;
    rewrite playVoice_effect by assumption; cbv zeta;
    rewrite !arr_set_xyz by assumption; reflexivity.
Qed.

(** X2.  A voice that is started and whose source the device later
    reports as stopped gives the source back on its next update: the
    free pool is exactly what it was before the voice was started. *)
Theorem play_then_reclaim_restores_pool (w : world D) (v : alVoice) (s : alSound)
    (px py vx vy : ALfloat) (relative : ALint) (later : D) :
  0 < source_nstack w <= Z.of_nat (length (source_stack w)) ->
  top_source w <> 0 ->
  dev_GetSourcei later (top_source w) AL_SOURCE_STATE = AL_STOPPED ->
  let played := al_playVoice v s px py vx vy relative w in
  let v1 := snd (fst played) in
  let updated := sound_al_updateVoice v1 (set_device later (snd played)) in
  fst (fst played) = 0 /\ v_source v1 = top_source w /\
  source_nstack (snd played) = source_nstack w - 1 /\
  v_source (fst updated) = 0 /\ v_state (fst updated) = VOICE_STOPPED /\
  source_nstack (snd updated) = source_nstack w /\
  source_stack (snd updated) = source_stack w.
Proof.
  intros Hn Htop Hst. cbv zeta. rewrite playVoice_effect by (lia || assumption).
  cbv zeta. cbn [fst snd v_source].
  unfold sound_al_updateVoice. cbn [v_source].
  destruct (Z.eqb_spec (top_source w) 0) as [|_]; [contradiction |].
  unfold top_source in *. open_world w. cbn in Hn, Htop, Hst |- *.
  unfold_al. unfold_monad. rewrite Hst. cbn. rewrite al_checkErr_spec. cbn.
  repeat split; try lia.
  unfold arr_set, arr_get in *.
  destruct (Z.ltb_spec (w_nstack - 1) 0); [lia |].
  apply list_insert_id. unfold ALuint in *.
  destruct (lookup_lt_is_Some_2 w_stack (Z.to_nat (w_nstack - 1)) ltac:(lia)) as [a E].
  rewrite !E. reflexivity.
Qed.

(** X3.  A source that a stopped voice gives back is the next one handed
    out: after the update, [sound_al_getSource] returns that source, and
    the free sources below it are the ones that were free before. *)
Theorem reclaimed_source_is_handed_out_next (w : world D) (v : alVoice) :
  v_source v <> 0 ->
  0 <= source_nstack w < Z.of_nat (length (source_stack w)) ->
  source_state w (v_source v) = AL_STOPPED ->
  let updated := sound_al_updateVoice v w in
  let taken := sound_al_getSource (snd updated) in
  fst taken = v_source v /\
  source_nstack (snd taken) = source_nstack w /\
  (forall i, 0 <= i < source_nstack w ->
     arr_get (source_stack (snd taken)) i = arr_get (source_stack w) i).
Proof.
  intros Hsrc Hn Hst. cbv zeta. unfold source_state in Hst.
  unfold sound_al_updateVoice.
  destruct (Z.eqb_spec (v_source v) 0) as [|_]; [contradiction |].
  open_world w. cbn in Hn, Hst |- *.
  unfold_al. unfold_monad. rewrite Hst. cbn. rewrite al_checkErr_spec. cbn.
  unfold sound_al_getSource. unfold_monad.
  destruct (Z.leb_spec (w_nstack + 1) 0); [lia |]. cbn.
  replace (w_nstack + 1 - 1) with w_nstack by lia.
  unfold arr_set, arr_get.
  destruct (Z.ltb_spec w_nstack 0); [lia |].
  assert (Hlt : (Z.to_nat w_nstack < length w_stack)%nat) by lia.
  split; [| split; [reflexivity |]].
  - rewrite list_lookup_insert_eq by exact Hlt. reflexivity.
  - intros i Hi. destruct (Z.ltb_spec i 0); [lia |].
    rewrite list_lookup_insert_ne by lia. reflexivity.
Qed.
End VoicePathProofs.

Lemma play_starts_top_source_witness :
  let w := two_free_world in
  0 < source_nstack w /\ top_source w <> 0 /\
  fst (fst (sound_al_play idle_voice (AlSound 7) w)) = 0 /\
  v_source (snd (fst (sound_al_play idle_voice (AlSound 7) w))) = 2 /\
  source_nstack (snd (sound_al_play idle_voice (AlSound 7) w)) = 1.
Proof.
  intros w.
  assert (Hn : 0 < source_nstack w) by (vm_compute; reflexivity).
  assert (Htop : top_source w <> 0) by (vm_compute; discriminate).
  split; [exact Hn |]. split; [exact Htop |].
  destruct (play_starts_top_source w idle_voice (AlSound 7) Hn Htop eq_refl eq_refl) as [-> _].
  repeat split.
Defined.

Lemma play_then_reclaim_restores_pool_witness :
  let w := two_free_world in
  let later := ref_device_of [AL_INITIAL; AL_STOPPED] in
  let zero := float_of_Z 0 in
  let played := al_playVoice idle_voice (AlSound 7) zero zero zero zero AL_TRUE w in
  let updated := sound_al_updateVoice (snd (fst played)) (set_device later (snd played)) in
  (0 < source_nstack w <= Z.of_nat (length (source_stack w))) /\
  top_source w <> 0 /\
  dev_GetSourcei later (top_source w) AL_SOURCE_STATE = AL_STOPPED /\
  source_nstack (snd played) = 1 /\
  source_nstack (snd updated) = 2 /\
  source_stack (snd updated) = [1; 2].
Proof.
  intros w later zero played updated.
  assert (Hn : 0 < source_nstack w <= Z.of_nat (length (source_stack w)))
    by (vm_compute; split; [reflexivity | discriminate]).
  assert (Htop : top_source w <> 0) by (vm_compute; discriminate).
  assert (Hst : dev_GetSourcei later (top_source w) AL_SOURCE_STATE = AL_STOPPED)
    by reflexivity.
  repeat (split; [assumption |]).
  destruct (play_then_reclaim_restores_pool w idle_voice (AlSound 7) zero zero zero zero
              AL_TRUE later Hn Htop Hst) as (_ & _ & H1 & _ & _ & H2 & H3).
  split; [exact H1 |]. split; [exact H2 | exact H3].
Defined.

Lemma reclaimed_source_is_handed_out_next_witness :
  let w := world_voice_on_2 AL_STOPPED in
  v_source voice_on_2 <> 0 /\
  0 <= source_nstack w < Z.of_nat (length (source_stack w)) /\
  source_state w (v_source voice_on_2) = AL_STOPPED /\
  fst (sound_al_getSource (snd (sound_al_updateVoice voice_on_2 w))) = 2.
Proof.
  intros w.
  assert (Hsrc : v_source voice_on_2 <> 0) by (vm_compute; discriminate).
  assert (Hn : 0 <= source_nstack w < Z.of_nat (length (source_stack w)))
    by (vm_compute; split; discriminate || reflexivity).
  assert (Hst : source_state w (v_source voice_on_2) = AL_STOPPED) by reflexivity.
  repeat (split; [assumption |]).
  exact (proj1 (reclaimed_source_is_handed_out_next w voice_on_2 Hsrc Hn Hst)).
Defined.

Section VoiceLifeProofs.
Context {D : Type} `{HAL : OpenAL D}.

(** X4.  [sound_al_updatePos] stores the new x and y of position and
    velocity, rounded to single precision, in the voice and returns 0;
    the third components, the source, the buffer and the state of the
    voice stay, and the world is untouched: no device call is made.  The
    device sees the new vectors at the next [sound_al_updateVoice] of the
    voice, as long as its source has not stopped. *)
Theorem updatePos_reaches_device_on_next_update (w : world D) (v : alVoice)
    (px py vx vy : double) :
  length (v_pos v) = 3%nat -> length (v_vel v) = 3%nat ->
  let pos := [float_of_double px; float_of_double py; vec_z (v_pos v)] in
  let vel := [float_of_double vx; float_of_double vy; vec_z (v_vel v)] in
  let v' := AlVoice (v_state v) (v_source v) (v_buffer v) pos vel in
  sound_al_updatePos v px py vx vy w = ((0, v'), w) /\
  (v_source v <> 0 -> source_state w (v_source v) <> AL_STOPPED ->
   let evs := refresh_events (v_source v) (svolume w) pos vel in
   let d := apply_events (device w) evs in
   sound_al_updateVoice v' w =
     (v', set_trace (trace w ++ evs ++ checkErr_log d)
            (set_device (snd (dev_GetError d)) w))).
Proof.
  intros Hpos Hvel. cbv zeta. split.
  - unfold sound_al_updatePos, ret. cbn [v_pos v_vel set_v_pos set_v_vel v_state v_source v_buffer].
    rewrite !arr_set_xy by assumption. reflexivity.
  - intros Hsrc Hst. unfold source_state in Hst. unfold sound_al_updateVoice. cbn [v_source].
    destruct (Z.eqb_spec (v_source v) 0) as [|_]; [contradiction |].
    open_world w. cbn in Hst |- *. unfold_al. unfold_monad.
    destruct (Z.eqb_spec (dev_GetSourcei w_device (v_source v) AL_SOURCE_STATE) AL_STOPPED)
      as [|_]; [contradiction |].
    cbn. rewrite al_checkErr_spec. cbn. f_equal. rewrite <- !app_assoc. reflexivity.
Qed.

(** X5.  The end of a voice: when the device reports its source as
    stopped, the first update takes the source away and marks the voice
    [VOICE_STOPPED]; the second update marks it [VOICE_DESTROY] and
    touches neither the pool nor the device nor the log. *)
Theorem stopped_voice_is_destroyed_on_second_update (w : world D) (v : alVoice) :
  v_source v <> 0 ->
  source_state w (v_source v) = AL_STOPPED ->
  let first := sound_al_updateVoice v w in
  let second := sound_al_updateVoice (fst first) (snd first) in
  v_state (fst first) = VOICE_STOPPED /\ v_source (fst first) = 0 /\
  v_state (fst second) = VOICE_DESTROY /\ v_source (fst second) = 0 /\
  v_buffer (fst second) = v_buffer v /\
  snd second = snd first.
Proof.
  intros Hsrc Hst. cbv zeta. unfold source_state in Hst.
  assert (Hfirst : fst (sound_al_updateVoice v w) = set_v_state VOICE_STOPPED (set_v_source 0 v)).
  { unfold sound_al_updateVoice.
    destruct (Z.eqb_spec (v_source v) 0) as [|_]; [contradiction |].
    open_world w. cbn in Hst |- *. unfold_al. unfold_monad. rewrite Hst. cbn.
    rewrite al_checkErr_spec. reflexivity. }
  destruct (sound_al_updateVoice v w) as [v1 w1]. cbn [fst snd] in *. subst v1.
  unfold sound_al_updateVoice. cbn. repeat split.
Qed.

(** X6.  [sound_al_stop] on a voice with a source sends one stop for
    that source and runs the error check; it leaves the pool alone.  On a
    device that then reports the source as stopped, the next update of
    the voice gives the source back to the pool. *)
Theorem stop_then_update_frees_source (w : world D) (v : alVoice) :
  v_source v <> 0 ->
  0 <= source_nstack w < Z.of_nat (length (source_stack w)) ->
  let d := dev_SourceStop (device w) (v_source v) in
  dev_GetSourcei (snd (dev_GetError d)) (v_source v) AL_SOURCE_STATE = AL_STOPPED ->
  let stopped := snd (sound_al_stop v w) in
  let updated := sound_al_updateVoice v stopped in
  stopped = set_trace (trace w ++ AlSourceStop (v_source v) :: checkErr_log d)
              (set_device (snd (dev_GetError d)) w) /\
  v_source (fst updated) = 0 /\ v_state (fst updated) = VOICE_STOPPED /\
  source_nstack (snd updated) = source_nstack w + 1 /\
  arr_get (source_stack (snd updated)) (source_nstack w) = v_source v.
Proof.
  intros Hsrc Hn. cbv zeta. intros Hst.
  assert (Hstop : snd (sound_al_stop v w) =
                  set_trace (trace w ++ AlSourceStop (v_source v) ::
                               checkErr_log (dev_SourceStop (device w) (v_source v)))
                    (set_device (snd (dev_GetError (dev_SourceStop (device w) (v_source v)))) w)).
  { unfold sound_al_stop. destruct (Z.eqb_spec (v_source v) 0) as [|_]; [contradiction |].
    open_world w. cbn. unfold_al. unfold_monad. rewrite al_checkErr_spec. cbn.
    rewrite <- !app_assoc. reflexivity. }
  rewrite Hstop. split; [reflexivity |].
  unfold sound_al_updateVoice.
  destruct (Z.eqb_spec (v_source v) 0) as [|_]; [contradiction |].
  open_world w. cbn in Hn, Hst |- *. unfold_al. unfold_monad. rewrite Hst. cbn.
  rewrite al_checkErr_spec. cbn.
  unfold arr_set, arr_get. destruct (Z.ltb_spec w_nstack 0); [lia |].
  assert (Hlt : (Z.to_nat w_nstack < length w_stack)%nat) by lia.
  rewrite list_lookup_insert_eq by exact Hlt. repeat split.
Qed.
End VoiceLifeProofs.

Lemma updatePos_reaches_device_on_next_update_witness :
  let w := world_voice_on_2 AL_PLAYING in
  let moved := snd (fst (sound_al_updatePos voice_on_2 (double_of_Z 5) (double_of_Z 6)
                           (double_of_Z 1) (double_of_Z 2) w)) in
  length (v_pos voice_on_2) = 3%nat /\ length (v_vel voice_on_2) = 3%nat /\
  v_source voice_on_2 <> 0 /\ source_state w (v_source voice_on_2) <> AL_STOPPED /\
  v_pos moved = [float_of_Z 5; float_of_Z 6; float_of_Z 0] /\
  trace (snd (sound_al_updateVoice moved w)) =
    [AlGetSourcei 2 AL_SOURCE_STATE; AlSourcef 2 AL_GAIN (float_of_Z 1);
     AlSourcefv 2 AL_POSITION [float_of_Z 5; float_of_Z 6; float_of_Z 0];
     AlSourcefv 2 AL_VELOCITY [float_of_Z 1; float_of_Z 2; float_of_Z 0]; AlGetError].
Proof.
  intros w moved.
  assert (Hsrc : v_source voice_on_2 <> 0) by (vm_compute; discriminate).
  assert (Hst : source_state w (v_source voice_on_2) <> AL_STOPPED) by (vm_compute; discriminate).
  split; [reflexivity |]. split; [reflexivity |]. split; [exact Hsrc |]. split; [exact Hst |].
  destruct (updatePos_reaches_device_on_next_update w voice_on_2 (double_of_Z 5) (double_of_Z 6)
              (double_of_Z 1) (double_of_Z 2) eq_refl eq_refl) as [Hmove Hupd].
  subst moved. rewrite Hmove. cbn [fst snd]. split; [reflexivity |].
  rewrite (Hupd Hsrc Hst). reflexivity.
Defined.

Lemma stopped_voice_is_destroyed_on_second_update_witness :
  let w := world_voice_on_2 AL_STOPPED in
  let first := sound_al_updateVoice voice_on_2 w in
  v_source voice_on_2 <> 0 /\ source_state w (v_source voice_on_2) = AL_STOPPED /\
  v_state (fst first) = VOICE_STOPPED /\
  v_state (fst (sound_al_updateVoice (fst first) (snd first))) = VOICE_DESTROY.
Proof.
  intros w first.
  assert (Hsrc : v_source voice_on_2 <> 0) by (vm_compute; discriminate).
  assert (Hst : source_state w (v_source voice_on_2) = AL_STOPPED) by reflexivity.
  split; [exact Hsrc |]. split; [exact Hst |].
  destruct (stopped_voice_is_destroyed_on_second_update w voice_on_2 Hsrc Hst)
    as (H1 & _ & H2 & _).
  split; [exact H1 | exact H2].
Defined.

Lemma stop_then_update_frees_source_witness :
  let w := world_voice_on_2 AL_PLAYING in
  let stopped := snd (sound_al_stop voice_on_2 w) in
  v_source voice_on_2 <> 0 /\
  (0 <= source_nstack w < Z.of_nat (length (source_stack w))) /\
  source_state stopped 2 = AL_STOPPED /\
  trace stopped = [AlSourceStop 2; AlGetError] /\
  source_nstack (snd (sound_al_updateVoice voice_on_2 stopped)) = 2.
Proof.
  intros w stopped.
  assert (Hsrc : v_source voice_on_2 <> 0) by (vm_compute; discriminate).
  assert (Hn : 0 <= source_nstack w < Z.of_nat (length (source_stack w)))
    by (vm_compute; split; discriminate || reflexivity).
  assert (Hst : dev_GetSourcei
                  (snd (dev_GetError (dev_SourceStop (device w) (v_source voice_on_2))))
                  (v_source voice_on_2) AL_SOURCE_STATE = AL_STOPPED) by reflexivity.
  split; [exact Hsrc |]. split; [exact Hn |].
  destruct (stop_then_update_frees_source w voice_on_2 Hsrc Hn Hst) as (Hs & _ & _ & Hns & _).
  fold stopped in Hs, Hns. split; [reflexivity |]. split; [rewrite Hs; reflexivity |].
  rewrite Hns. reflexivity.
Defined.

Lemma seqZ_first (i : Z) (k : nat) : seqZ i (Z.of_nat (S k)) = i :: seqZ (i + 1) (Z.of_nat k).
Proof.
  replace (Z.of_nat (S k)) with (Z.succ (Z.of_nat k)) by lia.
  rewrite (seqZ_cons i) by lia.
  replace (Z.pred (Z.succ (Z.of_nat k))) with (Z.of_nat k) by lia.
  now replace (Z.succ i) with (i + 1) by lia.
Qed.

Lemma ref_state_laws : state_laws ref_device.
Proof.
  repeat split.
  - intros d x y. cbn. unfold rd_on_source, rd_raise.
    destruct (rd_sources d !! x) as [src|] eqn:Ex; cbn.
    + destruct (Z.eqb_spec y x) as [-> | Hne]; cbn.
      * rewrite lookup_insert_eq, Ex. cbn. destruct (rs_state src =? AL_PLAYING); reflexivity.
      * rewrite lookup_insert_ne by congruence. reflexivity.
    + destruct (Z.eqb_spec y x) as [-> | Hne]; cbn; [now rewrite Ex | reflexivity].
  - intros d x y. cbn. unfold rd_on_source, rd_raise.
    destruct (rd_sources d !! x) as [src|] eqn:Ex; cbn; [| discriminate]. intros _.
    destruct (Z.eqb_spec y x) as [-> | Hne].
    + rewrite lookup_insert_eq. reflexivity.
    + rewrite lookup_insert_ne by congruence. reflexivity.
Qed.

Section PauseProofs.
Context {D : Type} `{HAL : OpenAL D}.

Lemma same_engine_refl (w : world D) : same_engine w w.
Proof. unfold same_engine. destruct w; reflexivity. Qed.

Lemma same_engine_trans (w u v : world D) : same_engine w u -> same_engine u v -> same_engine w v.
Proof.
  unfold same_engine. destruct w, u, v. cbn. intros Hu Hv.
  inversion Hu; inversion Hv; subst; reflexivity.
Qed.

(** The pause loop from index [i] on. *)
Lemma pausev_loop_state (s : list ALuint) (k : nat) (i : Z) (w : world D) :
  state_laws D ->
  let w' := snd (for_each k i (fun i =>
                   state <- alGetSourcei (arr_get s i) AL_SOURCE_STATE ;;
                   if state =? AL_PLAYING then alSourcePause (arr_get s i) else ret tt) w) in
  same_engine w w' /\
  forall y, source_state w' y =
    if (source_state w y =? AL_PLAYING) && in_array s i (Z.of_nat k) y then AL_PAUSED
    else source_state w y.
Proof.
  intros (Hpause & _ & _). revert i w. induction k as [|k IH]; intros i w; cbv zeta.
  - rewrite for_each_O. cbn [snd]. split; [apply same_engine_refl |].
    intros y. unfold in_array. cbn. now rewrite andb_false_r.
  - rewrite for_each_S.
    match goal with |- context [for_each k (i + 1) ?b (snd ?u)] =>
      set (u1 := snd u); specialize (IH (i + 1) u1); cbv zeta in IH; fold u1;
      destruct IH as [Hsame IH] end.
    assert (H1 : same_engine w u1 /\
                 forall y, source_state u1 y =
                   if (y =? arr_get s i) && (source_state w (arr_get s i) =? AL_PLAYING)
                   then AL_PAUSED else source_state w y).
    { subst u1. unfold source_state, same_engine. open_world w. unfold_al. unfold_monad.
      destruct (dev_GetSourcei w_device (arr_get s i) AL_SOURCE_STATE =? AL_PLAYING) eqn:E;
        cbn; (split; [reflexivity |]); intros y.
      - rewrite Hpause, E. reflexivity.
      - now rewrite andb_false_r. }
    destruct H1 as [Hsame1 H1]. split; [eapply same_engine_trans; eassumption |].
    intros y. rewrite IH, H1. unfold in_array. rewrite seqZ_first. cbn [map existsb].
    destruct (Z.eqb_spec y (arr_get s i)) as [-> | Hne]; cbn [andb orb].
    + destruct (source_state w (arr_get s i) =? AL_PLAYING) eqn:E; cbn [andb]; [reflexivity |].
      rewrite E. reflexivity.
    + reflexivity.
Qed.

(** The resume loop from index [i] on. *)
Lemma resumev_loop_state (s : list ALuint) (k : nat) (i : Z) (w : world D) :
  state_laws D ->
  let w' := snd (for_each k i (fun i =>
                   state <- alGetSourcei (arr_get s i) AL_SOURCE_STATE ;;
                   if state =? AL_PAUSED then alSourcePlay (arr_get s i) else ret tt) w) in
  same_engine w w' /\
  forall y, source_state w' y =
    if (source_state w y =? AL_PAUSED) && in_array s i (Z.of_nat k) y then AL_PLAYING
    else source_state w y.
Proof.
  intros (_ & Hplay & _). revert i w. induction k as [|k IH]; intros i w; cbv zeta.
  - rewrite for_each_O. cbn [snd]. split; [apply same_engine_refl |].
    intros y. unfold in_array. cbn. now rewrite andb_false_r.
  - rewrite for_each_S.
    match goal with |- context [for_each k (i + 1) ?b (snd ?u)] =>
      set (u1 := snd u); specialize (IH (i + 1) u1); cbv zeta in IH; fold u1;
      destruct IH as [Hsame IH] end.
    assert (H1 : same_engine w u1 /\
                 forall y, source_state u1 y =
                   if (y =? arr_get s i) && (source_state w (arr_get s i) =? AL_PAUSED)
                   then AL_PLAYING else source_state w y).
    { subst u1. unfold source_state, same_engine. open_world w. unfold_al. unfold_monad.
      destruct (Z.eqb_spec (dev_GetSourcei w_device (arr_get s i) AL_SOURCE_STATE) AL_PAUSED)
        as [E | E]; cbn; (split; [reflexivity |]); intros y.
      - rewrite (Hplay _ _ _ E). now rewrite andb_true_r.
      - now rewrite andb_false_r. }
    destruct H1 as [Hsame1 H1]. split; [eapply same_engine_trans; eassumption |].
    intros y. rewrite IH, H1. unfold in_array. rewrite seqZ_first. cbn [map existsb].
    destruct (Z.eqb_spec y (arr_get s i)) as [-> | Hne]; cbn [andb orb].
    + destruct (source_state w (arr_get s i) =? AL_PAUSED) eqn:E; cbn [andb]; [reflexivity |].
      rewrite E. reflexivity.
    + reflexivity.
Qed.
End PauseProofs.

Lemma in_array_to_nat (s : list ALuint) (start n : Z) (y : ALuint) :
  in_array s start (Z.of_nat (Z.to_nat n)) y = in_array s start n y.
Proof. unfold in_array, seqZ. now rewrite Nat2Z.id. Qed.

Section PauseTheorems.
Context {D : Type} `{HAL : OpenAL D}.

(** The pause of an array of sources on a lawful device. *)
Lemma pausev_states (w : world D) (n : Z) (s : list ALuint) :
  state_laws D ->
  same_engine w (snd (al_pausev n s w)) /\
  forall y, source_state (snd (al_pausev n s w)) y =
    if (source_state w y =? AL_PLAYING) && in_array s 0 n y then AL_PAUSED
    else source_state w y.
Proof.
  intros Hlaws.
  destruct (pausev_loop_state s (Z.to_nat n) 0 w Hlaws) as [Hsame Hst].
  split; [exact Hsame |]. intros y. unfold al_pausev. rewrite Hst.
  now rewrite in_array_to_nat.
Qed.

Lemma resumev_states (w : world D) (n : Z) (s : list ALuint) :
  state_laws D ->
  same_engine w (snd (al_resumev n s w)) /\
  forall y, source_state (snd (al_resumev n s w)) y =
    if (source_state w y =? AL_PAUSED) && in_array s 0 n y then AL_PLAYING
    else source_state w y.
Proof.
  intros Hlaws.
  destruct (resumev_loop_state s (Z.to_nat n) 0 w Hlaws) as [Hsame Hst].
  split; [exact Hsame |]. intros y. unfold al_resumev. rewrite Hst.
  now rewrite in_array_to_nat.
Qed.

(** X7.  On a device that follows the OpenAL rules for the playback
    state, [al_pausev] pauses the sources of the array that play and
    changes the state of no other source, and [al_resumev] starts the
    sources of the array that are paused and changes the state of no
    other source.  Neither touches anything of the engine but the device
    and the log. *)
Theorem pausev_and_resumev_act_on_matching_sources (w : world D) (n : Z) (s : list ALuint) :
  state_laws D ->
  (let w' := snd (al_pausev n s w) in
   same_engine w w' /\
   forall y, source_state w' y =
     if (source_state w y =? AL_PLAYING) && in_array s 0 n y then AL_PAUSED
     else source_state w y) /\
  (let w' := snd (al_resumev n s w) in
   same_engine w w' /\
   forall y, source_state w' y =
     if (source_state w y =? AL_PAUSED) && in_array s 0 n y then AL_PLAYING
     else source_state w y).
Proof.
  intros Hlaws. split; cbv zeta; [now apply pausev_states | now apply resumev_states].
Qed.

(** The error check changes the device and the log only, and on a
    lawful device no playback state. *)
Lemma checkErr_keeps_states (w : world D) :
  state_laws D ->
  same_engine w (snd (al_checkErr w)) /\
  forall y, source_state (snd (al_checkErr w)) y = source_state w y.
Proof.
  intros (_ & _ & Herr). rewrite al_checkErr_spec. unfold same_engine, source_state.
  open_world w. cbn. split; [reflexivity |]. intros y. apply Herr.
Qed.

Lemma pause_states (w : world D) :
  state_laws D ->
  same_engine w (snd (sound_al_pause w)) /\
  forall y, source_state (snd (sound_al_pause w)) y =
    if (source_state w y =? AL_PLAYING) && in_array (source_total w) 0 (source_ntotal w) y
    then AL_PAUSED else source_state w y.
Proof.
  intros Hlaws.
  destruct (pausev_loop_state (source_total w) (Z.to_nat (source_ntotal w)) 0 w Hlaws)
    as [Hsame Hst]. cbv zeta in Hsame, Hst.
  assert (E : sound_al_pause w = al_checkErr (snd (al_pausev (source_ntotal w) (source_total w) w))).
  { unfold sound_al_pause, bind, gets. now destruct (al_pausev _ _ w). }
  rewrite E. unfold al_pausev.
  destruct (for_each _ _ _ w) as [[] u]. cbn [snd] in *.
  destruct (checkErr_keeps_states u Hlaws) as [Hsame2 Hst2].
  split; [eapply same_engine_trans; eassumption |].
  intros y. rewrite Hst2, Hst. now rewrite in_array_to_nat.
Qed.

Lemma resume_states (w : world D) :
  state_laws D ->
  same_engine w (snd (sound_al_resume w)) /\
  forall y, source_state (snd (sound_al_resume w)) y =
    if (source_state w y =? AL_PAUSED) && in_array (source_total w) 0 (source_ntotal w) y
    then AL_PLAYING else source_state w y.
Proof.
  intros Hlaws.
  destruct (resumev_loop_state (source_total w) (Z.to_nat (source_ntotal w)) 0 w Hlaws)
    as [Hsame Hst]. cbv zeta in Hsame, Hst.
  assert (E : sound_al_resume w = al_checkErr (snd (al_resumev (source_ntotal w) (source_total w) w))).
  { unfold sound_al_resume, bind, gets. now destruct (al_resumev _ _ w). }
  rewrite E. unfold al_resumev.
  destruct (for_each _ _ _ w) as [[] u]. cbn [snd] in *.
  destruct (checkErr_keeps_states u Hlaws) as [Hsame2 Hst2].
  split; [eapply same_engine_trans; eassumption |].
  intros y. rewrite Hst2, Hst. now rewrite in_array_to_nat.
Qed.

Lemma same_engine_pool (w w' : world D) :
  same_engine w w' ->
  source_total w' = source_total w /\ source_ntotal w' = source_ntotal w /\
  source_stack w' = source_stack w /\ source_nstack w' = source_nstack w /\
  al_groups w' = al_groups w /\ al_ngroups w' = al_ngroups w /\ svolume w' = svolume w.
Proof. unfold same_engine. intros ->. destruct w, w'. cbn. repeat split. Qed.

(** X8.  [sound_al_pause] pauses the general-purpose sources that play,
    [sound_al_resume] starts the general-purpose sources that are paused,
    and both leave the sources that groups hold alone.  A pause followed
    by a resume gives every source the playback state it had, provided
    that no general-purpose source was paused before; one that was paused
    before plays afterwards. *)
Theorem pause_then_resume_restores_states (w : world D) :
  state_laws D ->
  let paused := snd (sound_al_pause w) in
  let resumed := snd (sound_al_resume paused) in
  let general := in_array (source_total w) 0 (source_ntotal w) in
  same_engine w resumed /\
  (forall y, source_state paused y =
     if (source_state w y =? AL_PLAYING) && general y then AL_PAUSED else source_state w y) /\
  (forall y, source_state resumed y =
     if (source_state w y =? AL_PAUSED) && general y then AL_PLAYING else source_state w y) /\
  ((forall y, general y = true -> source_state w y <> AL_PAUSED) ->
   forall y, source_state resumed y = source_state w y).
Proof.
  intros Hlaws. cbv zeta.
  destruct (pause_states w Hlaws) as [Hs1 Hp].
  destruct (resume_states (snd (sound_al_pause w)) Hlaws) as [Hs2 Hr].
  destruct (same_engine_pool _ _ Hs1) as (Ht & Hnt & _).
  rewrite Ht, Hnt in Hr.
  assert (Hres : forall y, source_state (snd (sound_al_resume (snd (sound_al_pause w)))) y =
            if (source_state w y =? AL_PAUSED) && in_array (source_total w) 0 (source_ntotal w) y
            then AL_PLAYING else source_state w y).
  { intros y. rewrite Hr, Hp.
    destruct (in_array (source_total w) 0 (source_ntotal w) y); rewrite ?andb_false_r, ?andb_true_r;
      [| reflexivity].
    destruct (Z.eqb_spec (source_state w y) AL_PLAYING) as [E | E].
    - rewrite E. reflexivity.
    - destruct (Z.eqb_spec (source_state w y) AL_PAUSED); reflexivity. }
  split; [eapply same_engine_trans; eassumption |].
  split; [exact Hp |]. split; [exact Hres |].
  intros Hnone y. rewrite Hres.
  destruct (in_array (source_total w) 0 (source_ntotal w) y) eqn:Ein;
    rewrite ?andb_false_r, ?andb_true_r; [| reflexivity].
  destruct (Z.eqb_spec (source_state w y) AL_PAUSED) as [E | E]; [| reflexivity].
  exfalso. now apply (Hnone y).
Qed.
End PauseTheorems.

Lemma pausev_and_resumev_act_on_matching_sources_witness :
  let w := ref_world [1; 2; 3] [1; 2; 3] 3 [] [AL_PLAYING; AL_PAUSED; AL_PLAYING] 0 in
  state_laws ref_device /\
  map (source_state (snd (al_pausev 2 [1; 2; 3] w))) [1; 2; 3]
    = [AL_PAUSED; AL_PAUSED; AL_PLAYING] /\
  map (source_state (snd (al_resumev 2 [1; 2; 3] w))) [1; 2; 3]
    = [AL_PLAYING; AL_PLAYING; AL_PLAYING].
Proof.
  intros w. split; [exact ref_state_laws |].
  destruct (pausev_and_resumev_act_on_matching_sources w 2 [1; 2; 3] ref_state_laws)
    as [[_ Hp] [_ Hr]].
  cbv zeta in Hp, Hr. cbn [map]. rewrite !Hp, !Hr. split; reflexivity.
Defined.

Lemma pause_then_resume_restores_states_witness :
  let w := ref_world [1; 2; 3] [1; 2] 3 [] [AL_PLAYING; AL_STOPPED; AL_PLAYING] 0 in
  state_laws ref_device /\
  (forall y, in_array (source_total w) 0 (source_ntotal w) y = true ->
     source_state w y <> AL_PAUSED) /\
  map (source_state (snd (sound_al_pause w))) [1; 2; 3]
    = [AL_PAUSED; AL_STOPPED; AL_PLAYING] /\
  forall y, source_state (snd (sound_al_resume (snd (sound_al_pause w)))) y = source_state w y.
Proof.
  intros w. split; [exact ref_state_laws |].
  assert (Hnone : forall y, in_array (source_total w) 0 (source_ntotal w) y = true ->
                    source_state w y <> AL_PAUSED).
  { intros y Hy. unfold in_array in Hy. apply existsb_exists in Hy as (x & Hin & Hx).
    apply Z.eqb_eq in Hx. subst x.
    change (map (arr_get (source_total w)) (seqZ 0 (source_ntotal w))) with [1; 2] in Hin.
    destruct Hin as [<- | [<- | []]]; vm_compute; discriminate. }
  split; [exact Hnone |].
  destruct (pause_then_resume_restores_states w ref_state_laws) as (_ & Hp & _ & Hall).
  cbv zeta in Hp, Hall. split; [| exact (Hall Hnone)].
  cbn [map]. rewrite !Hp. reflexivity.
Defined.

Section GroupSearchProofs.
Context {D : Type} `{HAL : OpenAL D}.

(** X9.  [sound_al_pauseGroup] and [sound_al_resumeGroup] find the first
    group with the id at any index and do to it what [al_pausev] and
    [al_resumev] do to its sources, and nothing else; no error check is
    run.  On a device that follows the OpenAL rules the playing members
    of the group are paused (the paused ones started), and every other
    source keeps its playback state. *)
Theorem pauseGroup_acts_on_members_only (w : world D) (group i : Z) :
  0 <= i < al_ngroups w ->
  g_id (grp_get (al_groups w) i) = group ->
  (forall k, 0 <= k < i -> g_id (grp_get (al_groups w) k) <> group) ->
  let g := grp_get (al_groups w) i in
  let member := in_array (g_sources g) 0 (g_nsources g) in
  sound_al_pauseGroup group w = al_pausev (g_nsources g) (g_sources g) w /\
  sound_al_resumeGroup group w = al_resumev (g_nsources g) (g_sources g) w /\
  (state_laws D ->
   (forall y, source_state (snd (sound_al_pauseGroup group w)) y =
      if (source_state w y =? AL_PLAYING) && member y then AL_PAUSED else source_state w y) /\
   (forall y, source_state (snd (sound_al_resumeGroup group w)) y =
      if (source_state w y =? AL_PAUSED) && member y then AL_PLAYING else source_state w y)).
Proof.
  intros Hi Hid Hfirst g member. fold g in Hid.
  assert (Hp : sound_al_pauseGroup group w = al_pausev (g_nsources g) (g_sources g) w).
  { unfold sound_al_pauseGroup. unfold bind at 1. unfold gets at 1. unfold bind at 1.
    replace (Z.to_nat (al_ngroups w))
      with (Z.to_nat i + S (Z.to_nat (al_ngroups w - i - 1)))%nat by lia.
    rewrite for_loop_skip.
    2:{ intros k Hk. unfold bind, gets, ret.
        destruct (Z.eqb_spec (g_id (grp_get (al_groups w) k)) group) as [E | _];
          [| reflexivity].
        exfalso. apply (Hfirst k); [lia | exact E]. }
    rewrite Z2Nat.id by lia. rewrite Z.add_0_l.
    destruct (al_pausev (g_nsources g) (g_sources g) w) as [[] w'] eqn:E.
    erewrite for_loop_first; [reflexivity |].
    unfold bind at 1. unfold gets at 1. fold g. rewrite Hid, Z.eqb_refl.
    unfold bind. rewrite E. reflexivity. }
  assert (Hr : sound_al_resumeGroup group w = al_resumev (g_nsources g) (g_sources g) w).
  { unfold sound_al_resumeGroup. unfold bind at 1. unfold gets at 1. unfold bind at 1.
    replace (Z.to_nat (al_ngroups w))
      with (Z.to_nat i + S (Z.to_nat (al_ngroups w - i - 1)))%nat by lia.
    rewrite for_loop_skip.
    2:{ intros k Hk. unfold bind, gets, ret.
        destruct (Z.eqb_spec (g_id (grp_get (al_groups w) k)) group) as [E | _];
          [| reflexivity].
        exfalso. apply (Hfirst k); [lia | exact E]. }
    rewrite Z2Nat.id by lia. rewrite Z.add_0_l.
    destruct (al_resumev (g_nsources g) (g_sources g) w) as [[] w'] eqn:E.
    erewrite for_loop_first; [reflexivity |].
    unfold bind at 1. unfold gets at 1. fold g. rewrite Hid, Z.eqb_refl.
    unfold bind. rewrite E. reflexivity. }
  split; [exact Hp |]. split; [exact Hr |]. intros Hlaws.
  rewrite Hp, Hr. split; [now apply pausev_states | now apply resumev_states].
Qed.

(** X10.  A group id that no group has: [sound_al_playGroup] returns -1,
    and it, [sound_al_pauseGroup] and [sound_al_resumeGroup] log that the
    group was not found and change nothing else; no device call is made. *)
Theorem unknown_group_is_reported (w : world D) (group : Z) (s : alSound) (once : Z) :
  (forall k, 0 <= k < al_ngroups w -> g_id (grp_get (al_groups w) k) <> group) ->
  let warned := set_trace (trace w ++ [LogWarn "Group '%d' not found." [ArgInt group]]) w in
  sound_al_playGroup group s once w = (-1, warned) /\
  sound_al_pauseGroup group w = (tt, warned) /\
  sound_al_resumeGroup group w = (tt, warned).
Proof.
  intros Hnone. cbv zeta.
  assert (Hn : Z.to_nat (al_ngroups w) = (Z.to_nat (al_ngroups w) + 0)%nat) by lia.
  split; [| split].
  - unfold sound_al_playGroup. unfold bind at 1. unfold gets at 1. unfold bind at 1.
    rewrite Hn, for_loop_skip.
    + open_world w. cbn. unfold_monad. reflexivity.
    + intros k Hk. apply playGroup_group_other, Hnone. lia.
  - unfold sound_al_pauseGroup. unfold bind at 1. unfold gets at 1. unfold bind at 1.
    rewrite Hn, for_loop_skip.
    + open_world w. cbn. unfold_monad. reflexivity.
    + intros k Hk. unfold bind, gets, ret.
      destruct (Z.eqb_spec (g_id (grp_get (al_groups w) k)) group) as [E | _]; [| reflexivity].
      exfalso. apply (Hnone k); [lia | exact E].
  - unfold sound_al_resumeGroup. unfold bind at 1. unfold gets at 1. unfold bind at 1.
    rewrite Hn, for_loop_skip.
    + open_world w. cbn. unfold_monad. reflexivity.
    + intros k Hk. unfold bind, gets, ret.
      destruct (Z.eqb_spec (g_id (grp_get (al_groups w) k)) group) as [E | _]; [| reflexivity].
      exfalso. apply (Hnone k); [lia | exact E].
Qed.
End GroupSearchProofs.

Lemma remove_first_absent (x : Z) (l : list Z) : x ∉ l -> remove_first x l = l.
Proof.
  induction l as [|y l IH]; intros Hx; [reflexivity |]. cbn.
  apply not_elem_of_cons in Hx as [Hne Hx].
  destruct (Z.eqb_spec x y); [contradiction |]. now rewrite IH.
Qed.

Lemma remove_first_split (x : Z) (l1 l2 : list Z) :
  x ∉ l1 -> remove_first x (l1 ++ x :: l2) = l1 ++ l2.
Proof.
  induction l1 as [|y l1 IH]; intros Hx; cbn.
  - now rewrite Z.eqb_refl.
  - apply not_elem_of_cons in Hx as [Hne Hx].
    destruct (Z.eqb_spec x y); [contradiction |]. now rewrite IH.
Qed.

(** Closing the gap at index [length l1] of an array. *)
Lemma memmove_close_gap (l1 l2 rest : list Z) (x : Z) :
  memmove (l1 ++ x :: l2 ++ rest) (Z.of_nat (length l1)) (Z.of_nat (length l1) + 1)
    (Z.of_nat (length l2))
  = l1 ++ l2 ++ drop (length l2) (x :: l2 ++ rest).
Proof.
  unfold memmove. rewrite !Nat2Z.id.
  replace (Z.to_nat (Z.of_nat (length l1) + 1)) with (length l1 + 1)%nat by lia.
  rewrite <- drop_drop, drop_app_length. cbn [drop]. rewrite drop_0, take_app_length.
  replace (length l1) with (length l1 + 0)%nat at 1 by lia.
  rewrite list_inserts_app_r. f_equal.
  rewrite <- (take_drop (length l2) (x :: l2 ++ rest)) at 1.
  apply list_inserts_0_r. rewrite length_take. cbn [length]. rewrite length_app. lia.
Qed.

(** [lia] that sees through the names of the integer types. *)
Ltac zlia := unfold ALuint, ALint, ALenum in *; lia.

Section RemoveTotalProofs.
Context {D : Type} `{HAL : OpenAL D}.

(** "Remove from total too": the first occurrence of the source among
    the general-purpose sources is taken out and the later ones move
    down; nothing else changes. *)
Lemma removeTotal_spec (x : ALuint) (w : world D) :
  0 <= source_ntotal w <= Z.of_nat (length (source_total w)) ->
  let w' := snd (createGroup_removeTotal x w) in
  general_sources w' = remove_first x (general_sources w) /\
  0 <= source_ntotal w' <= Z.of_nat (length (source_total w')) /\
  w' = set_source_total (source_total w') (set_source_ntotal (source_ntotal w') w).
Proof.
  cbv zeta. unfold general_sources. open_world w. cbn [source_ntotal source_total].
  unfold ALuint in *. intros Hn.
  set (w := World w_stack w_total w_nstack w_ntotal w_svolume w_groups w_ngroups w_idgen
              w_device w_ticks w_trace).
  set (p := take (Z.to_nat w_ntotal) w_total).
  assert (Hlenp : length p = Z.to_nat w_ntotal) by (subst p; rewrite length_take; lia).
  assert (Htot : w_total = p ++ drop (Z.to_nat w_ntotal) w_total)
    by (subst p; now rewrite take_drop).
  set (rest := drop (Z.to_nat w_ntotal) w_total) in *.
  assert (Hget : forall j, 0 <= j < w_ntotal -> p !! Z.to_nat j = Some (arr_get w_total j)).
  { intros j Hj. unfold arr_get. destruct (Z.ltb_spec j 0); [lia |].
    rewrite Htot, lookup_app_l by lia.
    destruct (lookup_lt_is_Some_2 p (Z.to_nat j) ltac:(lia)) as [y Ey]. now rewrite Ey. }
  destruct (decide (x ∈ p)) as [Hin | Hnin].
  - apply list_elem_of_split_l in Hin as (l1 & l2 & Hp & Hx).
    assert (Hl : (length l1 + S (length l2) = Z.to_nat w_ntotal)%nat)
      by (rewrite <- Hlenp, Hp, length_app; cbn; lia).
    assert (E : createGroup_removeTotal x w =
                (tt, set_source_total
                       (memmove w_total (Z.of_nat (length l1)) (Z.of_nat (length l1) + 1)
                          (w_ntotal - 1 - Z.of_nat (length l1)))
                       (set_source_ntotal (w_ntotal - 1) w))).
    { unfold createGroup_removeTotal. unfold bind at 1. unfold gets at 1. unfold bind at 1.
      cbn [source_ntotal w]. rewrite <- Hl.
      rewrite for_loop_skip.
      2:{ intros j Hj. unfold bind, gets, ret. cbn [source_total w].
          destruct (Z.eqb_spec x (arr_get w_total j)) as [E | _]; [| reflexivity].
          exfalso. apply Hx. specialize (Hget j ltac:(lia)). rewrite <- E, Hp in Hget.
          rewrite lookup_app_l in Hget by lia. eapply list_elem_of_lookup_2. exact Hget. }
      rewrite Z.add_0_l.
      erewrite for_loop_first; [reflexivity |].
      unfold bind at 1. unfold gets at 1. cbn [source_total w].
      specialize (Hget (Z.of_nat (length l1)) ltac:(lia)).
      rewrite Nat2Z.id, Hp, list_lookup_middle in Hget by reflexivity.
      injection Hget as <-. rewrite Z.eqb_refl. unfold_monad. reflexivity. }
    rewrite E. subst w. cbn.
    rewrite Htot, Hp, <- !app_assoc. cbn [app].
    replace (w_ntotal - 1 - Z.of_nat (length l1)) with (Z.of_nat (length l2)) by lia.
    rewrite memmove_close_gap. rewrite remove_first_split by exact Hx.
    replace (Z.to_nat (w_ntotal - 1)) with (length (l1 ++ l2)) by (rewrite length_app; lia).
    rewrite app_assoc, take_app_length. split; [reflexivity |].
    rewrite !length_app, length_drop. cbn [length]. rewrite !length_app. split; [lia | reflexivity].
  - assert (E : createGroup_removeTotal x w = (tt, w)).
    { unfold createGroup_removeTotal. unfold bind at 1. unfold gets at 1. unfold bind at 1.
      cbn [source_ntotal w].
      replace (Z.to_nat w_ntotal) with (Z.to_nat w_ntotal + 0)%nat by lia.
      rewrite for_loop_skip; [reflexivity |].
      intros j Hj. unfold bind, gets, ret. cbn [source_total w].
      destruct (Z.eqb_spec x (arr_get w_total j)) as [E | _]; [| reflexivity].
      exfalso. apply Hnin. specialize (Hget j ltac:(lia)). rewrite <- E in Hget.
      eapply list_elem_of_lookup_2. exact Hget. }
    rewrite E. subst w. cbn. rewrite remove_first_absent by exact Hnin.
    repeat split; lia.
Qed.
End RemoveTotalProofs.

Section CreateGroupSuccess.
Context {D : Type} `{HAL : OpenAL D}.

(** One slot of a new group when a source is free: the top of the stack
    goes into the slot and out of the general-purpose sources. *)
Lemma addSource_step (g i : Z) (u : world D) :
  0 < source_nstack u ->
  0 <= source_ntotal u <= Z.of_nat (length (source_total u)) ->
  let x := top_source u in
  let gr := grp_get (al_groups u) g in
  exists total' ntotal',
    createGroup_addSource g i u =
      (None,
       set_source_total total'
         (set_source_ntotal ntotal'
            (set_al_groups
               (arr_set (al_groups u) g (set_g_sources (arr_set (g_sources gr) i x) gr))
               (set_source_nstack (source_nstack u - 1) u)))) /\
    take (Z.to_nat ntotal') total' = remove_first x (general_sources u) /\
    0 <= ntotal' <= Z.of_nat (length total').
Proof.
  intros Hn Ht. cbv zeta. unfold top_source.
  set (x := arr_get (source_stack u) (source_nstack u - 1)).
  set (u1 := set_al_groups
               (arr_set (al_groups u) g
                  (set_g_sources (arr_set (g_sources (grp_get (al_groups u) g)) i x)
                     (grp_get (al_groups u) g)))
               (set_source_nstack (source_nstack u - 1) u)).
  assert (E : createGroup_addSource g i u =
              (None, snd (createGroup_removeTotal x u1))).
  { subst u1 x. open_world u. cbn in Hn |- *.
    unfold createGroup_addSource. unfold bind at 1. unfold gets at 1. cbn [source_nstack].
    destruct (Z.leb_spec w_nstack 0); [lia |].
    unfold modify_group. unfold_monad.
    now destruct (createGroup_removeTotal _ _) as [[] v]. }
  assert (Ht1 : 0 <= source_ntotal u1 <= Z.of_nat (length (source_total u1)))
    by (subst u1; destruct u; exact Ht).
  destruct (removeTotal_spec x u1 Ht1) as (Hgen & Hb & Hw). cbv zeta in Hgen, Hb, Hw.
  exists (source_total (snd (createGroup_removeTotal x u1))),
         (source_ntotal (snd (createGroup_removeTotal x u1))).
  split; [| split].
  - rewrite E. f_equal. exact Hw.
  - unfold general_sources in Hgen. rewrite Hgen. subst u1. destruct u. reflexivity.
  - exact Hb.
Qed.
End CreateGroupSuccess.

Lemma length_arr_set {A} (a : list A) (i : Z) (x : A) : length (arr_set a i x) = length a.
Proof. unfold arr_set. destruct (i <? 0); [reflexivity | apply length_insert]. Qed.

Lemma arr_get_arr_set_eq (a : list Z) (i x : Z) :
  0 <= i -> (Z.to_nat i < length a)%nat -> arr_get (arr_set a i x) i = x.
Proof.
  intros Hi Hlen. unfold arr_get, arr_set. destruct (Z.ltb_spec i 0); [lia |].
  now rewrite list_lookup_insert_eq.
Qed.

Lemma arr_get_arr_set_ne (a : list Z) (i m x : Z) :
  0 <= m -> i <> m -> arr_get (arr_set a i x) m = arr_get a m.
Proof.
  intros Hm Hne. unfold arr_get, arr_set. destruct (Z.ltb_spec m 0); [lia |].
  destruct (Z.ltb_spec i 0); [reflexivity |].
  now rewrite list_lookup_insert_ne by lia.
Qed.

Lemma length_realloc {A} (fresh : A) (a : list A) (n : Z) :
  length (realloc fresh a n) = Z.to_nat n.
Proof. unfold realloc. rewrite length_app, length_take, length_replicate. lia. Qed.

(** Growing the array of groups keeps the groups it held. *)
Lemma grp_get_realloc (a : list alGroup_t) (n k : Z) :
  0 <= k < n -> grp_get (realloc fresh_group a n) k = grp_get a k.
Proof.
  intros Hk. unfold grp_get, realloc. destruct (Z.ltb_spec k 0); [lia |].
  destruct (Nat.lt_ge_cases (Z.to_nat k) (length a)) as [Hlt | Hge].
  - rewrite lookup_app_l by (rewrite length_take; lia).
    rewrite lookup_take_lt by lia. reflexivity.
  - rewrite lookup_app_r by (rewrite length_take; lia).
    rewrite (lookup_ge_None_2 a) by lia.
    rewrite lookup_replicate_2 by (rewrite length_take; lia). reflexivity.
Qed.

Lemma taken_sources_snoc {D : Type} (w : world D) (i : Z) :
  0 <= i ->
  taken_sources w (i + 1) =
    taken_sources w i ++ [arr_get (source_stack w) (source_nstack w - 1 - i)].
Proof.
  intros Hi. unfold taken_sources. rewrite seqZ_app by lia.
  rewrite map_app. f_equal.
Qed.

Section CreateGroupTheorems.
Context {D : Type} `{HAL : OpenAL D}.

(** Filling one more slot. *)
Lemma filling_step (w : world D) (size i : Z) (u : world D) :
  0 <= i < size -> size <= source_nstack w -> 0 <= al_ngroups w ->
  createGroup_filling w size i u ->
  exists u', createGroup_addSource (al_ngroups w) i u = (None, u') /\
             createGroup_filling w size (i + 1) u'.
Proof.
  intros Hi Hsize Hng
    (Hns & Hst & Hn & Hid & Hlen & Hold & Hgid & Hgst & Hgn & Hglen & Hsrc & Hgen & Hnt &
     Htr & Hdev & Hsv & Htk).
  destruct (addSource_step (al_ngroups w) i u ltac:(lia) Hnt) as (total' & ntotal' & E & Ht & Hb).
  cbv zeta in E. eexists. split; [exact E |].
  unfold top_source in *. rewrite Hns, Hst in *.
  replace (source_nstack w - i - 1) with (source_nstack w - 1 - i) in * by lia.
  set (x := arr_get (source_stack w) (source_nstack w - 1 - i)) in *.
  set (gr := grp_get (al_groups u) (al_ngroups w)) in *.
  clear E. unfold createGroup_filling. destruct u as [us ut uns unt usv ug ung uid ud utk utr].
  cbn in *. subst.
  assert (H1 : (Z.to_nat (al_ngroups w) < length ug)%nat) by lia.
  rewrite (grp_get_arr_set_eq ug (al_ngroups w) _ Hng H1).
  repeat split; try reflexivity; try lia.
  - now rewrite length_arr_set.
  - intros k Hk. rewrite grp_get_arr_set_ne by lia. now apply Hold.
  - assumption.
  - assumption.
  - cbn. rewrite length_arr_set. assumption.
  - intros m Hm. cbn. destruct (Z.eq_dec m i) as [-> | Hne].
    + rewrite arr_get_arr_set_eq by zlia. reflexivity.
    + rewrite arr_get_arr_set_ne by zlia. apply Hsrc. lia.
  - unfold general_sources in *. cbn [source_ntotal source_total] in *.
    rewrite Ht, Hgen, taken_sources_snoc by lia. rewrite fold_left_app. reflexivity.
Qed.
End CreateGroupTheorems.

Section CreateGroupRun.
Context {D : Type} `{HAL : OpenAL D}.

(** Up to the loop: the new group is in place with empty slots. *)
Lemma createGroup_start (w : world D) (size : Z) :
  0 <= size -> 0 <= al_ngroups w ->
  0 <= source_ntotal w <= Z.of_nat (length (source_total w)) ->
  exists u0,
    createGroup_filling w size 0 u0 /\
    forall u, for_loop (Z.to_nat size) 0 (createGroup_addSource (al_ngroups w)) u0 = (None, u) ->
              sound_al_createGroup size w = (to_int (al_groupidgen w + 1), u).
Proof.
  intros Hsize Hng Hnt. open_world w. cbn in Hng, Hnt |- *.
  eexists. split; cycle 1.
  - intros u Hu. unfold sound_al_createGroup, modify_group. unfold_monad.
    replace (w_ngroups + 1 - 1) with w_ngroups by lia.
    rewrite Hu. reflexivity.
  - unfold createGroup_filling. cbn.
    assert (Hlen : (Z.to_nat w_ngroups < length (realloc fresh_group w_groups (w_ngroups + 1)))%nat)
      by (rewrite length_realloc; lia).
    rewrite !length_arr_set, length_realloc.
    rewrite !grp_get_arr_set_eq by (rewrite ?length_arr_set; lia). cbn.
    repeat split; try reflexivity; try lia.
    + intros k Hk. rewrite !grp_get_arr_set_ne by lia. apply grp_get_realloc. lia.
    + apply length_replicate.
Qed.

(** After the loop every slot is filled. *)
Lemma createGroup_filled (w : world D) (size : Z) :
  0 <= size <= source_nstack w ->
  0 <= al_ngroups w ->
  0 <= source_ntotal w <= Z.of_nat (length (source_total w)) ->
  fst (sound_al_createGroup size w) = to_int (al_groupidgen w + 1) /\
  createGroup_filling w size size (snd (sound_al_createGroup size w)).
Proof.
  intros Hsize Hng Hnt.
  destruct (createGroup_start w size ltac:(lia) Hng Hnt) as (u0 & H0 & Hrun).
  pose proof (for_loop_inv (fun i u => createGroup_filling w size i u) (fun _ _ => False)
                (createGroup_addSource (al_ngroups w)) (Z.to_nat size) 0 u0 H0) as Hinv.
  destruct (for_loop (Z.to_nat size) 0 (createGroup_addSource (al_ngroups w)) u0)
    as [[[]|] u] eqn:Eloop.
  - exfalso. apply Hinv. intros j v Hj Hv.
    destruct (filling_step w size j v ltac:(lia) ltac:(lia) Hng Hv) as (v' & -> & Hv').
    exact Hv'.
  - rewrite (Hrun u eq_refl). cbn [fst snd]. split; [reflexivity |].
    replace size with (0 + Z.of_nat (Z.to_nat size)) at 2 by lia. apply Hinv.
    intros j v Hj Hv.
    destruct (filling_step w size j v ltac:(lia) ltac:(lia) Hng Hv) as (v' & -> & Hv').
    exact Hv'.
Qed.

(** X11.  With at least [size] free sources, [sound_al_createGroup]
    returns the next group id (the counter moved on by one as an [int]:
    one more than the last id handed out, unless that was [INT_MAX]),
    appends a playing group of [size] sources, and fills its slots from
    the top of the free stack downwards.  The free count goes down by
    [size]; every source taken leaves the general-purpose sources, which
    otherwise keep their order; the groups that existed are as they were;
    no device call is made and nothing is logged. *)
Theorem createGroup_reserves_top_sources (w : world D) (size : Z) :
  0 <= size <= source_nstack w ->
  0 <= al_ngroups w ->
  0 <= source_ntotal w <= Z.of_nat (length (source_total w)) ->
  let created := sound_al_createGroup size w in
  let w' := snd created in
  let g := grp_get (al_groups w') (al_ngroups w) in
  fst created = to_int (al_groupidgen w + 1) /\
  al_groupidgen w' = to_int (al_groupidgen w + 1) /\
  al_ngroups w' = al_ngroups w + 1 /\
  g_id g = to_int (al_groupidgen w + 1) /\ g_state g = VOICE_PLAYING /\ g_nsources g = size /\
  (forall m, 0 <= m < size ->
     arr_get (g_sources g) m = arr_get (source_stack w) (source_nstack w - 1 - m)) /\
  (forall k, 0 <= k < al_ngroups w -> grp_get (al_groups w') k = grp_get (al_groups w) k) /\
  source_nstack w' = source_nstack w - size /\
  source_stack w' = source_stack w /\
  general_sources w' =
    fold_left (fun p x => remove_first x p) (taken_sources w size) (general_sources w) /\
  trace w' = trace w /\ device w' = device w /\ svolume w' = svolume w /\
  (- 2 ^ 31 <= al_groupidgen w < 2 ^ 31 - 1 -> fst created = al_groupidgen w + 1).
Proof.
  intros Hsize Hng Hnt. cbv zeta.
  destruct (createGroup_filled w size Hsize Hng Hnt) as [Hret Hfin].
  destruct Hfin as (Hns & Hst & Hn & Hid & Hlen & Hold & Hgid & Hgst & Hgn & Hglen & Hsrc &
                    Hgen & _ & Htr & Hdev & Hsv & _).
  repeat (split; [assumption |]).
  intros Hb. rewrite Hret. unfold to_int. rewrite Z.mod_small by lia. lia.
Qed.
End CreateGroupRun.

Lemma remove_first_sub (x y : Z) (l : list Z) : y ∈ remove_first x l -> y ∈ l.
Proof.
  induction l as [|z l IH]; cbn; [easy |].
  destruct (x =? z); rewrite !elem_of_cons; [tauto |].
  intros [-> | Hy]; [now left | right; now apply IH].
Qed.

Lemma remove_first_gone (x : Z) (l : list Z) : NoDup l -> x ∉ remove_first x l.
Proof.
  induction l as [|z l IH]; cbn; [intros _; apply not_elem_of_nil |].
  rewrite NoDup_cons. intros [Hz Hnd].
  destruct (Z.eqb_spec x z) as [-> | Hne]; [exact Hz |].
  rewrite elem_of_cons. intros [-> | Hx]; [congruence | now apply IH].
Qed.

Lemma remove_first_NoDup (x : Z) (l : list Z) : NoDup l -> NoDup (remove_first x l).
Proof.
  induction l as [|z l IH]; cbn; [easy |].
  rewrite NoDup_cons. intros [Hz Hnd].
  destruct (x =? z); [exact Hnd |].
  apply NoDup_cons. split; [| now apply IH].
  intros Hin. apply Hz. eapply remove_first_sub. exact Hin.
Qed.

(** Among sources without duplicates, none of the removed ones is left. *)
Lemma remove_all_gone (taken l : list Z) (y : Z) :
  NoDup l -> y ∈ taken -> y ∉ fold_left (fun p x => remove_first x p) taken l.
Proof.
  revert l. induction taken as [|x taken IH]; intros l Hnd Hy; [now apply elem_of_nil in Hy |].
  cbn [fold_left]. apply elem_of_cons in Hy as [-> | Hy].
  - assert (Hgone : x ∉ remove_first x l) by now apply remove_first_gone.
    clear IH Hnd. revert Hgone. generalize (remove_first x l). clear l.
    induction taken as [|z taken IH]; intros l Hgone; [exact Hgone |].
    cbn [fold_left]. apply IH. intros Hin. apply Hgone. eapply remove_first_sub. exact Hin.
  - apply IH; [now apply remove_first_NoDup | exact Hy].
Qed.

(** The entries a loop over the first [n] elements of an array visits
    are the first [n] elements. *)
Lemma in_array_take (s : list ALuint) (n : Z) (y : ALuint) :
  0 <= n <= Z.of_nat (length s) ->
  in_array s 0 n y = true -> y ∈ take (Z.to_nat n) s.
Proof.
  unfold ALuint in *. intros Hn Hin. unfold in_array in Hin. apply existsb_exists in Hin as (x & Hx & E).
  apply Z.eqb_eq in E. subst x. apply in_map_iff in Hx as (i & <- & Hi).
  apply list_elem_of_In, elem_of_seqZ in Hi.
  unfold arr_get. destruct (Z.ltb_spec i 0); [lia |].
  destruct (lookup_lt_is_Some_2 s (Z.to_nat i) ltac:(lia)) as [z Ez]. rewrite Ez. cbn.
  apply (list_elem_of_lookup_2 _ (Z.to_nat i)). rewrite lookup_take_lt by lia. exact Ez.
Qed.

Section GroupPauseProofs.
Context {D : Type} `{HAL : OpenAL D}.

(** X12.  The sources a new group has taken are out of reach of
    [sound_al_pause] and [sound_al_resume]: when the general-purpose
    sources hold no source twice, then on a device that follows the
    OpenAL rules a pause or a resume after the creation leaves the
    playback state of every source of the new group as it was. *)
Theorem group_sources_escape_global_pause (w : world D) (size : Z) (y : ALuint) :
  state_laws D ->
  0 <= size <= source_nstack w ->
  0 <= al_ngroups w ->
  0 <= source_ntotal w <= Z.of_nat (length (source_total w)) ->
  NoDup (general_sources w) ->
  y ∈ taken_sources w size ->
  let w' := snd (sound_al_createGroup size w) in
  (y ∉ general_sources w') /\
  source_state (snd (sound_al_pause w')) y = source_state w y /\
  source_state (snd (sound_al_resume w')) y = source_state w y.
Proof.
  intros Hlaws Hsize Hng Hnt Hnd Hy. cbv zeta.
  destruct (createGroup_filled w size Hsize Hng Hnt) as [_ Hfin].
  destruct Hfin as (_ & _ & _ & _ & _ & _ & _ & _ & _ & _ & _ & Hgen & Hb & _ & Hdev & _).
  set (w' := snd (sound_al_createGroup size w)) in *.
  assert (Hout : y ∉ general_sources w') by (rewrite Hgen; now apply remove_all_gone).
  assert (Hin : in_array (source_total w') 0 (source_ntotal w') y = false).
  { destruct (in_array _ _ _ y) eqn:E; [| reflexivity].
    exfalso. apply Hout. now apply in_array_take. }
  assert (Hst : source_state w' y = source_state w y) by (unfold source_state; now rewrite Hdev).
  split; [exact Hout |].
  destruct (pause_states w' Hlaws) as [_ Hp]. destruct (resume_states w' Hlaws) as [_ Hr].
  rewrite Hp, Hr, Hin, !andb_false_r, Hst. split; reflexivity.
Qed.
End GroupPauseProofs.

Section CreateGroupFrame.
Context {D : Type} `{HAL : OpenAL D}.

(** "Remove from total too" touches the general-purpose list and its
    count only. *)
Lemma removeTotal_frame (x : ALuint) (w : world D) :
  exists T N, createGroup_removeTotal x w = (tt, set_source_total T (set_source_ntotal N w)).
Proof.
  unfold createGroup_removeTotal. unfold bind at 1. unfold gets at 1. unfold bind at 1.
  match goal with
  | |- context [for_loop ?n0 ?i0 ?b0 ?u0] =>
      pose proof (for_loop_inv (fun _ u => u = w)
        (fun _ u => exists T N, u = set_source_total T (set_source_ntotal N w))
        b0 n0 i0 u0 eq_refl) as Hinv;
      destruct (for_loop n0 i0 b0 u0) as [[r|] u']
  end.
  - destruct Hinv as (T & N & ->); [| unfold ret; eauto].
    intros j u _ ->. open_world w. unfold_monad.
    destruct (x =? arr_get w_total j); cbn; [eauto | reflexivity].
  - rewrite Hinv.
    + unfold ret. exists (source_total w), (source_ntotal w). now destruct w.
    + intros j u _ ->. open_world w. unfold_monad.
      destruct (x =? arr_get w_total j); cbn; [eauto | reflexivity].
Qed.

(** One slot keeps the frame, whether a source is free or not. *)
Lemma addSource_frame (w : world D) (i : Z) (u : world D) :
  0 <= al_ngroups w ->
  createGroup_frame w u ->
  createGroup_frame w (snd (createGroup_addSource (al_ngroups w) i u)).
Proof.
  intros Hng (Hn & Hid & Hlen & Hold & Hgid & Htr & Hdev & Hsv).
  unfold createGroup_addSource. unfold bind at 1. unfold gets at 1.
  destruct (source_nstack u <=? 0); [cbn; repeat split; assumption |].
  unfold modify_group.
  destruct u as [us ut uns unt usv ug ung uid ud utk utr]. unfold_monad.
  match goal with |- context [createGroup_removeTotal ?x ?v] =>
    destruct (removeTotal_frame x v) as (T & N & ->) end.
  cbn in *. unfold createGroup_frame. cbn.
  assert (H1 : (Z.to_nat (al_ngroups w) < length ug)%nat) by lia.
  rewrite (grp_get_arr_set_eq ug (al_ngroups w) _ Hng H1), length_arr_set.
  repeat split; try assumption.
  intros k Hk. rewrite grp_get_arr_set_ne by lia. now apply Hold.
Qed.

Lemma createGroup_frame_start (w : world D) (size : Z) :
  0 <= al_ngroups w ->
  exists u0,
    createGroup_frame w u0 /\
    sound_al_createGroup size w =
      match for_loop (Z.to_nat size) 0 (createGroup_addSource (al_ngroups w)) u0 with
      | (None, u) => (to_int (al_groupidgen w + 1), u)
      | (Some _, u) =>
          (0, set_al_ngroups (al_ngroups u - 1)
                (set_al_groups
                   (arr_set (al_groups u) (al_ngroups w)
                      (set_g_sources [] (grp_get (al_groups u) (al_ngroups w)))) u))
      end.
Proof.
  intros Hng. open_world w. cbn in Hng |- *.
  eexists. split; cycle 1.
  - unfold sound_al_createGroup, modify_group. unfold_monad.
    replace (w_ngroups + 1 - 1) with w_ngroups by lia.
    match goal with
    | |- context [for_loop _ _ _ ?U] =>
        tryif is_evar U then fail
        else match goal with |- context [for_loop _ _ _ ?E] => is_evar E; unify E U end
    end.
    destruct (for_loop _ _ _ _) as [[[]|] u]; [| reflexivity].
    destruct u. reflexivity.
  - unfold createGroup_frame. cbn.
    rewrite !length_arr_set, length_realloc.
    rewrite !grp_get_arr_set_eq by (rewrite ?length_arr_set, ?length_realloc; lia). cbn.
    repeat split; try reflexivity.
    intros k Hk. rewrite !grp_get_arr_set_ne by lia. apply grp_get_realloc. lia.
Qed.

(** X13.  Whether it succeeds or fails, [sound_al_createGroup] moves
    the id counter on by one (as an [int]), leaves every group that
    existed as it was, and makes no device call and logs nothing.  It
    returns 0 with the group count unchanged, or the new value of the
    counter with one group more, which carries that id.  While the
    counter is at least 0 and below [INT_MAX] and no group has an id above
    it, the same holds after the call, a call that succeeds returns a
    positive id that no group had before, and the result 0 stands for
    failure only. *)
Theorem createGroup_uses_one_id_per_call (w : world D) (size : Z) :
  0 <= al_ngroups w ->
  let created := sound_al_createGroup size w in
  let w' := snd created in
  al_groupidgen w' = to_int (al_groupidgen w + 1) /\
  (forall k, 0 <= k < al_ngroups w -> grp_get (al_groups w') k = grp_get (al_groups w) k) /\
  trace w' = trace w /\ device w' = device w /\ svolume w' = svolume w /\
  ((fst created = 0 /\ al_ngroups w' = al_ngroups w) \/
   (fst created = to_int (al_groupidgen w + 1) /\ al_ngroups w' = al_ngroups w + 1 /\
    g_id (grp_get (al_groups w') (al_ngroups w)) = to_int (al_groupidgen w + 1))) /\
  (0 <= al_groupidgen w < 2 ^ 31 - 1 ->
   (forall k, 0 <= k < al_ngroups w -> g_id (grp_get (al_groups w) k) <= al_groupidgen w) ->
   al_groupidgen w' = al_groupidgen w + 1 /\
   (forall k, 0 <= k < al_ngroups w' -> g_id (grp_get (al_groups w') k) <= al_groupidgen w') /\
   (fst created <> 0 ->
    0 < fst created /\
    forall k, 0 <= k < al_ngroups w -> g_id (grp_get (al_groups w) k) <> fst created) /\
   (fst created = 0 <-> al_ngroups w' = al_ngroups w)).
Proof.
  intros Hng. cbv zeta.
  destruct (createGroup_frame_start w size Hng) as (u0 & H0 & ->).
  pose proof (for_loop_inv (fun _ u => createGroup_frame w u) (fun _ u => createGroup_frame w u)
                (createGroup_addSource (al_ngroups w)) (Z.to_nat size) 0 u0 H0) as Hinv.
  assert (Hbody : forall j u, 0 <= j < 0 + Z.of_nat (Z.to_nat size) -> createGroup_frame w u ->
            match createGroup_addSource (al_ngroups w) j u with
            | (None, u') => createGroup_frame w u'
            | (Some _, u') => createGroup_frame w u'
            end).
  { intros j u _ Hu. pose proof (addSource_frame w j u Hng Hu) as Hs.
    destruct (createGroup_addSource (al_ngroups w) j u) as [[[]|] u']; exact Hs. }
  specialize (Hinv Hbody). clear Hbody.
  assert (Hwrap : 0 <= al_groupidgen w < 2 ^ 31 - 1 ->
                  to_int (al_groupidgen w + 1) = al_groupidgen w + 1).
  { intros Hb. unfold to_int. rewrite Z.mod_small by lia. lia. }
  destruct (for_loop (Z.to_nat size) 0 (createGroup_addSource (al_ngroups w)) u0)
    as [[[]|] u]; destruct Hinv as (Hn & Hid & Hlen & Hold & Hgid & Htr & Hdev & Hsv);
    destruct u as [us ut uns unt usv ug ung uid ud utk utr]; cbn in *.
  - assert (Hkeep : forall k, 0 <= k < al_ngroups w ->
              grp_get (arr_set ug (al_ngroups w) (set_g_sources [] (grp_get ug (al_ngroups w)))) k
              = grp_get (al_groups w) k).
    { intros k Hk. rewrite grp_get_arr_set_ne by lia. now apply Hold. }
    split; [assumption |]. split; [assumption |].
    split; [assumption |]. split; [assumption |]. split; [assumption |].
    split; [left; split; [reflexivity | lia] |].
    intros Hb Hle. specialize (Hwrap Hb).
    split; [congruence |]. split; [| split].
    + intros k Hk. rewrite Hkeep by lia. specialize (Hle k ltac:(lia)). lia.
    + intros Hne. contradiction.
    + split; intros _; [lia | reflexivity].
  - split; [assumption |]. split; [assumption |].
    split; [assumption |]. split; [assumption |]. split; [assumption |].
    split; [right; repeat split; assumption |].
    intros Hb Hle. specialize (Hwrap Hb).
    split; [congruence |]. split; [| split].
    + intros k Hk. destruct (Z.eq_dec k (al_ngroups w)) as [-> | Hne]; [lia |].
      rewrite Hold by lia. specialize (Hle k ltac:(lia)). lia.
    + intros _. split; [lia |]. intros k Hk. specialize (Hle k Hk). lia.
    + split; intros E; lia.
Qed.
End CreateGroupFrame.

Section PlayGroupIdle.
Context {D : Type} `{HAL : OpenAL D}.

(** A source that is free to take: not the last one and neither playing
    nor paused, or the last one and stopped. *)
Lemma playGroup_source_idle (g : alGroup_t) (s : alSound) (once j : Z) (w : world D) :
  let src := arr_get (g_sources g) j in
  source_state w src <> AL_PLAYING -> source_state w src <> AL_PAUSED ->
  (j = g_nsources g - 1 -> source_state w src = AL_STOPPED) ->
  let evs := group_play_events src s once in
  let d := apply_events (device w) evs in
  playGroup_source g s once j w =
    (Some 0,
     set_trace (trace w ++ AlGetSourcei src AL_SOURCE_STATE :: evs ++ checkErr_log d)
       (set_device (snd (dev_GetError d)) w)).
Proof.
  cbv zeta. intros H1 H2 Hlast. open_world w.
  unfold playGroup_source, source_state in *. cbn in H1, H2, Hlast |- *.
  unfold_al. unfold_monad.
  destruct (Z.eqb_spec j (g_nsources g - 1)) as [Hj | Hj].
  - rewrite (Hlast Hj). cbn. rewrite al_checkErr_spec. cbn. f_equal.
    unfold group_play_events. cbn. rewrite <- !app_assoc. reflexivity.
  - destruct (Z.eqb_spec (dev_GetSourcei w_device (arr_get (g_sources g) j) AL_SOURCE_STATE)
                AL_PLAYING) as [|_]; [contradiction |].
    destruct (Z.eqb_spec (dev_GetSourcei w_device (arr_get (g_sources g) j) AL_SOURCE_STATE)
                AL_PAUSED) as [|_]; [contradiction |].
    cbn. rewrite al_checkErr_spec. cbn. f_equal.
    unfold group_play_events. cbn. rewrite <- !app_assoc. reflexivity.
Qed.

(** X14.  [sound_al_playGroup] plays on the first source of the group
    that is free.  When the sources before slot [j] play or are paused
    and the source in slot [j] does neither (and is stopped, if it is the
    last one), the call returns 0, marks the group as playing, asks the
    sources up to slot [j] for their state, and sends the source in slot
    [j] the buffer, the relative flag, the looping flag (off when [once]
    is set) and play, followed by the error check.  No other source gets
    a command, and the gain of the source is not set. *)
Theorem playGroup_plays_on_first_free_source (w : world D) (group : Z) (s : alSound)
    (once i j : Z) :
  0 <= i < al_ngroups w ->
  g_id (grp_get (al_groups w) i) = group ->
  (forall k, 0 <= k < i -> g_id (grp_get (al_groups w) k) <> group) ->
  let g := grp_get (al_groups w) i in
  let src := arr_get (g_sources g) j in
  0 <= j < g_nsources g ->
  (forall m, 0 <= m < j ->
     source_state w (arr_get (g_sources g) m) = AL_PLAYING \/
     source_state w (arr_get (g_sources g) m) = AL_PAUSED) ->
  source_state w src <> AL_PLAYING -> source_state w src <> AL_PAUSED ->
  (j = g_nsources g - 1 -> source_state w src = AL_STOPPED) ->
  let evs := group_play_events src s once in
  let d := apply_events (device w) evs in
  sound_al_playGroup group s once w =
    (0, set_al_groups (arr_set (al_groups w) i (set_g_state VOICE_PLAYING g))
          (set_trace (trace w ++ state_queries (g_sources g) 0 (j + 1) ++ evs ++ checkErr_log d)
             (set_device (snd (dev_GetError d)) w))).
Proof.
  intros Hi Hid Hfirst g src Hj Hbusy H1 H2 Hlast evs d.
  rewrite (playGroup_at_first_match group s once i w Hi Hid Hfirst). fold g.
  replace (Z.to_nat (g_nsources g))
    with (Z.to_nat j + S (Z.to_nat (g_nsources g - j - 1)))%nat by lia.
  rewrite playGroup_busy_prefix.
  2:{ intros m Hm. split; [lia |]. unfold source_state. destruct w. cbn. apply Hbusy. lia. }
  rewrite Z2Nat.id, Z.add_0_l by lia.
  erewrite for_loop_first.
  2:{ apply playGroup_source_idle; unfold source_state; destruct w; cbn; assumption. }
  subst evs d src. unfold state_queries. rewrite (seqZ_app 0 j 1) by lia.
  rewrite map_app. cbn [seqZ]. open_world w. cbn.
  rewrite <- !app_assoc. reflexivity.
Qed.
End PlayGroupIdle.

(** The fade timer is stored in an [int] and subtracted from an unsigned
    tick count: the difference is the time that went by, whatever the
    clock read and also across its wrap-around. *)
Lemma fade_elapsed (T k : Z) :
  0 <= k < 2 ^ 32 ->
  to_uint32 (to_uint32 (T + k) - to_int (to_uint32 T)) = k.
Proof.
  intros Hk. unfold to_uint32, to_int.
  change (2 ^ 32) with 4294967296 in *. change (2 ^ 31) with 2147483648.
  pose proof (Z.div_mod (T + k) 4294967296 ltac:(lia)) as H1.
  pose proof (Z.div_mod T 4294967296 ltac:(lia)) as H2.
  pose proof (Z.div_mod (T mod 4294967296 + 2147483648) 4294967296 ltac:(lia)) as H3.
  symmetry.
  apply (Z.mod_unique _ _ (T / 4294967296 - (T + k) / 4294967296
                           + (T mod 4294967296 + 2147483648) / 4294967296)); [lia |].
  lia.
Qed.

Section FadeLifeProofs.
Context {D : Type} `{HAL : OpenAL D}.

Lemma for_each_idle (body : Z -> M D unit) (n : nat) (i : Z) (w : world D) :
  (forall j, i <= j < i + Z.of_nat n -> body j w = (tt, w)) ->
  for_each n i body w = (tt, w).
Proof.
  revert i. induction n as [|n IH]; intros i Hidle; [reflexivity |].
  rewrite for_each_S, Hidle by lia. cbn [snd]. apply IH. intros j Hj. apply Hidle. lia.
Qed.

(** X15.  When no group fades, [sound_al_update] changes nothing: it
    makes no device call, not even the error check, and logs nothing. *)
Theorem update_is_idle_without_fade (w : world D) :
  (forall k, 0 <= k < al_ngroups w -> g_state (grp_get (al_groups w) k) <> VOICE_FADEOUT) ->
  sound_al_update w = (tt, w).
Proof.
  intros Hnone. unfold sound_al_update. unfold bind at 1. unfold SDL_GetTicks, gets at 1.
  unfold bind at 1. unfold gets at 1.
  apply for_each_idle. intros j Hj. rewrite update_group_spec. cbv zeta.
  specialize (Hnone j ltac:(lia)).
  destruct (g_state (grp_get (al_groups w) j)); try reflexivity. contradiction.
Qed.

(** X16.  A fade from its start to its end.  [sound_al_stopGroup] on the
    group at index 0 marks it as fading and stores the clock, and does
    nothing else.  An update [k] milliseconds later works with exactly
    [k] as the time gone by, whatever the clock read, also when the
    stored value is negative as an [int] or the clock has wrapped.  Its
    step for the group sends exactly these calls: for [k < 100] the gain
    [fade_factor k * svolume] to the sources of the group, which goes on
    fading; from [k >= 100] on a stop, the detaching of the buffer and the
    full volume, and the group is marked as playing; the error check
    follows.  The update then goes on with the other groups, and when none
    of them fades this step is all it does. *)
Theorem fade_runs_on_elapsed_time (w : world D) (group k : Z) :
  0 < al_ngroups w -> (0 < length (al_groups w))%nat ->
  g_id (grp_get (al_groups w) 0) = group ->
  0 <= k < 2 ^ 32 ->
  let g := grp_get (al_groups w) 0 in
  let g1 := set_g_fade_timer (to_int (to_uint32 (ticks w))) (set_g_state VOICE_FADEOUT g) in
  let w1 := snd (sound_al_stopGroup group w) in
  let later := set_ticks (ticks w + k) w1 in
  let t := to_uint32 (ticks w + k) in
  let evs := if k <? SOUND_FADEOUT
             then fade_gain_events g (float_mul (fade_factor k) (svolume w))
             else fade_done_events g (svolume w) in
  let d := apply_events (device w) evs in
  let faded :=
    set_al_groups
      (arr_set (al_groups w) 0
         (if k <? SOUND_FADEOUT then g1 else set_g_state VOICE_PLAYING g1))
      (set_trace (trace w ++ evs ++ checkErr_log d)
         (set_device (snd (dev_GetError d)) (set_ticks (ticks w + k) w))) in
  w1 = set_al_groups (arr_set (al_groups w) 0 g1) w /\
  to_uint32 (t - g_fade_timer g1) = k /\
  sound_al_update later =
    (tt, fold_left (group_updated t) (seqZ 1 (al_ngroups w - 1)) faded) /\
  ((forall j, 1 <= j < al_ngroups w ->
      g_state (grp_get (al_groups w) j) <> VOICE_FADEOUT) ->
   sound_al_update later = (tt, faded)) /\
  grp_get (al_groups (snd (sound_al_update later))) 0 =
    (if k <? SOUND_FADEOUT then g1 else set_g_state VOICE_PLAYING g1).
Proof.
  intros Hn Hlen Hid Hk g g1 w1 later t evs d faded.
  assert (Hw1 : w1 = set_al_groups (arr_set (al_groups w) 0 g1) w).
  { subst w1. now rewrite (stopGroup_first_group group w Hn Hid). }
  clearbody w1. subst w1.
  assert (Hel : to_uint32 (t - g_fade_timer g1) = k) by (apply fade_elapsed; exact Hk).
  assert (Hlater : al_ngroups later = al_ngroups w /\ grp_get (al_groups later) 0 = g1 /\
                   to_uint32 (ticks later) = t /\ svolume later = svolume w).
  { subst later. destruct w. cbn in *. repeat split.
    apply grp_get_arr_set_eq; [lia | exact Hlen]. }
  destruct Hlater as (Hng & Hg & Htk & Hsv).
  assert (Hstep : groups_updated t later 1 = faded).
  { rewrite (groups_updated_next t 0 later) by lia. unfold groups_updated at 1.
    rewrite (seqZ_neg 0 0) by lia. cbn [fold_left].
    rewrite (group_updated_fading t 0 later g1 (svolume w) Hg Hsv eq_refl).
    cbv zeta. rewrite Hel. subst faded d evs later.
    change (fade_gain_events g1) with (fade_gain_events g).
    change (fade_done_events g1) with (fade_done_events g).
    unfold arr_set. cbn [Z.ltb Z.compare Z.to_nat].
    destruct (k <? SOUND_FADEOUT); destruct w; cbn.
    - reflexivity.
    - rewrite list_insert_insert_eq. reflexivity. }
  assert (Hall : sound_al_update later =
                 (tt, fold_left (group_updated t) (seqZ 1 (al_ngroups w - 1)) faded)).
  { rewrite update_groups_updated, Htk, Hng.
    rewrite (groups_updated_rest t 0 (al_ngroups w) later) by lia.
    rewrite Z.add_0_l, Hstep. now replace (al_ngroups w - 0 - 1) with (al_ngroups w - 1) by lia. }
  assert (Hg0 : grp_get (al_groups faded) 0 =
                (if k <? SOUND_FADEOUT then g1 else set_g_state VOICE_PLAYING g1)).
  { subst faded. destruct w. cbn in *. apply grp_get_arr_set_eq; [lia | exact Hlen]. }
  split; [reflexivity |]. split; [exact Hel |]. split; [exact Hall |]. split.
  - intros Hnone. rewrite Hall. f_equal. apply groups_updated_idle.
    intros j Hj. apply elem_of_seqZ in Hj.
    assert (E : grp_get (al_groups faded) j = grp_get (al_groups w) j).
    { subst faded. destruct w. cbn. apply grp_get_arr_set_ne; lia. }
    rewrite E. apply Hnone. lia.
  - rewrite Hall. cbn [snd].
    assert (Hnot : 0 ∉ seqZ 1 (al_ngroups w - 1)) by (rewrite elem_of_seqZ; lia).
    destruct (groups_updated_frame t 0 _ faded ltac:(lia) Hnot) as (_ & -> & _ & _).
    exact Hg0.
Qed.
End FadeLifeProofs.

Lemma pauseGroup_acts_on_members_only_witness :
  let w := two_groups_world in
  (0 <= 1 < al_ngroups w) /\
  g_id (grp_get (al_groups w) 1) = 2 /\
  (forall k, 0 <= k < 1 -> g_id (grp_get (al_groups w) k) <> 2) /\
  state_laws ref_device /\
  map (source_state (snd (sound_al_pauseGroup 2 w))) [1; 2; 3; 4]
    = [AL_PLAYING; AL_PLAYING; AL_PAUSED; AL_PAUSED].
Proof.
  intros w.
  assert (Hi : 0 <= 1 < al_ngroups w) by (vm_compute; split; discriminate || reflexivity).
  assert (Hid : g_id (grp_get (al_groups w) 1) = 2) by reflexivity.
  assert (Hfirst : forall k, 0 <= k < 1 -> g_id (grp_get (al_groups w) k) <> 2).
  { intros k Hk. assert (k = 0) as -> by lia. vm_compute. discriminate. }
  repeat (split; [assumption || exact ref_state_laws |]).
  destruct (pauseGroup_acts_on_members_only w 2 1 Hi Hid Hfirst) as (_ & _ & Hst).
  destruct (Hst ref_state_laws) as [Hp _]. cbn [map]. rewrite !Hp. reflexivity.
Defined.

Lemma unknown_group_is_reported_witness :
  let w := two_groups_world in
  (forall k, 0 <= k < al_ngroups w -> g_id (grp_get (al_groups w) k) <> 3) /\
  fst (sound_al_playGroup 3 (AlSound 7) 1 w) = -1 /\
  trace (snd (sound_al_pauseGroup 3 w)) = [LogWarn "Group '%d' not found." [ArgInt 3]].
Proof.
  intros w.
  assert (Hnone : forall k, 0 <= k < al_ngroups w -> g_id (grp_get (al_groups w) k) <> 3).
  { intros k Hk. change (al_ngroups w) with 2 in Hk.
    assert (k = 0 \/ k = 1) as [-> | ->] by lia; vm_compute; discriminate. }
  split; [exact Hnone |].
  destruct (unknown_group_is_reported w 3 (AlSound 7) 1 Hnone) as (-> & -> & _).
  split; reflexivity.
Defined.

Lemma createGroup_reserves_top_sources_witness :
  let w := two_free_world in
  let created := sound_al_createGroup 2 w in
  (0 <= 2 <= source_nstack w) /\ 0 <= al_ngroups w /\
  (0 <= source_ntotal w <= Z.of_nat (length (source_total w))) /\
  fst created = 1 /\
  source_nstack (snd created) = 0 /\
  arr_get (g_sources (grp_get (al_groups (snd created)) 0)) 0 = 2 /\
  arr_get (g_sources (grp_get (al_groups (snd created)) 0)) 1 = 1 /\
  general_sources (snd created) = [].
Proof.
  intros w created.
  assert (Hsize : 0 <= 2 <= source_nstack w) by (vm_compute; split; discriminate).
  assert (Hng : 0 <= al_ngroups w) by (vm_compute; discriminate).
  assert (Hnt : 0 <= source_ntotal w <= Z.of_nat (length (source_total w)))
    by (vm_compute; split; discriminate).
  repeat (split; [assumption |]).
  pose proof (createGroup_reserves_top_sources w 2 Hsize Hng Hnt) as H.
  cbv zeta in H. fold created in H.
  destruct H as (Hret & _ & _ & _ & _ & _ & Hsrc & _ & Hns & _ & Hgen & _).
  split; [exact Hret |]. split; [exact Hns |].
  split; [apply (Hsrc 0); lia |]. split; [apply (Hsrc 1); lia |].
  rewrite Hgen. reflexivity.
Defined.

Lemma group_sources_escape_global_pause_witness :
  let w := ref_world [1; 2; 3] [1; 2; 3] 3 [] [AL_PLAYING; AL_PLAYING; AL_PLAYING] 0 in
  let w' := snd (sound_al_createGroup 1 w) in
  state_laws ref_device /\
  (0 <= 1 <= source_nstack w) /\ 0 <= al_ngroups w /\
  (0 <= source_ntotal w <= Z.of_nat (length (source_total w))) /\
  NoDup (general_sources w) /\
  3 ∈ taken_sources w 1 /\
  source_state (snd (sound_al_pause w')) 3 = AL_PLAYING.
Proof.
  intros w w'.
  assert (Hsize : 0 <= 1 <= source_nstack w) by (vm_compute; split; discriminate).
  assert (Hng : 0 <= al_ngroups w) by (vm_compute; discriminate).
  assert (Hnt : 0 <= source_ntotal w <= Z.of_nat (length (source_total w)))
    by (vm_compute; split; discriminate).
  assert (Hnd : NoDup (general_sources w)).
  { change (general_sources w) with [1; 2; 3].
    repeat (apply NoDup_cons; split); [| | | apply NoDup_nil_2];
      rewrite ?elem_of_cons, ?elem_of_nil; intuition discriminate. }
  assert (Hy : 3 ∈ taken_sources w 1)
    by (change (taken_sources w 1) with [3]; apply list_elem_of_singleton; reflexivity).
  split; [exact ref_state_laws |].
  repeat (split; [assumption |]).
  destruct (group_sources_escape_global_pause w 1 3 ref_state_laws Hsize Hng Hnt Hnd Hy)
    as (_ & Hp & _).
  fold w' in Hp. rewrite Hp. reflexivity.
Defined.

Lemma createGroup_uses_one_id_per_call_witness :
  0 <= al_ngroups one_free_world /\
  (0 <= al_groupidgen one_free_world < 2 ^ 31 - 1) /\
  fst (sound_al_createGroup 2 one_free_world) = 0 /\
  al_groupidgen (snd (sound_al_createGroup 2 one_free_world)) =
    al_groupidgen one_free_world + 1 /\
  fst (sound_al_createGroup 0 (snd (sound_al_createGroup 2 one_free_world))) = 2.
Proof.
  assert (Hng : 0 <= al_ngroups one_free_world) by (vm_compute; discriminate).
  assert (Hb : 0 <= al_groupidgen one_free_world < 2 ^ 31 - 1)
    by (vm_compute; split; [discriminate | reflexivity]).
  assert (Hle : forall k, 0 <= k < al_ngroups one_free_world ->
            g_id (grp_get (al_groups one_free_world) k) <= al_groupidgen one_free_world).
  { intros k Hk. change (al_ngroups one_free_world) with 0 in Hk. lia. }
  split; [exact Hng |]. split; [exact Hb |].
  destruct (createGroup_uses_one_id_per_call one_free_world 2 Hng) as (_ & _ & _ & _ & _ & _ & Hin).
  destruct (Hin Hb Hle) as (Hid & _).
  split; [reflexivity |]. split; [exact Hid | reflexivity].
Defined.

Lemma playGroup_plays_on_first_free_source_witness :
  let w := ref_world [1; 2; 3] [] 0 [AlGroup 1 [3; 2; 1] 3 VOICE_FADEOUT 0]
             [AL_PLAYING; AL_INITIAL; AL_PLAYING] 0 in
  let g := grp_get (al_groups w) 0 in
  (0 <= 0 < al_ngroups w) /\ g_id g = 1 /\ (0 <= 1 < g_nsources g) /\
  source_state w (arr_get (g_sources g) 0) = AL_PLAYING /\
  source_state w (arr_get (g_sources g) 1) = AL_INITIAL /\
  fst (sound_al_playGroup 1 (AlSound 7) 1 w) = 0 /\
  g_state (grp_get (al_groups (snd (sound_al_playGroup 1 (AlSound 7) 1 w))) 0) = VOICE_PLAYING /\
  trace (snd (sound_al_playGroup 1 (AlSound 7) 1 w)) =
    [AlGetSourcei 3 AL_SOURCE_STATE; AlGetSourcei 2 AL_SOURCE_STATE;
     AlSourcei 2 AL_BUFFER 7; AlSourcei 2 AL_SOURCE_RELATIVE AL_TRUE;
     AlSourcei 2 AL_LOOPING AL_FALSE; AlSourcePlay 2; AlGetError].
Proof.
  intros w g.
  assert (Hi : 0 <= 0 < al_ngroups w) by (vm_compute; split; discriminate || reflexivity).
  assert (Hid : g_id (grp_get (al_groups w) 0) = 1) by reflexivity.
  assert (Hfirst : forall k, 0 <= k < 0 -> g_id (grp_get (al_groups w) k) <> 1) by lia.
  assert (Hj : 0 <= 1 < g_nsources g) by (vm_compute; split; discriminate || reflexivity).
  assert (Hbusy : forall m, 0 <= m < 1 ->
             source_state w (arr_get (g_sources g) m) = AL_PLAYING \/
             source_state w (arr_get (g_sources g) m) = AL_PAUSED).
  { intros m Hm. assert (m = 0) as -> by lia. left. reflexivity. }
  assert (H1 : source_state w (arr_get (g_sources g) 1) <> AL_PLAYING)
    by (vm_compute; discriminate).
  assert (H2 : source_state w (arr_get (g_sources g) 1) <> AL_PAUSED)
    by (vm_compute; discriminate).
  assert (Hlast : 1 = g_nsources g - 1 -> source_state w (arr_get (g_sources g) 1) = AL_STOPPED)
    by (vm_compute; discriminate).
  split; [exact Hi |]. split; [exact Hid |]. split; [exact Hj |].
  split; [reflexivity |]. split; [reflexivity |].
  rewrite (playGroup_plays_on_first_free_source w 1 (AlSound 7) 1 0 1 Hi Hid Hfirst Hj Hbusy
             H1 H2 Hlast).
  repeat split.
Defined.

Lemma update_is_idle_without_fade_witness :
  (forall k, 0 <= k < al_ngroups two_groups_world ->
     g_state (grp_get (al_groups two_groups_world) k) <> VOICE_FADEOUT) /\
  sound_al_update two_groups_world = (tt, two_groups_world).
Proof.
  assert (Hnone : forall k, 0 <= k < al_ngroups two_groups_world ->
            g_state (grp_get (al_groups two_groups_world) k) <> VOICE_FADEOUT).
  { intros k Hk. change (al_ngroups two_groups_world) with 2 in Hk.
    assert (k = 0 \/ k = 1) as [-> | ->] by lia; vm_compute; discriminate. }
  split; [exact Hnone | exact (update_is_idle_without_fade two_groups_world Hnone)].
Defined.

Lemma fade_runs_on_elapsed_time_witness :
  let w := set_ticks (2 ^ 32 - 10) two_groups_world in
  let w1 := snd (sound_al_stopGroup 1 w) in
  0 < al_ngroups w /\ (0 < length (al_groups w))%nat /\
  g_id (grp_get (al_groups w) 0) = 1 /\ (0 <= 30 < 2 ^ 32) /\
  g_fade_timer (grp_get (al_groups w1) 0) = -10 /\
  to_uint32 (ticks w + 30) = 20 /\
  g_state (grp_get (al_groups (snd (sound_al_update (set_ticks (ticks w + 30) w1)))) 0)
    = VOICE_FADEOUT /\
  trace (snd (sound_al_update (set_ticks (ticks w + 30) w1))) =
    map (fun s => AlSourcef s AL_GAIN (float_mul (fade_factor 30) (float_of_Z 1)))
      (g_sources (grp_get (al_groups w) 0)) ++ [AlGetError].
Proof.
  intros w w1.
  assert (Hn : 0 < al_ngroups w) by reflexivity.
  assert (Hlen : (0 < length (al_groups w))%nat) by (vm_compute; lia).
  assert (Hid : g_id (grp_get (al_groups w) 0) = 1) by reflexivity.
  assert (Hk : 0 <= 30 < 2 ^ 32) by (split; [discriminate | reflexivity]).
  repeat (split; [assumption |]).
  pose proof (fade_runs_on_elapsed_time w 1 30 Hn Hlen Hid Hk) as H.
  cbv zeta in H. fold w1 in H. destruct H as (Hw1 & _ & _ & Hall & Hg).
  assert (Hnone : forall j, 1 <= j < al_ngroups w ->
            g_state (grp_get (al_groups w) j) <> VOICE_FADEOUT).
  { intros j Hj. change (al_ngroups w) with 2 in Hj. assert (j = 1) as -> by lia.
    vm_compute. discriminate. }
  split; [rewrite Hw1; reflexivity |]. split; [reflexivity |].
  split; [rewrite Hg; reflexivity |].
  rewrite (Hall Hnone). reflexivity.
Defined.

Lemma at_cursor_end (h rest : list byte) :
  at_cursor (h ++ rest) (Z.of_nat (length h)) rest.
Proof.
  split; [rewrite length_app; lia |]. rewrite Nat2Z.id. apply drop_app_length.
Qed.

Lemma at_cursor_unique (d : list byte) (p q : Z) (r : list byte) :
  at_cursor d p r -> at_cursor d q r -> p = q.
Proof.
  intros [Hp Ep] [Hq Eq].
  assert (H1 : length (drop (Z.to_nat p) d) = length r) by now rewrite Ep.
  assert (H2 : length (drop (Z.to_nat q) d) = length r) by now rewrite Eq.
  rewrite length_drop in H1, H2. lia.
Qed.

Lemma wellformed_fields_fit (f : wav_file) : wav_wellformed f -> wav_fields_fit f.
Proof.
  intros (Hc & Hch & Hb & Hr & Hbr & Hba & He & Hf & Hl).
  repeat split; try assumption; try lia;
    try (destruct Hch as [-> | ->]; vm_compute; congruence);
    try (destruct Hb as [-> | ->]; vm_compute; congruence).
  all: rewrite Hc; vm_compute; congruence.
Qed.

Section WavHeaderProofs.
Context {D : Type} `{HAL : OpenAL D}.

(** The walk over the head of a container whose fields fit: a
    compression other than 1 is refused at once, a channel count of 0
    makes the division of the sample width trap, and otherwise the load
    goes on to the payload with the sample width divided by the channel
    count. *)
Lemma loadWav_header (fuel : nat) (snd : alSound) (f : wav_file) (rest : list byte)
    (w : world D) :
  wav_fields_fit f ->
  sound_al_loadWav fuel snd (rw_open (wav_head f ++ rest)) w =
    if negb (wav_compression f =? 1) then
      (Returns (-1, snd),
       set_trace (trace w ++ [LogWarn "Unsupported WAVE chunk compression '0x%04x'."
                                [ArgInt (wav_compression f)]]) w)
    else if wav_channels f =? 0 then (Traps, w)
    else loadWav_data fuel snd
           (RWops (wav_head f ++ rest) (Z.of_nat (length (wav_head f))))
           (wav_channels f) (wav_bits f / wav_channels f) (wav_rate f)
           (Z.of_nat (length (wav_payload f))) w.
Proof.
  intros (Hcomp & Hch & Hbits & Hrate & Hbr & Hba & Hextra & Hfact & Hlen).
  pose proof (at_cursor_end (wav_head f) rest) as Hfin.
  set (d := wav_head f ++ rest) in *.
  assert (Hc : at_cursor d 0 d) by (split; [lia | reflexivity]).
  unfold d at 2 in Hc. unfold wav_head, wav_chunk_heads in Hc.
  rewrite <- !app_assoc in Hc.
  unfold sound_al_loadWav, rw_open.
  unfold bind at 1.
  destruct (wavReadCmp_match d _ "RIFF" _ w eq_refl Hc) as [E Hc1]. rewrite E. clear E Hc.
  cbn [Z.eqb negb]. unfold bind at 1.
  destruct (wavGetLen32_mod d _ _ 0 _ w Hc1) as [E Hc2]. rewrite E. clear E Hc1.
  cbn [Z.eqb negb]. unfold bind at 1.
  destruct (wavReadCmp_match d _ "WAVE" _ w eq_refl Hc2) as [E Hc3]. rewrite E. clear E Hc2.
  cbn [Z.eqb negb]. unfold bind at 1.
  destruct (wavReadCmp_match d _ "fmt " _ w eq_refl Hc3) as [E Hc4]. rewrite E. clear E Hc3.
  cbn [Z.eqb negb]. unfold bind at 1.
  destruct (wavGetLen32_value d _ (16 + Z.of_nat (length (wav_fmt_extra f))) 0 _ w
              ltac:(plia) Hc4) as [E Hc5]. rewrite E. clear E Hc4.
  cbn [Z.eqb negb]. unfold bind at 1.
  destruct (wavGetLen16_value d _ (wav_compression f) 0 _ w Hcomp Hc5) as [E Hc6].
  rewrite E. clear E Hc5.
  cbn [Z.eqb negb].
  destruct (Z.eqb_spec (wav_compression f) 1) as [_ | _]; cbn [negb].
  2:{ open_world w. unfold_monad. reflexivity. }
  unfold bind at 1.
  destruct (wavGetLen16_value d _ (wav_channels f) 0 _ w Hch Hc6) as [E Hc7].
  rewrite E. clear E Hc6.
  cbn [Z.eqb negb]. unfold bind at 1.
  destruct (wavGetLen32_value d _ (wav_rate f) 0 _ w ltac:(plia) Hc7) as [E Hc8].
  rewrite E. clear E Hc7.
  cbn [Z.eqb negb]. unfold bind at 1.
  destruct (wavGetLen32_value d _ (wav_byte_rate f) 0 _ w Hbr Hc8) as [E Hc9].
  rewrite E. clear E Hc8.
  cbn [Z.eqb negb]. unfold bind at 1.
  destruct (wavGetLen16_value d _ (wav_block_align f) 0 _ w Hba Hc9) as [E Hc10].
  rewrite E. clear E Hc9.
  cbn [Z.eqb negb]. unfold bind at 1.
  destruct (wavGetLen16_value d _ (wav_bits f) 0 _ w Hbits Hc10) as [E Hc11].
  rewrite E. clear E Hc10.
  cbn [Z.eqb negb].
  destruct (Z.eqb_spec (wav_channels f) 0) as [_ | Hne]; [reflexivity |].
  assert (Halign : to_uint16 (wav_bits f / wav_channels f) = wav_bits f / wav_channels f).
  { unfold to_uint16. apply Z.mod_small. split; [apply Z.div_pos; lia |].
    apply Z.le_lt_trans with (wav_bits f); [| lia].
    apply Z.div_le_upper_bound; [lia |]. nia. }
  rewrite Halign.
  assert (Hseek : to_int (to_uint32 (16 + Z.of_nat (length (wav_fmt_extra f))
                                     - to_uint32 (to_uint32 (to_uint32 (to_uint32
                                         (to_uint32 (to_uint32 (0 + 2) + 2) + 4) + 4) + 2) + 2)))
                  = Z.of_nat (length (wav_fmt_extra f))).
  { change (to_uint32 (to_uint32 (to_uint32 (to_uint32
              (to_uint32 (to_uint32 (0 + 2) + 2) + 4) + 4) + 2) + 2)) with 16.
    replace (16 + Z.of_nat (length (wav_fmt_extra f)) - 16)
      with (Z.of_nat (length (wav_fmt_extra f))) by lia.
    rewrite (to_uint32_small (Z.of_nat (length (wav_fmt_extra f)))) by plia.
    apply to_int_small. plia. }
  rewrite Hseek, (SDL_RWseek_skip d _ (wav_fmt_extra f) _ Hc11).
  apply at_cursor_advance in Hc11.
  destruct (loadWav_chunks_walk fuel snd d _ f rest (wav_channels f)
              (wav_bits f / wav_channels f) (wav_rate f)
              (16 + Z.of_nat (length (wav_fmt_extra f))) w Hc11 Hfact ltac:(plia))
    as (p & -> & Hp).
  now rewrite (at_cursor_unique d _ _ rest Hp Hfin).
Qed.
End WavHeaderProofs.

Lemma byte_val_inj (a b : byte) : byte_val a = byte_val b -> a = b.
Proof.
  unfold byte_val. intros E. apply N2Z.inj in E.
  pose proof (Byte.of_to_N a) as Ha. pose proof (Byte.of_to_N b) as Hb.
  rewrite E in Ha. congruence.
Qed.

(** [memcmp] answers 0 exactly for equal bytes. *)
Lemma memcmp_at_zero (a b : list byte) (n : nat) :
  length a = n -> length b = n -> memcmp_at a b n = 0 -> a = b.
Proof.
  revert a b. induction n as [|n IH]; intros [|x a] [|y b] Ha Hb; try discriminate;
    [reflexivity |].
  cbn [memcmp_at hd tl].
  destruct (Z.eqb_spec (byte_val x - byte_val y) 0) as [E | E]; [| intros; contradiction].
  intros Hz. f_equal; [apply byte_val_inj; lia |].
  apply IH; [now injection Ha | now injection Hb | exact Hz].
Qed.

Section WavTheorems.
Context {D : Type} `{HAL : OpenAL D}.

(** X17.  A well-formed mono container is loaded as it declares: the
    load returns 0 with a new buffer that holds the payload, in the mono
    format of the declared sample width, with the declared rate and the
    length of the payload.  Extra bytes in the format chunk, a [fact]
    chunk and bytes after the payload are skipped, and the byte rate and
    block align fields are not looked at. *)
Theorem mono_wav_loads_as_declared (fuel : nat) (snd : alSound) (f : wav_file)
    (more : list byte) (w : world D) :
  wav_wellformed f -> wav_channels f = 1 ->
  sound_al_loadWav (S fuel) snd (rw_open (wav_bytes f ++ more)) w =
    wav_uploaded (format_of 1 (wav_bits f)) (wav_payload f) (wav_rate f) w /\
  format_channels (format_of 1 (wav_bits f)) = 1 /\
  format_bits (format_of 1 (wav_bits f)) = wav_bits f.
Proof.
  intros Hwf Hch. rewrite (loadWav_wellformed fuel snd f more w Hwf), Hch. cbn [Z.eqb Pos.eqb].
  split; [reflexivity |].
  destruct Hwf as (_ & _ & Hbits & _). now apply format_of_mono.
Qed.

(** The end of the load for a channel count that is neither 1 nor 2. *)
Lemma loadWav_data_channels (fuel : nat) (snd : alSound) (d : list byte) (p : Z)
    (payload r : list byte) (channels align rate : Z) (w : world D) :
  at_cursor d p (payload ++ r) -> Z.of_nat (length payload) < 2 ^ 31 ->
  channels <> 1 -> channels <> 2 ->
  loadWav_data (S fuel) snd (RWops d p) channels align rate (Z.of_nat (length payload)) w =
    (Returns (-1, snd),
     set_trace (trace w ++ [LogWarn "Unsupported number of channels (%d) in WAVE file."
                              [ArgInt channels]]) w).
Proof.
  intros Hc Hlen H1 H2. unfold loadWav_data.
  destruct (wav_drain_full fuel d p payload r Hc Hlen) as [rw' ->].
  destruct (Z.eqb_spec channels 2); [contradiction |].
  destruct (Z.eqb_spec channels 1); [contradiction |].
  open_world w. unfold_monad. reflexivity.
Qed.

(** X18.  Formats the loader does not support are refused with -1 and a
    log line, and no buffer is made.  A compression code other than 1 is
    refused as soon as the field is read, whatever follows the header.  A
    channel count of 3 or more is refused only after the payload loop:
    with the whole payload in the stream the load returns -1, and with a
    payload that is cut short it does not return at all and logs
    nothing. *)
Theorem unsupported_wav_is_refused (fuel : nat) (snd : alSound) (f : wav_file)
    (more : list byte) (w : world D) :
  wav_fields_fit f ->
  (wav_compression f <> 1 ->
   forall rest,
     sound_al_loadWav fuel snd (rw_open (wav_head f ++ rest)) w =
       (Returns (-1, snd),
        set_trace (trace w ++ [LogWarn "Unsupported WAVE chunk compression '0x%04x'."
                                 [ArgInt (wav_compression f)]]) w)) /\
  (wav_compression f = 1 -> 3 <= wav_channels f ->
   sound_al_loadWav (S fuel) snd (rw_open (wav_bytes f ++ more)) w =
     (Returns (-1, snd),
      set_trace (trace w ++ [LogWarn "Unsupported number of channels (%d) in WAVE file."
                               [ArgInt (wav_channels f)]]) w)) /\
  (wav_compression f = 1 -> 3 <= wav_channels f ->
   forall k, (k < length (wav_payload f))%nat ->
     sound_al_loadWav fuel snd (rw_open (wav_head f ++ take k (wav_payload f))) w =
       (OutOfFuel, w)).
Proof.
  intros Hfit. split; [| split].
  - intros Hc rest. rewrite (loadWav_header fuel snd f _ w Hfit).
    destruct (Z.eqb_spec (wav_compression f) 1); [contradiction | reflexivity].
  - intros Hc Hch. unfold wav_bytes. rewrite <- app_assoc.
    rewrite (loadWav_header (S fuel) snd f _ w Hfit), Hc. cbn [Z.eqb Pos.eqb negb].
    destruct (Z.eqb_spec (wav_channels f) 0); [lia |].
    destruct Hfit as (_ & _ & _ & _ & _ & _ & _ & _ & Hlen).
    apply (loadWav_data_channels fuel snd _ _ (wav_payload f) more);
      [apply at_cursor_end | exact Hlen | lia | lia].
  - intros Hc Hch k Hk.
    rewrite (loadWav_header fuel snd f _ w Hfit), Hc. cbn [Z.eqb Pos.eqb negb].
    destruct (Z.eqb_spec (wav_channels f) 0); [lia |].
    destruct Hfit as (_ & _ & _ & _ & _ & _ & _ & _ & Hlen).
    unfold loadWav_data.
    assert (Hav : rw_available (RWops (wav_head f ++ take k (wav_payload f))
                                  (Z.of_nat (length (wav_head f)))) = Z.of_nat k).
    { unfold rw_available. cbn [rw_data rw_here]. rewrite length_app, length_take. lia. }
    rewrite wav_drain_short_stream;
      [reflexivity | lia | rewrite Hav; lia | rewrite Hav; lia | lia].
Qed.

(** X19.  A container that declares 0 channels makes the loader divide
    the sample width by zero: the load traps after the format fields are
    read, whatever follows them. *)
Theorem zero_channels_divides_by_zero (fuel : nat) (snd : alSound) (f : wav_file)
    (rest : list byte) (w : world D) :
  wav_fields_fit f -> wav_compression f = 1 -> wav_channels f = 0 ->
  sound_al_loadWav fuel snd (rw_open (wav_head f ++ rest)) w = (Traps, w).
Proof.
  intros Hfit Hc Hch. rewrite (loadWav_header fuel snd f rest w Hfit), Hc, Hch. reflexivity.
Qed.

(** X20.  A stream that does not begin with the four bytes "RIFF" is
    refused with -1 and no device call: with fewer than four bytes the
    log says that the bytes could not be read and that the header was not
    found, with four other bytes only that the header was not found. *)
Theorem stream_without_riff_is_refused (fuel : nat) (snd : alSound) (d : list byte)
    (w : world D) :
  (length d < 4)%nat \/ ((4 <= length d)%nat /\ take 4 d <> list_byte_of_string "RIFF") ->
  sound_al_loadWav fuel snd (rw_open d) w =
    (Returns (-1, snd),
     set_trace (trace w ++
                (if (length d <? 4)%nat then [LogWarn "Did not read expected bytes." []] else [])
                ++ [LogWarn "RIFF header not found." []]) w).
Proof.
  intros Hd. unfold sound_al_loadWav, rw_open. unfold bind at 1.
  destruct Hd as [Hshort | [Hlong Hne]].
  - unfold sound_al_wavReadCmp, SDL_RWread, rw_available. cbn [rw_data rw_here].
    cbn [Z.leb Z.compare orb]. rewrite Z.sub_0_r, Z.mul_1_l.
    destruct (Nat.ltb_spec (length d) 4); [| lia].
    rewrite Z.min_r by lia. rewrite Z.div_small by lia. cbn [Z.eqb negb].
    open_world w. unfold_monad. rewrite <- app_assoc. reflexivity.
  - destruct (Nat.ltb_spec (length d) 4); [lia |].
    assert (Hlen4 : length (take 4 d) = 4%nat) by (rewrite length_take; lia).
    assert (Hc : at_cursor d 0 (take 4 d ++ drop 4 d))
      by (split; [lia | now rewrite take_drop]).
    pose proof (SDL_RWread_chunk d 0 (take 4 d) (drop 4 d) Hc) as Hread.
    rewrite Hlen4 in Hread. change (Z.of_nat 4) with 4 in Hread.
    unfold sound_al_wavReadCmp. rewrite Hread by (intros E; rewrite E in Hlen4; discriminate).
    cbn [Z.eqb Pos.eqb negb]. unfold ret at 1.
    destruct (Z.eqb_spec (memcmp (take 4 d) (list_byte_of_string "RIFF") 4) 0) as [E | E].
    + exfalso. apply Hne. apply (memcmp_at_zero _ _ 4); [exact Hlen4 | reflexivity | exact E].
    + cbn [negb]. open_world w. unfold_monad. reflexivity.
Qed.
End WavTheorems.

Section WavFailureProofs.
Context {D : Type} `{HAL : OpenAL D}.

Lemma only_logs_refl (w : world D) : only_logs w w.
Proof. exists []. split; [constructor |]. rewrite app_nil_r. now destruct w. Qed.

Lemma only_logs_warn (w : world D) (fmt : string) (args : list warn_arg) :
  only_logs w (snd (WARN fmt args w)).
Proof.
  exists [LogWarn fmt args]. split; [repeat constructor |]. now destruct w.
Qed.

Lemma logs_failure_after (w u v : world D) :
  only_logs w u -> logs_failure u v -> logs_failure w v.
Proof.
  intros (e1 & H1 & ->) (e2 & Hne & H2 & ->). exists (e1 ++ e2).
  split; [| split].
  - destruct e1; [exact Hne | discriminate].
  - now apply Forall_app.
  - destruct w. cbn. now rewrite app_assoc.
Qed.

Lemma fwb_weaken (sound : alSound) (w u : world D) res :
  only_logs w u -> fails_without_buffer sound u res -> fails_without_buffer sound w res.
Proof.
  unfold fails_without_buffer. intros Hu. destruct (fst res) as [[r s'] | |]; try easy.
  intros [H0 | (Hr & Hs & Hl)]; [now left |]. right. repeat split; try assumption.
  eapply logs_failure_after; eassumption.
Qed.

(** The error exit after a log line. *)
Lemma fwb_warn (sound : alSound) (w : world D) (fmt : string) (args : list warn_arg) :
  fails_without_buffer sound w ((WARN fmt args ;; ret (Returns (-1, sound))) w).
Proof.
  unfold fails_without_buffer. destruct w. unfold_monad. right. repeat split.
  exists [LogWarn fmt args]. repeat split; [discriminate | repeat constructor].
Qed.

Lemma wavReadCmp_logs (rw : SDL_RWops) (cmp : string) (n : Z) (w : world D) :
  only_logs w (snd (sound_al_wavReadCmp rw cmp n w)).
Proof.
  unfold sound_al_wavReadCmp. destruct (SDL_RWread rw n 1) as [[len buf] rw'].
  destruct (negb (len =? 1)); [| apply only_logs_refl].
  unfold bind, ret. destruct (WARN _ _ w) as [[] u] eqn:E.
  pose proof (only_logs_warn w "Did not read expected bytes." []) as H. now rewrite E in H.
Qed.

Lemma wavGetLen32_logs (rw : SDL_RWops) (out : Z) (w : world D) :
  only_logs w (snd (sound_al_wavGetLen32 rw out w)).
Proof.
  unfold sound_al_wavGetLen32. destruct (SDL_RWread rw 4 1) as [[len buf] rw'].
  destruct (negb (len =? 1)); [| apply only_logs_refl].
  unfold bind, ret. destruct (WARN _ _ w) as [[] u] eqn:E.
  pose proof (only_logs_warn w "Did not read expected bytes." []) as H. now rewrite E in H.
Qed.

Lemma wavGetLen16_logs (rw : SDL_RWops) (out : Z) (w : world D) :
  only_logs w (snd (sound_al_wavGetLen16 rw out w)).
Proof.
  unfold sound_al_wavGetLen16. destruct (SDL_RWread rw 2 1) as [[len buf] rw'].
  destruct (negb (len =? 1)); [| apply only_logs_refl].
  unfold bind, ret. destruct (WARN _ _ w) as [[] u] eqn:E.
  pose proof (only_logs_warn w "Did not read expected bytes." []) as H. now rewrite E in H.
Qed.

(** One read of the walk: the reader has only logged, and the walk goes
    on from the world it left. *)
Ltac wav_read L :=
  unfold bind at 1;
  match goal with
  | |- fails_without_buffer ?s ?w (match ?R with _ => _ end) =>
      let Hlog := fresh "Hlog" in
      assert (Hlog : only_logs w (snd R)) by apply L;
      let u := fresh "u" in
      destruct R as [[? ?] u]; cbn [snd] in Hlog;
      apply (fwb_weaken s w u _ Hlog); clear Hlog;
      repeat match goal with p : (_ * _)%type |- _ => destruct p end
  end.

Ltac wav_check :=
  match goal with
  | |- fails_without_buffer _ _ ((if negb ?c then _ else _) _) =>
      destruct c; cbn [negb]; [| apply fwb_warn]
  end.

Lemma loadWav_data_fails_without_buffer (fuel : nat) (sound : alSound) (rw : SDL_RWops)
    (channels align rate chunklen : Z) (w : world D) :
  fails_without_buffer sound w (loadWav_data fuel sound rw channels align rate chunklen w).
Proof.
  unfold loadWav_data.
  destruct (wav_drain fuel chunklen _) as [[[i buf] rw'] |]; [| exact I].
  assert (Hup : forall format,
            fails_without_buffer sound w
              ((b <- alGenBuffers ;;
                alBufferData (snd_buf (AlSound b)) format buf (to_int chunklen) (to_int rate) ;;
                ret (Returns (0, AlSound b))) w)).
  { intros format. unfold fails_without_buffer. destruct w. unfold_al. unfold_monad.
    destruct (dev_GenBuffers _) as [b dv]. cbn. now left. }
  destruct (channels =? 2); [| destruct (channels =? 1)];
    try (destruct (align =? 16); [apply Hup |]; destruct (align =? 8); [apply Hup |]);
    apply fwb_warn.
Qed.

Lemma loadWav_chunks_fails_without_buffer (fuel : nat) (sound : alSound) (rw : SDL_RWops)
    (channels align rate chunklen : Z) (w : world D) :
  fails_without_buffer sound w (loadWav_chunks fuel sound rw channels align rate chunklen w).
Proof.
  unfold loadWav_chunks.
  destruct (SDL_RWread rw 4 1) as [[len magic] rw1].
  destruct (negb (len =? 1)); [apply fwb_warn |].
  destruct (memcmp magic (list_byte_of_string "fact") 4 =? 0).
  - unfold bind at 1. unfold bind at 1.
    pose proof (wavGetLen32_logs rw1 chunklen w) as Hlog.
    destruct (sound_al_wavGetLen32 rw1 chunklen w) as [[[e len2] rw2] u]. cbn [snd] in Hlog.
    apply (fwb_weaken sound w u _ Hlog). clear Hlog.
    destruct (negb (e =? 0)).
    + unfold bind, ret. pose proof (fwb_warn sound u "Unable to get WAVE chunk data length." [])
        as Hw. unfold bind, ret in Hw. destruct (WARN _ _ u) as [[] v]. exact Hw.
    + destruct (SDL_RWread (SDL_RWseek rw2 (to_int len2)) 4 1) as [[len3 magic3] rw3].
      destruct (negb (len3 =? 1)).
      * unfold bind, ret. pose proof (fwb_warn sound u "Unable to read chunk header." []) as Hw.
        unfold bind, ret in Hw. destruct (WARN _ _ u) as [[] v]. exact Hw.
      * unfold ret at 1.
        destruct (negb (memcmp magic3 (list_byte_of_string "data") 4 =? 0)); [apply fwb_warn |].
        wav_read wavGetLen32_logs. wav_check. apply loadWav_data_fails_without_buffer.
  - unfold bind at 1. unfold ret at 1.
    destruct (negb (memcmp magic (list_byte_of_string "data") 4 =? 0)); [apply fwb_warn |].
    wav_read wavGetLen32_logs. wav_check. apply loadWav_data_fails_without_buffer.
Qed.

Lemma loadWav_fails_without_buffer (fuel : nat) (sound : alSound) (rw : SDL_RWops)
    (w : world D) :
  fails_without_buffer sound w (sound_al_loadWav fuel sound rw w).
Proof.
  unfold sound_al_loadWav.
  wav_read wavReadCmp_logs. wav_check.
  wav_read wavGetLen32_logs. wav_check.
  wav_read wavReadCmp_logs. wav_check.
  wav_read wavReadCmp_logs. wav_check.
  wav_read wavGetLen32_logs. wav_check.
  wav_read wavGetLen16_logs. wav_check. wav_check.
  wav_read wavGetLen16_logs. wav_check.
  wav_read wavGetLen32_logs. wav_check.
  wav_read wavGetLen32_logs. wav_check.
  wav_read wavGetLen16_logs. wav_check.
  wav_read wavGetLen16_logs. wav_check.
  match goal with |- context [if ?c =? 0 then _ else _] => destruct (c =? 0) end; [exact I |].
  apply loadWav_chunks_fails_without_buffer.
Qed.

(** X21.  Whatever the stream holds, a load of a WAV that does not
    return 0 returns -1, leaves the sound as it was, and has changed
    nothing but the log, to which it has added at least one line: no
    buffer is made and no device call happens on any error path. *)
Theorem failed_wav_load_only_logs (fuel : nat) (sound : alSound) (rw : SDL_RWops)
    (w : world D) :
  match fst (sound_al_loadWav fuel sound rw w) with
  | Returns (r, sound') =>
      r = 0 \/
      (r = -1 /\ sound' = sound /\
       exists lines, lines <> [] /\ Forall is_warning lines /\
         snd (sound_al_loadWav fuel sound rw w) = set_trace (trace w ++ lines) w)
  | _ => True
  end.
Proof. exact (loadWav_fails_without_buffer fuel sound rw w). Qed.

Lemma loadOgg_fails_without_buffer (fuel : nat) (sound : alSound) (vf : OggVorbis_File)
    (w : world D) :
  fails_without_buffer sound w (sound_al_loadOgg fuel sound vf w).
Proof.
  unfold sound_al_loadOgg. destruct (negb (ov_open_result vf =? 0)); [apply fwb_warn |].
  destruct (ogg_drain _ _ _) as [[[i buf] vf'] | |]; try exact I.
  unfold fails_without_buffer. destruct w. unfold_al. unfold_monad.
  destruct (dev_GenBuffers _) as [b dv]. cbn. now left.
Qed.
End WavFailureProofs.

(** With the decoder delivering the promised bytes packet by packet, the
    loop of [sound_al_loadOgg] ends with the bytes in the buffer. *)
Lemma ogg_drain_pcm (channels rate total : Z) (chunks : list (list byte)) :
  forall (fuel : nat) (done : list byte) (len : Z),
    (length chunks <= fuel)%nat ->
    len = Z.of_nat (length done) + Z.of_nat (length (concat chunks)) ->
    len < 2 ^ 31 ->
    exists vf',
      ogg_drain fuel len
        (Z.of_nat (length done), done ++ replicate (length (concat chunks)) x00,
         ogg_of channels rate total chunks)
      = Returns (len, done ++ concat chunks, vf').
Proof.
  induction chunks as [|c cs IH]; intros fuel done len Hfuel Hlen Hmax.
  - cbn [concat length replicate] in *. rewrite Z.add_0_r in Hlen. subst len.
    eexists. destruct fuel; cbn [ogg_drain ogg_drain_cond]; rewrite Z.ltb_irrefl; reflexivity.
  - cbn [concat] in *. rewrite length_app in Hlen.
    destruct (Z.ltb_spec (Z.of_nat (length done)) len) as [Hlt | Hge].
    + destruct fuel as [|fuel]; [cbn in Hfuel; lia |].
      cbn [ogg_drain ogg_drain_cond fst].
      destruct (Z.ltb_spec (Z.of_nat (length done)) len); [| lia].
      unfold ogg_drain_step, ov_read, ogg_of, store_at.
      destruct (Z.ltb_spec (Z.of_nat (length done)) 0); [lia |].
      cbn [ov_stream map ov_open_result ov_channels ov_rate ov_total].
      assert (Hreq : Z.to_nat (to_int (to_uint32 (len - Z.of_nat (length done))))
                     = (length c + length (concat cs))%nat).
      { rewrite to_uint32_small, to_int_small by plia. lia. }
      rewrite Hreq, length_app.
      rewrite take_ge, drop_ge by lia.
      assert (Hbuf : list_inserts (Z.to_nat (Z.of_nat (length done))) c
                       (done ++ replicate (length c + length (concat cs)) x00)
                     = (done ++ c) ++ replicate (length (concat cs)) x00).
      { rewrite Nat2Z.id. replace (length done) with (length done + 0)%nat at 1 by lia.
        rewrite list_inserts_app_r, replicate_add, <- app_assoc. f_equal.
        apply list_inserts_0_r. now rewrite length_replicate. }
      rewrite Hbuf.
      replace (Z.of_nat (length done) + Z.of_nat (length c))
        with (Z.of_nat (length (done ++ c))) by (rewrite length_app; lia).
      destruct (IH fuel (done ++ c) len ltac:(cbn in Hfuel; lia)
                  ltac:(rewrite length_app; lia) Hmax) as [vf' E].
      exists vf'. unfold ogg_of in E. rewrite E. now rewrite <- app_assoc.
    + assert (H0 : (length c + length (concat cs) = 0)%nat) by lia.
      assert (Hc : c ++ concat cs = []) by (destruct (c ++ concat cs) eqn:E;
        [reflexivity | apply (f_equal (@length byte)) in E; rewrite length_app in E;
         cbn in E; lia]).
      rewrite Hc. cbn [length replicate]. rewrite !app_nil_r.
      assert (len = Z.of_nat (length done)) as -> by lia.
      eexists. destruct fuel; cbn [ogg_drain ogg_drain_cond]; rewrite Z.ltb_irrefl; reflexivity.
Qed.


Section OggTheorems.
Context {D : Type} `{HAL : OpenAL D}.

(** X22.  A Vorbis file that opens and whose decoder delivers, packet by
    packet, exactly the bytes its header promises is loaded with 0 into a
    new buffer that holds these bytes in order, with the rate of the
    file.  The format is 16-bit mono for one channel and 16-bit stereo
    for every other channel count. *)
Theorem ogg_loads_decoded_packets (fuel : nat) (sound : alSound)
    (channels rate total : Z) (chunks : list (list byte)) (w : world D) :
  total * channels * 2 = Z.of_nat (length (concat chunks)) ->
  Z.of_nat (length (concat chunks)) < 2 ^ 31 -> 0 <= rate < 2 ^ 31 ->
  (length chunks <= fuel)%nat ->
  sound_al_loadOgg fuel sound (ogg_of channels rate total chunks) w =
    wav_uploaded (if channels =? 1 then AL_FORMAT_MONO16 else AL_FORMAT_STEREO16)
      (concat chunks) rate w.
Proof.
  intros Htotal Hlen Hrate Hfuel. unfold sound_al_loadOgg.
  cbn [ogg_of ov_open_result ov_channels ov_rate ov_total Z.eqb negb].
  rewrite Htotal, Nat2Z.id.
  destruct (ogg_drain_pcm channels rate total chunks fuel [] (Z.of_nat (length (concat chunks)))
              Hfuel ltac:(cbn [length]; lia) Hlen) as [vf' E].
  change (Z.of_nat (length (@nil byte))) with 0 in E. cbn [app] in E.
  rewrite E. clear E.
  rewrite (to_int_small (Z.of_nat _)), (to_int_small rate) by plia.
  unfold wav_uploaded. open_world w. cbn [device trace].
  destruct (dev_GenBuffers w_device) as [b dv] eqn:Egen.
  unfold_al. unfold_monad. rewrite Egen. cbn. f_equal. world_eq.
Qed.

End OggTheorems.

Section LoadTheorems.
Context {D : Type} `{HAL : OpenAL D}.

(** X24.  A [sound_al_load] that does not return 0 returns -1, leaves
    the sound as it was and has changed nothing but the log: after the
    lines of the decoder it ends with the line that names the file.  No
    buffer is made, and the error check is not run. *)
Theorem failed_load_names_the_file (nd : ndata) (fuel : nat) (sound : alSound)
    (filename : string) (w : world D) :
  match fst (sound_al_load nd fuel sound filename w) with
  | Returns (r, sound') =>
      r = 0 \/
      (r = -1 /\ sound' = sound /\
       exists lines, lines <> [] /\ Forall is_warning lines /\
         snd (sound_al_load nd fuel sound filename w) =
           set_trace (trace w ++ lines ++
                      [LogWarn "Failed to load sound file '%s'." [ArgStr filename]]) w)
  | _ => True
  end.
Proof.
  assert (E : sound_al_load nd fuel sound filename w =
    let loaded := match ov_test_callbacks nd (ndata_rwops nd filename) with
                  | Some vf => sound_al_loadOgg fuel sound vf
                  | None => sound_al_loadWav fuel sound (ndata_rwops nd filename)
                  end w in
    match fst loaded with
    | Returns (e, s) =>
        if negb (e =? 0) then
          (Returns (e, s),
           set_trace (trace (snd loaded) ++
                      [LogWarn "Failed to load sound file '%s'." [ArgStr filename]])
             (snd loaded))
        else (Returns (0, s), snd (al_checkErr (snd loaded)))
    | Traps => (Traps, snd loaded)
    | OutOfFuel => (OutOfFuel, snd loaded)
    end).
  { unfold sound_al_load. cbv zeta. unfold bind at 1.
    destruct (match ov_test_callbacks nd (ndata_rwops nd filename) with
              | Some vf => sound_al_loadOgg fuel sound vf
              | None => sound_al_loadWav fuel sound (ndata_rwops nd filename)
              end w) as [[[e s] | |] u]; cbn [fst snd]; try reflexivity.
    destruct (negb (e =? 0)).
    - unfold_monad. reflexivity.
    - unfold bind, ret. now destruct (al_checkErr u). }
  rewrite E. clear E. cbv zeta.
  set (loaded := match ov_test_callbacks nd (ndata_rwops nd filename) with
                 | Some vf => sound_al_loadOgg fuel sound vf
                 | None => sound_al_loadWav fuel sound (ndata_rwops nd filename)
                 end w).
  assert (Hl : fails_without_buffer sound w loaded).
  { subst loaded. destruct (ov_test_callbacks nd (ndata_rwops nd filename));
      [apply loadOgg_fails_without_buffer | apply loadWav_fails_without_buffer]. }
  unfold fails_without_buffer in Hl. clearbody loaded.
  destruct loaded as [[[r s'] | |] u]; cbn [fst snd] in *; try exact I.
  destruct Hl as [-> | (-> & -> & lines & Hne & Hw & ->)].
  - cbn. now left.
  - cbn [Z.eqb negb fst snd]. right. repeat split.
    exists lines. repeat split; try assumption. destruct w. cbn.
    now rewrite <- ?app_assoc.
Qed.

(** X25.  A file in which no Vorbis stream is found and which holds a
    well-formed mono WAV container is loaded by [sound_al_load]: the
    stream is opened again and decoded, the result is 0 with the new
    buffer, and the error check runs after the upload. *)
Theorem load_decodes_wav_and_checks_errors (nd : ndata) (fuel : nat) (sound : alSound)
    (filename : string) (f : wav_file) (more : list byte) (w : world D) :
  ov_test_callbacks nd (ndata_rwops nd filename) = None ->
  ndata_rwops nd filename = rw_open (wav_bytes f ++ more) ->
  wav_wellformed f -> wav_channels f = 1 ->
  let uploaded := wav_uploaded (format_of 1 (wav_bits f)) (wav_payload f) (wav_rate f) w in
  sound_al_load nd (S fuel) sound filename w =
    (fst uploaded,
     set_trace (trace (snd uploaded) ++ checkErr_log (device (snd uploaded)))
       (set_device (snd (dev_GetError (device (snd uploaded)))) (snd uploaded))) /\
  exists b, fst uploaded = Returns (0, AlSound b).
Proof.
  intros Hogg Hrw Hwf Hch. cbv zeta.
  unfold sound_al_load. cbv zeta. rewrite Hogg, Hrw. unfold bind at 1.
  rewrite (loadWav_wellformed fuel sound f more w Hwf), Hch. cbn [Z.eqb Pos.eqb].
  unfold wav_uploaded. destruct (dev_GenBuffers (device w)) as [b dv]. cbn [fst snd].
  cbn [Z.eqb negb]. unfold bind, ret. rewrite al_checkErr_spec. split; [reflexivity | eauto].
Qed.
End LoadTheorems.

Lemma mono_wav_loads_as_declared_witness :
  wav_wellformed (pcm_wav 1 16) /\ wav_channels (pcm_wav 1 16) = 1 /\
  sound_al_loadWav 1 (AlSound 0) (rw_open (wav_bytes (pcm_wav 1 16) ++ [x00])) empty_world =
    wav_uploaded AL_FORMAT_MONO16 four_bytes 44100 empty_world.
Proof.
  assert (Hwf : wav_wellformed (pcm_wav 1 16)).
  { vm_compute. repeat split; try (left; reflexivity); try (right; reflexivity);
      try discriminate; reflexivity. }
  assert (Hch : wav_channels (pcm_wav 1 16) = 1) by reflexivity.
  split; [exact Hwf |]. split; [exact Hch |].
  exact (proj1 (mono_wav_loads_as_declared 0 (AlSound 0) (pcm_wav 1 16) [x00] empty_world
                  Hwf Hch)).
Defined.

Lemma unsupported_wav_is_refused_witness :
  wav_fields_fit (pcm_wav 3 8) /\ wav_compression (pcm_wav 3 8) = 1 /\
  3 <= wav_channels (pcm_wav 3 8) /\
  (2 < length (wav_payload (pcm_wav 3 8)))%nat /\
  fst (sound_al_loadWav 1 (AlSound 0) (rw_open (wav_bytes (pcm_wav 3 8) ++ [])) empty_world) =
    Returns (-1, AlSound 0) /\
  sound_al_loadWav 9 (AlSound 0)
    (rw_open (wav_head (pcm_wav 3 8) ++ take 2 (wav_payload (pcm_wav 3 8)))) empty_world =
    (OutOfFuel, empty_world).
Proof.
  assert (Hfit : wav_fields_fit (pcm_wav 3 8)).
  { vm_compute. repeat split; try discriminate; reflexivity. }
  assert (Hc : wav_compression (pcm_wav 3 8) = 1) by reflexivity.
  assert (Hch : 3 <= wav_channels (pcm_wav 3 8)) by (cbn; lia).
  assert (Hk : (2 < length (wav_payload (pcm_wav 3 8)))%nat) by (cbn; lia).
  split; [exact Hfit |]. split; [exact Hc |]. split; [exact Hch |]. split; [exact Hk |].
  split.
  - rewrite (proj1 (proj2 (unsupported_wav_is_refused 0 (AlSound 0) (pcm_wav 3 8) []
                             empty_world Hfit)) Hc Hch).
    reflexivity.
  - exact (proj2 (proj2 (unsupported_wav_is_refused 9 (AlSound 0) (pcm_wav 3 8) []
                           empty_world Hfit)) Hc Hch 2%nat Hk).
Defined.

Lemma zero_channels_divides_by_zero_witness :
  wav_fields_fit (pcm_wav 0 8) /\ wav_compression (pcm_wav 0 8) = 1 /\
  wav_channels (pcm_wav 0 8) = 0 /\
  sound_al_loadWav 1 (AlSound 0) (rw_open (wav_head (pcm_wav 0 8) ++ four_bytes)) empty_world =
    (Traps, empty_world).
Proof.
  assert (Hfit : wav_fields_fit (pcm_wav 0 8)).
  { vm_compute. repeat split; try discriminate; reflexivity. }
  assert (Hc : wav_compression (pcm_wav 0 8) = 1) by reflexivity.
  assert (Hch : wav_channels (pcm_wav 0 8) = 0) by reflexivity.
  split; [exact Hfit |]. split; [exact Hc |]. split; [exact Hch |].
  exact (zero_channels_divides_by_zero 1 (AlSound 0) (pcm_wav 0 8) four_bytes empty_world
           Hfit Hc Hch).
Defined.

Lemma stream_without_riff_is_refused_witness :
  (length [x01; x02] < 4)%nat /\
  trace (snd (sound_al_loadWav 1 (AlSound 0) (rw_open [x01; x02]) empty_world)) =
    [LogWarn "Did not read expected bytes." []; LogWarn "RIFF header not found." []].
Proof.
  assert (Hlen : (length [x01; x02] < 4)%nat) by (cbn; lia).
  split; [exact Hlen |].
  rewrite (stream_without_riff_is_refused 1 (AlSound 0) [x01; x02] empty_world
             (or_introl Hlen)).
  reflexivity.
Defined.

Lemma ogg_loads_decoded_packets_witness :
  1 * 2 * 2 = Z.of_nat (length (concat [[x01; x02]; [x03; x04]])) /\
  (length [[x01; x02]; [x03; x04]] <= 2)%nat /\
  sound_al_loadOgg 2 (AlSound 0) (ogg_of 2 22050 1 [[x01; x02]; [x03; x04]]) empty_world =
    wav_uploaded AL_FORMAT_STEREO16 four_bytes 22050 empty_world.
Proof.
  assert (Hlen : 1 * 2 * 2 = Z.of_nat (length (concat [[x01; x02]; [x03; x04]])))
    by reflexivity.
  assert (Hfit : Z.of_nat (length (concat [[x01; x02]; [x03; x04]])) < 2 ^ 31)
    by (cbn; lia).
  assert (Hrate : 0 <= 22050 < 2 ^ 31) by lia.
  assert (Hfuel : (length [[x01; x02]; [x03; x04]] <= 2)%nat) by (cbn; lia).
  split; [exact Hlen |]. split; [exact Hfuel |].
  exact (ogg_loads_decoded_packets 2 (AlSound 0) 2 22050 1 [[x01; x02]; [x03; x04]]
           empty_world Hlen Hfit Hrate Hfuel).
Defined.


Lemma load_decodes_wav_and_checks_errors_witness :
  let nd := wav_only (wav_bytes (pcm_wav 1 8) ++ []) in
  ov_test_callbacks nd (ndata_rwops nd "snd/sounds/beep.wav") = None /\
  wav_wellformed (pcm_wav 1 8) /\ wav_channels (pcm_wav 1 8) = 1 /\
  fst (sound_al_load nd 1 (AlSound 0) "snd/sounds/beep.wav" empty_world) =
    Returns (0, AlSound 1) /\
  trace (snd (sound_al_load nd 1 (AlSound 0) "snd/sounds/beep.wav" empty_world)) =
    [AlGenBuffers 1; AlBufferData 1 AL_FORMAT_MONO8 four_bytes 4 44100; AlGetError].
Proof.
  intros nd.
  assert (Hogg : ov_test_callbacks nd (ndata_rwops nd "snd/sounds/beep.wav") = None)
    by reflexivity.
  assert (Hrw : ndata_rwops nd "snd/sounds/beep.wav" = rw_open (wav_bytes (pcm_wav 1 8) ++ []))
    by reflexivity.
  assert (Hwf : wav_wellformed (pcm_wav 1 8)).
  { vm_compute. repeat split; try (left; reflexivity); try (right; reflexivity);
      try discriminate; reflexivity. }
  assert (Hch : wav_channels (pcm_wav 1 8) = 1) by reflexivity.
  split; [exact Hogg |]. split; [exact Hwf |]. split; [exact Hch |].
  rewrite (proj1 (load_decodes_wav_and_checks_errors nd 0 (AlSound 0) "snd/sounds/beep.wav"
                    (pcm_wav 1 8) [] empty_world Hogg Hrw Hwf Hch)).
  split; reflexivity.
Defined.

